(** * mzbuild: a shallow embedding of [misc/python/materialize/mzbuild.py]

    The development follows the Python module top to bottom: the library
    primitives it relies on (string sorting, SHA-1, base32, the [re] calls it
    makes), then [RepositoryDetails], the [PreImage] variants, [Image],
    [ResolvedImage], [DependencySet] and [Repository].  Theorems about them
    come after all definitions.

    Representation choices.
    - A Python [str] and a Python [bytes] are both a Rocq [string]: the
      sequence of bytes of the UTF-8 encoding.  [encode] and [decode] are
      therefore the identity.  Python compares [str] values by code point,
      which is the byte order of their UTF-8 encodings.
    - A Python [set] of strings that is only ever sorted or passed on is a list
      without duplicates; a [dict] whose order matters is an association list
      in insertion order.
    - Everything the module obtains from the outside (tracked files, file modes
      and contents, the Docker daemon, the registry, subprocess outcomes, the
      CPU count) is a field of the record [World]. *)

From Stdlib Require Import ZArith String Ascii List Bool Lia QArith Floats Sorted.
From Stdlib Require DecimalString.
From stdpp Require Import base tactics option list strings gmap sets relations.

Local Open Scope string_scope.
Local Open Scope list_scope.
Local Open Scope Z_scope.

(** ** Python built-ins *)

Module Py.

(** [sorted(xs)] for strings: a stable insertion sort on [String.leb]. An
    element goes in front of the first one that is not smaller. *)
Fixpoint insert_sorted {A} (key : A -> string) (x : A) (l : list A) : list A :=
  match l with
  | [] => [x]
  | y :: l' =>
      if String.leb (key x) (key y) then x :: y :: l'
      else y :: insert_sorted key x l'
  end.

(** [sorted(xs, key=key)].  Elements are inserted from the right so that equal
    keys keep their input order, as Python's sort guarantees. *)
Definition sorted_by {A} (key : A -> string) (l : list A) : list A :=
  foldr (insert_sorted key) [] l.

Definition sorted (l : list string) : list string := sorted_by (fun s => s) l.

(** [sep.join(xs)] *)
Fixpoint join (sep : string) (l : list string) : string :=
  match l with
  | [] => ""
  | [x] => x
  | x :: l' => x +:+ sep +:+ join sep l'
  end.

(** [list += s] for a [str] right-hand side: the list is extended by the
    elements of the iterable, which for a string are its characters. *)
Fixpoint chars (s : string) : list string :=
  match s with
  | EmptyString => []
  | String c s' => String c EmptyString :: chars s'
  end.

(** [str(b)] for a [bool] *)
Definition str_bool (b : bool) : string := if b then "True" else "False".

(** [str(n)] for a non-negative [int] *)
Definition str_int (n : Z) : string :=
  DecimalString.NilZero.string_of_int (Z.to_int n).

(** The bytes of a string as numbers, and back. *)
Definition to_bytes_list (s : string) : list Z :=
  map (fun a => Z.of_N (N_of_ascii a)) (list_ascii_of_string s).

Definition of_bytes_list (l : list Z) : string :=
  string_of_list_ascii (map (fun z => ascii_of_N (Z.to_N z)) l).

(** [n.to_bytes(length, byteorder="big")]: [OverflowError] (here [None]) when
    [n] is negative or does not fit. *)
Fixpoint be_bytes (len : nat) (n : Z) : list Z :=
  match len with
  | O => []
  | S len' => be_bytes len' (n / 256) ++ [n mod 256]
  end.

Definition int_to_bytes (n : Z) (len : nat) : option string :=
  if (0 <=? n) && (n <? 256 ^ Z.of_nat len)
  then Some (of_bytes_list (be_bytes len n))
  else None.

(** A [str] is kept as the bytes of its UTF-8 encoding, so that [encode()] is
    the identity, [decode()] is the identity on the bytes it accepts, and the
    order of [str] values is the order of these bytes. *)
Definition between (lo hi : N) (c : ascii) : bool :=
  ((lo <=? N_of_ascii c) && (N_of_ascii c <=? hi))%N.

(** The bytes that [bytes.decode()] accepts: well-formed UTF-8, without
    overlong forms, surrogates or code points above [U+10FFFF]. *)
Fixpoint utf8_valid (s : string) : bool :=
  match s with
  | EmptyString => true
  | String c0 s1 =>
      if between 0 127 c0 then utf8_valid s1
      else
        match s1 with
        | EmptyString => false
        | String c1 s2 =>
            if between 194 223 c0 then between 128 191 c1 && utf8_valid s2
            else
              match s2 with
              | EmptyString => false
              | String c2 s3 =>
                  if between 224 239 c0 then
                    (if between 224 224 c0 then between 160 191 c1
                     else if between 237 237 c0 then between 128 159 c1
                     else between 128 191 c1)
                    && between 128 191 c2 && utf8_valid s3
                  else
                    match s3 with
                    | EmptyString => false
                    | String c3 s4 =>
                        if between 240 244 c0 then
                          (if between 240 240 c0 then between 144 191 c1
                           else if between 244 244 c0 then between 128 143 c1
                           else between 128 191 c1)
                          && between 128 191 c2 && between 128 191 c3
                          && utf8_valid s4
                        else false
                    end
              end
        end
  end.

End Py.

(** ** [hashlib.sha1] *)

Module Sha1.

Definition mask32 (x : Z) : Z := Z.land x 4294967295.

Definition rotl (n : Z) (x : Z) : Z :=
  mask32 (Z.lor (Z.shiftl x n) (Z.shiftr x (32 - n))).

Definition add32 (x y : Z) : Z := mask32 (x + y).

(** Message padding: a [0x80] byte, zeros up to 56 modulo 64, then the bit
    length as 8 big-endian bytes. *)
Definition pad (msg : list Z) : list Z :=
  let len := Z.of_nat (length msg) in
  let k := (55 - len) mod 64 in
  msg ++ [128] ++ repeat 0 (Z.to_nat k) ++ Py.be_bytes 8 (8 * len).

Fixpoint words (bs : list Z) (n : nat) : list Z :=
  match n with
  | O => []
  | S n' =>
      match bs with
      | b0 :: b1 :: b2 :: b3 :: bs' =>
          (((b0 * 256 + b1) * 256 + b2) * 256 + b3) :: words bs' n'
      | _ => []
      end
  end.

Fixpoint blocks (bs : list Z) (n : nat) : list (list Z) :=
  match n with
  | O => []
  | S n' => words bs 16 :: blocks (drop 64 bs) n'
  end.

(** The message schedule: 16 block words extended to 80. *)
Fixpoint schedule (n : nat) (w : list Z) : list Z :=
  match n with
  | O => w
  | S n' =>
      let t := length w in
      let at_ (i : nat) := nth (t - i) w 0 in
      schedule n'
        (w ++ [rotl 1 (Z.lxor (Z.lxor (at_ 3%nat) (at_ 8%nat))
                              (Z.lxor (at_ 14%nat) (at_ 16%nat)))])
  end.

Definition round_fk (t : nat) (b c d : Z) : Z * Z :=
  if (t <? 20)%nat then
    (Z.lor (Z.land b c) (Z.land (mask32 (Z.lnot b)) d), 1518500249)
  else if (t <? 40)%nat then
    (Z.lxor (Z.lxor b c) d, 1859775393)
  else if (t <? 60)%nat then
    (Z.lor (Z.lor (Z.land b c) (Z.land b d)) (Z.land c d), 2400959708)
  else
    (Z.lxor (Z.lxor b c) d, 3395469782).

Definition state : Type := Z * Z * Z * Z * Z.

Fixpoint rounds (t : nat) (ws : list Z) (s : state) : state :=
  match ws with
  | [] => s
  | w :: ws' =>
      let '(a, b, c, d, e) := s in
      let '(f, k) := round_fk t b c d in
      let tmp := add32 (add32 (add32 (add32 (rotl 5 a) f) e) k) w in
      rounds (S t) ws' (tmp, a, rotl 30 b, c, d)
  end.

Definition compress (s : state) (block : list Z) : state :=
  let '(h0, h1, h2, h3, h4) := s in
  let '(a, b, c, d, e) := rounds 0 (schedule 64 block) s in
  (add32 h0 a, add32 h1 b, add32 h2 c, add32 h3 d, add32 h4 e).

Definition init : state :=
  (1732584193, 4023233417, 2562383102, 271733878, 3285377520).

Definition digest_bytes (msg : list Z) : list Z :=
  let p := pad msg in
  let '(h0, h1, h2, h3, h4) :=
    fold_left compress (blocks p (length p / 64)) init in
  Py.be_bytes 4 h0 ++ Py.be_bytes 4 h1 ++ Py.be_bytes 4 h2
    ++ Py.be_bytes 4 h3 ++ Py.be_bytes 4 h4.

(** [hashlib.sha1(data).digest()] *)
Definition sha1 (data : string) : string :=
  Py.of_bytes_list (digest_bytes (Py.to_bytes_list data)).

(** A [hashlib] hash object: all that is observable is the data fed so far.
    [update] appends, [digest] hashes the concatenation. *)
Record hasher := Hasher { fed : string }.

Definition new : hasher := Hasher "".
Definition update (h : hasher) (data : string) : hasher := Hasher (fed h +:+ data).
Definition digest (h : hasher) : string := sha1 (fed h).

(** Hexadecimal rendering, used to compare with published test vectors. *)
Definition hex_digit (n : Z) : string :=
  String.substring (Z.to_nat n) 1 "0123456789abcdef".

Definition hexdigest (data : string) : string :=
  String.concat ""
    (map (fun b => hex_digit (b / 16) +:+ hex_digit (b mod 16))
         (digest_bytes (Py.to_bytes_list data))).

End Sha1.

(** ** [base64.b32encode] *)

Module Base32.

Definition alphabet : string := "ABCDEFGHIJKLMNOPQRSTUVWXYZ234567".

Definition symbol (i : Z) : ascii :=
  match String.get (Z.to_nat i) alphabet with
  | Some c => c
  | None => "="%char
  end.

(** One 40-bit quantum rendered as 8 symbols, of which the first [k] carry
    data and the others are padding. *)
Definition quantum (n : Z) (k : nat) : list ascii :=
  map (fun j : nat =>
         if (j <? k)%nat then symbol ((n / 32 ^ (7 - Z.of_nat j)) mod 32)
         else "="%char)
      (seq 0 8).

Definition pack (b0 b1 b2 b3 b4 : Z) : Z :=
  (((b0 * 256 + b1) * 256 + b2) * 256 + b3) * 256 + b4.

Fixpoint encode_bytes (bs : list Z) : list ascii :=
  match bs with
  | [] => []
  | [b0] => quantum (pack b0 0 0 0 0) 2
  | [b0; b1] => quantum (pack b0 b1 0 0 0) 4
  | [b0; b1; b2] => quantum (pack b0 b1 b2 0 0) 5
  | [b0; b1; b2; b3] => quantum (pack b0 b1 b2 b3 0) 7
  | b0 :: b1 :: b2 :: b3 :: b4 :: bs' =>
      quantum (pack b0 b1 b2 b3 b4) 8 ++ encode_bytes bs'
  end.

(** [base64.b32encode(data).decode()] *)
Definition b32encode (data : string) : string :=
  string_of_list_ascii (encode_bytes (Py.to_bytes_list data)).

End Base32.

(** ** The calls into [re] and file objects *)

Module Re.

(** [\s] for a bytes pattern: space, tab, newline, carriage return, form feed
    and vertical tab. *)
Definition is_space (c : ascii) : bool :=
  let n := N_of_ascii c in
  ((n =? 32) || ((9 <=? n) && (n <=? 13)))%N.

(** The character class [A-Za-z0-9\-]. *)
Definition is_name_char (c : ascii) : bool :=
  let n := N_of_ascii c in
  (((65 <=? n) && (n <=? 90)) || ((97 <=? n) && (n <=? 122))
   || ((48 <=? n) && (n <=? 57)) || (n =? 45))%N.

(** [re.search(r"[^A-Za-z0-9\-]", s)] finds something: some character of [s]
    is outside the class. *)
Fixpoint search_invalid (s : string) : bool :=
  match s with
  | EmptyString => false
  | String c s' => negb (is_name_char c) || search_invalid s'
  end.

Fixpoint skip_spaces (s : string) : string :=
  match s with
  | String c s' => if is_space c then skip_spaces s' else s
  | EmptyString => s
  end.

(** The longest prefix without whitespace, and what follows it. *)
Fixpoint span_nonspace (s : string) : string * string :=
  match s with
  | String c s' =>
      if is_space c then (EmptyString, s)
      else let '(g, r) := span_nonspace s' in (String c g, r)
  | EmptyString => (EmptyString, EmptyString)
  end.

Fixpoint strip_prefix (p s : string) : option string :=
  match p, s with
  | EmptyString, _ => Some s
  | String a p', String b s' => if Ascii.eqb a b then strip_prefix p' s' else None
  | String _ _, EmptyString => None
  end.

(** [_DOCKERFILE_MZFROM_RE.match(line)] for the pattern [^MZFROM\s*(\S+)].
    The pattern is deterministic: the literal, then every whitespace byte that
    follows (giving one back never helps, since the next item needs a
    non-whitespace byte), then the longest run of non-whitespace bytes, which
    must not be empty.  The result is [group(1)] and the part of the line after
    the match. *)
Definition mzfrom_match (line : string) : option (string * string) :=
  match strip_prefix "MZFROM" line with
  | None => None
  | Some rest =>
      let '(g, r) := span_nonspace (skip_spaces rest) in
      match g with
      | EmptyString => None
      | _ => Some (g, r)
      end
  end.

Fixpoint has_backslash (s : string) : bool :=
  match s with
  | EmptyString => false
  | String c s' => Ascii.eqb c "\"%char || has_backslash s'
  end.

(** *** Replacement templates

    What [Pattern.sub] makes of its replacement, as [re] of Python 3.12 parses
    it ([re._parser.parse_template]). *)

(** A token of the template: a byte, or a backslash with the byte after it.
    [Dangling] is a backslash at the very end; [re] raises when it comes to
    it, which is when it takes the token before. *)
Inductive token : Type :=
| Chr (c : ascii)
| Esc (c : ascii)
| Dangling.

Fixpoint tokens (s : string) : list token :=
  match s with
  | EmptyString => []
  | String c s' =>
      if Ascii.eqb c "\"%char then
        match s' with
        | EmptyString => [Dangling]
        | String d s'' => Esc d :: tokens s''
        end
      else Chr c :: tokens s'
  end.

Definition token_text (t : token) : string :=
  match t with
  | Chr c => String c EmptyString
  | Esc c => String "\"%char (String c EmptyString)
  | Dangling => String "\"%char EmptyString
  end.

(** The outcome of a substitution: the text, [re.error], or the [IndexError]
    for a group name the pattern does not have. *)
Inductive expansion : Type :=
| Expanded (s : string)
| BadTemplate
| UnknownGroupName.

Definition prepend (s : string) (r : expansion) : expansion :=
  match r with
  | Expanded t => Expanded (s +:+ t)
  | _ => r
  end.

Definition is_digit (c : ascii) : bool :=
  let n := N_of_ascii c in ((48 <=? n) && (n <=? 57))%N.

Definition is_octdigit (c : ascii) : bool :=
  let n := N_of_ascii c in ((48 <=? n) && (n <=? 55))%N.

Definition digit_value (c : ascii) : N := (N_of_ascii c - 48)%N.

Definition is_ascii_letter (c : ascii) : bool :=
  let n := N_of_ascii c in
  (((65 <=? n) && (n <=? 90)) || ((97 <=? n) && (n <=? 122)))%N.

Definition char_of (n : N) : string := String (ascii_of_N n) EmptyString.

(** The escapes that stand for one byte: [\a \b \f \n \r \t \v] and the
    backslash itself. *)
Definition escape_value (c : ascii) : option N :=
  let n := N_of_ascii c in
  (if n =? 97 then Some 7 else if n =? 98 then Some 8
   else if n =? 102 then Some 12 else if n =? 110 then Some 10
   else if n =? 114 then Some 13 else if n =? 116 then Some 9
   else if n =? 118 then Some 11 else if n =? 92 then Some 92
   else None)%N.

Fixpoint all_chars (P : ascii -> bool) (s : string) : bool :=
  match s with
  | EmptyString => true
  | String c s' => P c && all_chars P s'
  end.

(** [int(name)] for a name of ASCII digits *)
Fixpoint decimal (acc : N) (s : string) : N :=
  match s with
  | EmptyString => acc
  | String c s' => decimal (10 * acc + digit_value c)%N s'
  end.

(** [name.isidentifier()] for a name of ASCII bytes *)
Definition is_identifier (name : string) : bool :=
  match name with
  | EmptyString => false
  | String c s' =>
      (is_ascii_letter c || Ascii.eqb c "_"%char)
      && all_chars (fun d => is_ascii_letter d || is_digit d
                             || Ascii.eqb d "_"%char) s'
  end.

(** A reference to group [n], followed by [rest]: the pattern must have the
    group. *)
Definition group_ref (groups : list string) (n : N) (rest : expansion)
  : expansion :=
  if (N.to_nat n <? length groups)%nat
  then prepend (nth (N.to_nat n) groups EmptyString) rest
  else BadTemplate.

(** The template expanded with [groups], which holds the text of the whole
    match and of each group of the pattern.  [group_name] reads the name
    after [\g<]. *)
Fixpoint expand (groups : list string) (ts : list token) {struct ts}
  : expansion :=
  match ts with
  | [] => Expanded EmptyString
  | Dangling :: _ => BadTemplate
  | Chr c :: ts' => prepend (String c EmptyString) (expand groups ts')
  | Esc c :: ts' =>
      if Ascii.eqb c "g"%char then
        match ts' with
        | Chr lt :: ts'' =>
            if Ascii.eqb lt "<"%char then group_name groups ts'' EmptyString
            else BadTemplate
        | _ => BadTemplate
        end
      else if Ascii.eqb c "0"%char then
        match ts' with
        | Chr d1 :: ts1 =>
            if is_octdigit d1 then
              match ts1 with
              | Chr d2 :: ts2 =>
                  if is_octdigit d2
                  then prepend (char_of (N.land (8 * digit_value d1
                                                 + digit_value d2) 255))
                               (expand groups ts2)
                  else prepend (char_of (digit_value d1)) (expand groups ts1)
              | _ => prepend (char_of (digit_value d1)) (expand groups ts1)
              end
            else prepend (char_of 0) (expand groups ts')
        | _ => prepend (char_of 0) (expand groups ts')
        end
      else if is_digit c then
        match ts' with
        | Chr d1 :: ts1 =>
            if is_digit d1 then
              let two := (10 * digit_value c + digit_value d1)%N in
              match ts1 with
              | Chr d2 :: ts2 =>
                  if is_octdigit c && is_octdigit d1 && is_octdigit d2 then
                    let v := (64 * digit_value c + 8 * digit_value d1
                              + digit_value d2)%N in
                    if (255 <? v)%N then BadTemplate
                    else prepend (char_of v) (expand groups ts2)
                  else group_ref groups two (expand groups ts1)
              | _ => group_ref groups two (expand groups ts1)
              end
            else group_ref groups (digit_value c) (expand groups ts')
        | _ => group_ref groups (digit_value c) (expand groups ts')
        end
      else
        match escape_value c with
        | Some n => prepend (char_of n) (expand groups ts')
        | None =>
            if is_ascii_letter c then BadTemplate
            else prepend (String "\"%char (String c EmptyString))
                         (expand groups ts')
        end
  end
with group_name (groups : list string) (ts : list token) (name : string)
    {struct ts} : expansion :=
  match ts with
  | [] => BadTemplate
  | Dangling :: _ => BadTemplate
  | Esc c :: ts' => group_name groups ts' (name +:+ token_text (Esc c))
  | Chr c :: ts' =>
      if Ascii.eqb c ">"%char then
        match ts' with
        | Dangling :: _ => BadTemplate
        | _ =>
            match name with
            | EmptyString => BadTemplate
            | _ =>
                if all_chars is_digit name
                then group_ref groups (decimal 0 name) (expand groups ts')
                else if is_identifier name
                then UnknownGroupName
                else BadTemplate
            end
        end
      else group_name groups ts' (name +:+ String c EmptyString)
  end.

(** The replacement of [Pattern.sub].  A template without a backslash stands
    for itself; otherwise it is parsed. *)
Definition expand_template (repl : string) (groups : list string)
  : expansion :=
  if has_backslash repl then expand groups (tokens repl) else Expanded repl.

(** [_DOCKERFILE_MZFROM_RE.sub(repl, line)].  The template is parsed before
    the pattern is tried.  The pattern is anchored at the start of the subject
    and is compiled without [re.MULTILINE], so it can match at offset 0 only:
    at most one occurrence is replaced, and what follows the match is kept. *)
Definition mzfrom_sub (repl line : string) : expansion :=
  match mzfrom_match line with
  | None =>
      match expand_template repl [EmptyString; EmptyString] with
      | Expanded _ => Expanded line
      | failed => failed
      end
  | Some (group1, rest) =>
      let group0 :=
        substring 0 (String.length line - String.length rest) line in
      match expand_template repl [group0; group1] with
      | Expanded r => Expanded (r +:+ rest)
      | failed => failed
      end
  end.

End Re.

Module Io.

Definition newline : ascii := ascii_of_N 10.

(** [f.readlines()] on a file opened in binary mode: the content cut after
    every newline byte, the newline kept with its line. *)
Fixpoint readlines (s : string) : list string :=
  match s with
  | EmptyString => []
  | String c s' =>
      if Ascii.eqb c newline then String c EmptyString :: readlines s'
      else match readlines s' with
           | [] => [String c EmptyString]
           | l :: ls => String c l :: ls
           end
  end.

(** [s.split("\n")] *)
Fixpoint split_lines (s : string) : list string :=
  match s with
  | EmptyString => [EmptyString]
  | String c s' =>
      if Ascii.eqb c newline then EmptyString :: split_lines s'
      else match split_lines s' with
           | [] => [String c EmptyString]
           | l :: ls => String c l :: ls
           end
  end.

Fixpoint lstrip (s : string) : string :=
  match s with
  | String c s' => if Re.is_space c then lstrip s' else s
  | EmptyString => s
  end.

(** [s.strip()] *)
Definition strip (s : string) : string :=
  String.rev (lstrip (String.rev (lstrip s))).

(** [p / q] on [pathlib.Path] values, for a path [p] other than [.] and [/]
    and a relative [q] in the form [pathlib] keeps, where joining the texts
    is all that [pathlib] does; [os.path.join] on such values. *)
Definition path_join (p q : string) : string := p +:+ "/" +:+ q.

End Io.

(** ** [pathlib.PurePosixPath]

    A path is kept as the text that [str()] gives for it.  [of_string] is the
    constructor, which brings any text into this form. *)

Module Path.

(** [s.split("/")] *)
Fixpoint pieces (s : string) : list string :=
  match s with
  | EmptyString => [EmptyString]
  | String a s' =>
      if Ascii.eqb a "/"%char then EmptyString :: pieces s'
      else match pieces s' with
           | [] => [String a EmptyString]
           | l :: ls => String a l :: ls
           end
  end.

(** What [pathlib] keeps of the pieces: not the empty ones, which come from
    doubled or trailing slashes, and not the single dots. *)
Definition is_component (c : string) : bool :=
  negb (String.eqb c "" || String.eqb c ".").

Definition components (s : string) : list string :=
  List.filter is_component (pieces s).

(** The root of a text: [/] when it begins with one slash or with three and
    more, [//] when it begins with exactly two, none otherwise. *)
Definition root_of (s : string) : string :=
  match s with
  | String a (String b rest) =>
      if Ascii.eqb a "/"%char then
        if Ascii.eqb b "/"%char then
          match rest with
          | String c _ => if Ascii.eqb c "/"%char then "/" else "//"
          | EmptyString => "//"
          end
        else "/"
      else ""
  | String a EmptyString => if Ascii.eqb a "/"%char then "/" else ""
  | EmptyString => ""
  end.

(** [str(p)] for a path with the given root and components *)
Definition render (root : string) (cs : list string) : string :=
  match root, cs with
  | EmptyString, [] => "."
  | _, _ => root +:+ Py.join "/" cs
  end.

(** [Path(s)] *)
Definition of_string (s : string) : string :=
  render (root_of s) (components s).

(** [p / q]: an absolute [q] stands alone. *)
Definition join (p q : string) : string :=
  match root_of q with
  | EmptyString => render (root_of p) (components p ++ components q)
  | _ => of_string q
  end.

(** [p.parts]: the root, if there is one, and the components. *)
Definition parts (p : string) : list string :=
  match root_of p with
  | EmptyString => components p
  | r => r :: components p
  end.

Fixpoint strip_parts (base p : list string) : option (list string) :=
  match base, p with
  | [], _ => Some p
  | b :: base', c :: p' =>
      if String.eqb b c then strip_parts base' p' else None
  | _ :: _, [] => None
  end.

(** [p.relative_to(base)]; [None] stands for the [ValueError] raised when
    the parts of [base] are not the first parts of [p]. *)
Definition relative_to (base p : string) : option string :=
  match strip_parts (parts base) (parts p) with
  | Some rest => Some (render EmptyString rest)
  | None => None
  end.

(** [p.is_relative_to(base)] *)
Definition is_relative_to (base p : string) : bool :=
  match relative_to base p with Some _ => true | None => false end.

End Path.

(** ** Numbers: [/] and [round] *)

Module Num.

(** [round(x)] with one argument: the nearest integer, ties to the even one. *)
Definition round (x : Q) : Z :=
  let d := Zpos (Qden x) in
  let q := Qnum x / d in
  let r := Qnum x mod d in
  if 2 * r <? d then q
  else if d <? 2 * r then q + 1
  else if Z.even q then q else q + 1.

(** [a / b] on two [int]s, for a positive [b], is true division.  Whatever
    the size of the operands, CPython returns the binary64 number nearest to
    the exact quotient, ties to the even mantissa, and raises [OverflowError]
    (here [None]) when that number is not finite.  A binary64 number is kept
    as the rational it stands for: a mantissa [m] of at most 53 bits times
    [2 ^ e], with [e] from -1074 to 971.  With [k] the difference of the bit
    lengths, the quotient lies between [2 ^ (k - 1)] and [2 ^ (k + 1)], which
    leaves two candidates for [e]. *)
Definition truediv (a b : Z) : option Q :=
  if a =? 0 then Some (Qmake 0 1)
  else
    let n := Z.abs a in
    let k := Z.log2 n - Z.log2 b in
    let below := n * 2 ^ Z.max 0 (- k) <? b * 2 ^ Z.max 0 k in
    let e := Z.max (if below then k - 53 else k - 52) (-1074) in
    let m := round (Qmake (n * 2 ^ Z.max 0 (- e))
                          (Z.to_pos (b * 2 ^ Z.max 0 e))) in
    if (971 <? e) || ((e =? 971) && (m =? 2 ^ 53)) then None
    else Some (Qmake (Z.sgn a * m * 2 ^ Z.max 0 e)
                     (Z.to_pos (2 ^ Z.max 0 (- e)))).

(** The value of a finite binary64 number as a rational. *)
Definition Q_of_float (f : float) : option Q :=
  match Prim2SF f with
  | S754_zero _ => Some (Qmake 0 1)
  | S754_finite s m e =>
      let n := if s then Zneg m else Zpos m in
      Some (if 0 <=? e then Qmake (n * 2 ^ e) 1
            else Qmake n (Z.to_pos (2 ^ (- e))))
  | _ => None
  end.

Definition float_of_Z (n : Z) : float := PrimFloat.of_uint63 (Uint63.of_Z n).

(** [a / b] computed by the division of binary64 numbers, for operands from
    0 to 2^53, which binary64 holds exactly. *)
Definition float_div (a b : Z) : option Q :=
  Q_of_float (PrimFloat.div (float_of_Z a) (float_of_Z b)).

End Num.

(** ** Exceptions *)

Inductive exn : Type :=
| ValueError (msg : string)
| KeyError (key : string)
| AssertionError (msg : string)
| OSError (file : string)
| OverflowError
| ReError (template : string)
| IndexError (msg : string)
| UnicodeDecodeError (bytes : string)
| CalledProcessError (cmd : list string).

Inductive result (A : Type) : Type :=
| Ok (a : A)
| Raise (e : exn).

Arguments Ok {A} a.
Arguments Raise {A} e.

Definition bind {A B} (r : result A) (k : A -> result B) : result B :=
  match r with
  | Ok a => k a
  | Raise e => Raise e
  end.

Notation "x <- r ;; k" := (bind r (fun x => k))
  (at level 100, r at next level, right associativity).

Definition is_ok {A} (r : result A) : bool :=
  match r with Ok _ => true | Raise _ => false end.

Definition of_option {A} (o : option A) (e : exn) : result A :=
  match o with Some a => Ok a | None => Raise e end.

(** [b.decode()] *)
Definition decode (b : string) : result string :=
  if Py.utf8_valid b then Ok b else Raise (UnicodeDecodeError b).

(** A [for] loop whose body may raise: the first exception ends the loop. *)
Definition for_each {A S} (xs : list A) (body : A -> S -> result S)
  : S -> result S :=
  (fix loop (xs : list A) (s : S) : result S :=
     match xs with
     | [] => Ok s
     | x :: xs' => s' <- body x s ;; loop xs' s'
     end) xs.

(** ** [materialize.rustc_flags] and [materialize.xcompile] *)

(** Modelled from the spec: the module [rustc_flags] is not among the sources.
    The spec gives the members of the enumeration (section 3, BuildAxes) and
    says that a sanitizer's tag is its lowercase name (section 4.5). *)
Inductive Sanitizer : Type :=
| address | hwaddress | cfi | thread | leak | memory | none.

#[global] Instance Sanitizer_eq_dec : EqDecision Sanitizer.
Proof. solve_decision. Defined.

(** Modelled from the spec: [Sanitizer.value], the lowercase name. *)
Definition Sanitizer_value (s : Sanitizer) : string :=
  match s with
  | address => "address"
  | hwaddress => "hwaddress"
  | cfi => "cfi"
  | thread => "thread"
  | leak => "leak"
  | memory => "memory"
  | none => "none"
  end.

(** Modelled from the spec: [xcompile.Arch] is not among the sources.  The
    module only ever renders an architecture: [str(arch)], [arch.go_str()]
    and [xcompile.target(arch)]. *)
Record Arch : Type := {
  Arch_str : string;
  Arch_go_str : string;
  Arch_target : string
}.

(** ** [RepositoryDetails] *)

Record RepositoryDetails : Type := {
  root : string;
  arch : Arch;
  release_mode : bool;
  coverage : bool;
  sanitizer : Sanitizer;
  image_registry : string;
  image_prefix : string
}.

(** ** The outside world *)

(** A package of the Cargo workspace, as [cargo.Crate] exposes it. *)
Record Crate : Type := {
  crate_name : string;
  crate_inputs : list string
}.

(** One entry of the [pre-image] sequence of a manifest.  [bin] and [example]
    may be a single string or a list. *)
Record PreImageConfig : Type := {
  cfg_type : option string;
  cfg_source : option string;
  cfg_destination : option string;
  cfg_matching : option string;
  cfg_bin : option (string + list string);
  cfg_example : option (string + list string);
  cfg_strip : option bool;
  cfg_extract : option (list (string * list (string * string)))
}.

(** The document [yaml.safe_load] returns for an [mzbuild.yml]: a mapping in
    which every key may be absent. *)
Record Manifest : Type := {
  m_name : option string;
  m_publish : option bool;
  m_description : option string;
  m_mainline : option bool;
  m_pre_image : option (list PreImageConfig);
  m_build_args : option (list (string * string))
}.

(** A message of [cargo build --message-format=json], reduced to the keys the
    module looks up; a key may be missing. *)
Record Message : Type := {
  msg_reason : option string;
  msg_out_dir : option string;
  msg_package_id : option string
}.

(** What a run of the module observes of its environment.  Subprocess
    outcomes may depend on the commands issued before, hence the history
    argument. *)
Record World : Type := {
  (** [git.expand_globs(root, *specs)] *)
  expand_globs : string -> list string -> list string;
  (** [os.lstat(path).st_mode]; [None] when the call fails *)
  lstat_mode : string -> option Z;
  (** [open(path, "rb").read()]; [None] when the call fails *)
  read_file : string -> option string;
  (** [yaml.safe_load] of a manifest file; [None] when it cannot be opened *)
  load_manifest : string -> option Manifest;
  (** [multiprocessing.cpu_count()] *)
  cpu_count : Z;
  (** [str(sanitizer)], as an f-string renders it *)
  Sanitizer_str : Sanitizer -> string;
  (** [rustc_flags.coverage], [rustc_flags.sanitizer], [.sanitizer_cflags] *)
  rustc_flags_coverage : list string;
  rustc_flags_sanitizer : Sanitizer -> list string;
  rustc_flags_sanitizer_cflags : Sanitizer -> list string;
  (** [xcompile.cargo(arch, channel, subcommand, rustflags, extra_env)] *)
  xcompile_cargo :
    Arch -> string -> list string -> list (string * string) -> list string;
  (** [xcompile.tool(arch, name)] *)
  xcompile_tool : Arch -> string -> list string;
  (** [cargo.Workspace]: owner of a binary, owner of an example, and the
      transitive path dependencies of a crate (with dev edges or not) *)
  crate_for_bin : string -> option Crate;
  crate_for_example : string -> option Crate;
  transitive_path_dependencies : Crate -> bool -> list Crate;
  (** the order in which a [set] holding the given strings is iterated *)
  set_iteration : list string -> list string;
  (** whether a subprocess exits with status 0, given the commands so far *)
  exit_ok : list (list string) -> list string -> bool;
  (** the standard output of a captured subprocess *)
  stdout_of : list (list string) -> list string -> string;
  (** how often [spawn.run_with_retries] tries again within a time budget *)
  retries_within : Z -> nat;
  (** [ui.env_is_truthy(name)] *)
  env_is_truthy : string -> bool;
  (** [json.loads(line)] for a line of Cargo's message stream; [None] when
      the line is not valid JSON *)
  json_loads : string -> option Message
}.

(** ** Python containers *)

(** [set(xs)]: the distinct elements.  Sets built in the module are either
    sorted before use or handed to [expand_globs], so their iteration order is
    not modelled, except where [set_iteration] is used explicitly. *)
Definition Py_set (xs : list string) : list string := remove_dups xs.

(** [d[k] = v] on a [dict] kept in insertion order: an existing key keeps its
    position and gets the new value, a new key goes to the end. *)
Fixpoint dict_set {V} (d : list (string * V)) (k : string) (v : V)
  : list (string * V) :=
  match d with
  | [] => [(k, v)]
  | (k', v') :: d' =>
      if String.eqb k' k then (k, v) :: d' else (k', v') :: dict_set d' k v
  end.

(** [d.get(k)] *)
Fixpoint dict_get {V} (d : list (string * V)) (k : string) : option V :=
  match d with
  | [] => None
  | (k', v') :: d' => if String.eqb k' k then Some v' else dict_get d' k
  end.

(** [k in d] *)
Definition dict_mem {V} (d : list (string * V)) (k : string) : bool :=
  match dict_get d k with Some _ => true | None => false end.

(** [d[k]] *)
Definition dict_item {V} (d : list (string * V)) (k : string) : result V :=
  of_option (dict_get d k) (KeyError k).

(** ** [PreImage], [Copy], [CargoPreImage], [CargoBuild] *)

Inductive PreImageKind : Type :=
| Copy (source destination matching : string)
| CargoBuild (bins examples : list string) (strip : bool)
             (extract : list (string * list (string * string))).

(** Every action carries the two attributes of the base class. *)
Record PreImage : Type := {
  pre_rd : RepositoryDetails;
  pre_path : string;
  pre_kind : PreImageKind
}.

Definition Copy_init (rd : RepositoryDetails) (path : string)
    (config : PreImageConfig) : result PreImage :=
  source <- of_option (cfg_source config)
              (ValueError "mzbuild config is missing 'source' argument") ;;
  destination <- of_option (cfg_destination config)
              (ValueError "mzbuild config is missing 'destination' argument") ;;
  Ok {| pre_rd := rd; pre_path := path;
        pre_kind := Copy source destination (default "*" (cfg_matching config)) |}.

(** [x if isinstance(x, list) else [x]] *)
Definition as_list (x : string + list string) : list string :=
  match x with inl s => [s] | inr l => l end.

Definition CargoBuild_init (rd : RepositoryDetails) (path : string)
    (config : PreImageConfig) : result PreImage :=
  let bins := as_list (default (inr []) (cfg_bin config)) in
  let examples := as_list (default (inr []) (cfg_example config)) in
  let strip := default true (cfg_strip config) in
  let extract := default [] (cfg_extract config) in
  if ((length bins =? 0) && (length examples =? 0))%nat
  then Raise (ValueError "mzbuild config is missing pre-build target")
  else Ok {| pre_rd := rd; pre_path := path;
             pre_kind := CargoBuild bins examples strip extract |}.

(** [CargoPreImage.extra]: each [flags += <str>] extends the list by the
    characters of the string. *)
Definition CargoPreImage_extra (rd : RepositoryDetails) : string :=
  let flags : list string := [] in
  let flags := if release_mode rd then flags ++ Py.chars "release" else flags in
  let flags := if coverage rd then flags ++ Py.chars "coverage" else flags in
  let flags :=
    if decide (sanitizer rd <> none)
    then flags ++ Py.chars (Sanitizer_value (sanitizer rd)) else flags in
  let flags := Py.sorted flags in
  Py.join "," flags.

(** [PreImage.extra], dispatched on the class of the action. *)
Definition extra (p : PreImage) : string :=
  match pre_kind p with
  | Copy _ _ _ => ""
  | CargoBuild _ _ _ _ => CargoPreImage_extra (pre_rd p)
  end.

Definition CargoPreImage_inputs : list string :=
  ["ci/builder"; "Cargo.toml"; "Cargo.lock"; ".cargo/config"].

(** The inputs of the crates a list of targets depends on. *)
Definition crates_of (w : World) (owner : string -> option Crate) (dev : bool)
    (targets : list string) : result (list Crate) :=
  for_each targets
    (fun t deps =>
       crate <- of_option (owner t) (KeyError t) ;;
       Ok (deps ++ transitive_path_dependencies w crate dev))
    [].

(** [PreImage.inputs] *)
Definition PreImage_inputs (w : World) (p : PreImage) : result (list string) :=
  match pre_kind p with
  | Copy source _ matching =>
      Ok (Py_set
            (expand_globs w (Path.join (root (pre_rd p)) source) [matching]))
  | CargoBuild bins examples _ _ =>
      deps_b <- crates_of w (crate_for_bin w) false bins ;;
      deps_e <- crates_of w (crate_for_example w) true examples ;;
      Ok (Py_set (CargoPreImage_inputs
                  ++ concat (map crate_inputs (deps_b ++ deps_e))))
  end.

(** The value handed to [--jobs] when a sanitizer is on:
    [round(multiprocessing.cpu_count() * 2 / 3)]. *)
Definition sanitizer_jobs (n_cpus : Z) : result Z :=
  quotient <- of_option (Num.truediv (n_cpus * 2) 3) OverflowError ;;
  Ok (Num.round quotient).

(** The same with the quotient computed by the division of binary64
    numbers. *)
Definition float_jobs (n_cpus : Z) : option Z :=
  option_map Num.round (Num.float_div (n_cpus * 2) 3).

Definition sanitizer_extra_env (rd : RepositoryDetails) (cflags : list string)
  : list (string * string) :=
  [ ("CFLAGS", Py.join " " cflags);
    ("CXXFLAGS", Py.join " " cflags);
    ("LDFLAGS", Py.join " " cflags);
    ("CXXSTDLIB", "stdc++");
    ("CC", "cc");
    ("CXX", "c++");
    ("CPP", "clang-cpp-15");
    ("CARGO_TARGET_X86_64_UNKNOWN_LINUX_GNU_LINKER", "cc");
    ("CARGO_TARGET_AARCH64_UNKNOWN_LINUX_GNU_LINKER", "cc");
    ("PATH", "/sanshim:/opt/x-tools/" +:+ Arch_target (arch rd)
             +:+ "/bin:/usr/local/sbin:/usr/local/bin:/usr/sbin:/usr/bin:/sbin:/bin");
    ("TSAN_OPTIONS", "report_bugs=0") ].

(** The arguments [generate_cargo_build_command] appends after the targets. *)
Definition cargo_build_tail (w : World) (rd : RepositoryDetails)
  : result (list string) :=
  capped <- (if decide (sanitizer rd <> none) then
               jobs <- sanitizer_jobs (cpu_count w) ;;
               Ok ["--no-default-features"; "--jobs"; Py.str_int jobs]
             else Ok []) ;;
  Ok ((if release_mode rd then ["--release"] else []) ++ capped).

(** [CargoBuild.generate_cargo_build_command] *)
Definition generate_cargo_build_command (w : World) (rd : RepositoryDetails)
    (bins examples : list string) : result (list string) :=
  let t := Arch_target (arch rd) in
  let rustflags :=
    if coverage rd then rustc_flags_coverage w
    else if decide (sanitizer rd <> none)
         then rustc_flags_sanitizer w (sanitizer rd)
         else ["--cfg=tokio_unstable"] in
  let cflags :=
    if decide (sanitizer rd <> none)
    then [ "--target=" +:+ t;
           "--gcc-toolchain=/opt/x-tools/" +:+ t +:+ "/";
           "-fuse-ld=lld";
           "--sysroot=/opt/x-tools/" +:+ t +:+ "/" +:+ t +:+ "/sysroot";
           "-L/opt/x-tools/" +:+ t +:+ "/" +:+ t +:+ "/lib64" ]
         ++ rustc_flags_sanitizer_cflags w (sanitizer rd)
    else [] in
  let extra_env :=
    if decide (sanitizer rd <> none) then sanitizer_extra_env rd cflags
    else [] in
  let cargo_build := xcompile_cargo w (arch rd) "build" rustflags extra_env in
  acc <-
     for_each bins
       (fun bin '(cmd, pkgs) =>
          crate <- of_option (crate_for_bin w bin) (KeyError bin) ;;
          Ok (cmd ++ ["--bin"; bin], pkgs ++ [crate_name crate]))
       (cargo_build, []) ;;
  acc <-
     for_each examples
       (fun example '(cmd, pkgs) =>
          crate <- of_option (crate_for_example w example) (KeyError example) ;;
          Ok (cmd ++ ["--example"; example], pkgs ++ [crate_name crate]))
       acc ;;
  let '(cargo_build, packages) := acc in
  let cargo_build :=
    cargo_build
      ++ map (fun p => "--package=" +:+ p) (set_iteration w (Py_set packages)) in
  tail <- cargo_build_tail w rd ;;
  Ok (cargo_build ++ tail).

(** ** [Image] *)

Record Image : Type := {
  rd : RepositoryDetails;
  path : string;
  pre_images : list PreImage;
  name : string;
  publish : bool;
  description : option string;
  mainline : bool;
  build_args : list (string * string);
  depends_on : list string
}.

(** The names captured by the [MZFROM] pattern, line by line. *)
Definition mzfrom_names (lines : list string) : list string :=
  omap (fun line => fst <$> Re.mzfrom_match line) lines.

Definition pre_image_of_config (rd : RepositoryDetails) (path : string)
    (config : PreImageConfig) : result PreImage :=
  let typ := cfg_type config in
  if decide (typ = Some "cargo-build") then CargoBuild_init rd path config
  else if decide (typ = Some "copy") then Copy_init rd path config
  else Raise (ValueError ("mzbuild config in " +:+ path
                          +:+ " has unknown pre-image type")).

Definition invalid_name_message (name : string) : string :=
  "mzbuild image name " +:+ name
  +:+ " contains invalid character; only alphanumerics and hyphens allowed".

(** [Image.__init__] *)
Definition Image_init (w : World) (rd : RepositoryDetails) (path : string)
  : result Image :=
  let manifest := Io.path_join path "mzbuild.yml" in
  data <- of_option (load_manifest w manifest) (OSError manifest) ;;
  name <- of_option (m_name data) (KeyError "name") ;;
  let publish := default true (m_publish data) in
  let description := m_description data in
  let mainline := default true (m_mainline data) in
  pre_images <-
    for_each (default [] (m_pre_image data))
      (fun config acc =>
         p <- pre_image_of_config rd path config ;; Ok (acc ++ [p]))
      [] ;;
  let build_args := default [] (m_build_args data) in
  if Re.search_invalid name then Raise (ValueError (invalid_name_message name))
  else
    let dockerfile := Io.path_join path "Dockerfile" in
    content <- of_option (read_file w dockerfile) (OSError dockerfile) ;;
    depends_on <-
      for_each (Io.readlines content)
        (fun line depends_on =>
           match Re.mzfrom_match line with
           | Some (group1, _) =>
               d <- decode group1 ;; Ok (depends_on ++ [d])
           | None => Ok depends_on
           end)
        [] ;;
    Ok {| rd := rd; path := path; pre_images := pre_images; name := name;
          publish := publish; description := description;
          mainline := mainline; build_args := build_args;
          depends_on := depends_on |}.

(** [Image.docker_name]: an absent or empty tag adds nothing. *)
Definition docker_name (i : Image) (tag : option string) : string :=
  let n := image_registry (rd i) +:+ "/" +:+ image_prefix (rd i) +:+ name i in
  match tag with
  | None | Some EmptyString => n
  | Some t => n +:+ ":" +:+ t
  end.

(** ** [ResolvedImage] *)

(** A resolved image and, in the [dict] [dependencies], the resolved images it
    depends on, keyed by name.  The attribute [acquired] is the only one that
    changes after construction, and the objects are shared between a
    [DependencySet] and the [dependencies] of its members; it is kept in the
    store of the [DependencySet] (see [Store] below), one flag per object. *)
#[warnings="-register-all"]
Inductive ResolvedImage : Type :=
  mkResolvedImage {
    image : Image;
    dependencies : list (string * ResolvedImage)
  }.

(** The property [ResolvedImage.name] *)
Definition ResolvedImage_name (ri : ResolvedImage) : string := name (image ri).

(** The property [ResolvedImage.publish] *)
Definition ResolvedImage_publish (ri : ResolvedImage) : bool :=
  publish (image ri).

(** [ResolvedImage.__init__] (without the initial [acquired = False]) *)
Definition ResolvedImage_init (i : Image) (deps : list ResolvedImage)
  : ResolvedImage :=
  mkResolvedImage i
    (foldl (fun d dep => dict_set d (ResolvedImage_name dep) dep) [] deps).

(** [ResolvedImage.inputs] *)
Fixpoint inputs (w : World) (transitive : bool) (ri : ResolvedImage)
  {struct ri} : result (list string) :=
  let i := image ri in
  let paths := Py_set (expand_globs w (root (rd i)) [path i +:+ "/**"]) in
  match paths with
  | [] => Raise (AssertionError
                   (name i +:+ " mzbuild exists but its files are unknown to git"))
  | _ =>
      paths <- for_each (pre_images i)
                 (fun pre_image paths =>
                    more <- PreImage_inputs w pre_image ;;
                    Ok (Py_set (paths ++ more)))
                 paths ;;
      if transitive then
        for_each (dependencies ri)
          (fun dep paths =>
             more <- inputs w transitive dep.2 ;;
             Ok (Py_set (paths ++ more)))
          paths
      else Ok paths
  end.

(** [stat.S_IFMT], [stat.S_IFLNK] and [stat.S_IXUSR]:
    [0o170000], [0o120000] and [0o100]. *)
Definition S_IFMT : Z := 61440.
Definition S_IFLNK : Z := 40960.
Definition S_IXUSR : Z := 64.

(** [stat.S_ISLNK(mode)] *)
Definition S_ISLNK (mode : Z) : bool := Z.land mode S_IFMT =? S_IFLNK.

(** The simplified file mode of [fingerprint]: [0o120000], [0o100755] or
    [0o100644]. *)
Definition simplified_mode (raw_file_mode : Z) : Z :=
  if S_ISLNK raw_file_mode then 40960
  else if negb (Z.land raw_file_mode S_IXUSR =? 0) then 33261
  else 33188.

Definition zero_byte : string := String (ascii_of_N 0) EmptyString.

(** The body of the loop over input paths in [fingerprint]. *)
Definition hash_input (w : World) (root : string) (rel_path : string)
    (self_hash : Sha1.hasher) : result Sha1.hasher :=
  let abs_path := Io.path_join root rel_path in
  let file_hash := Sha1.new in
  raw_file_mode <- of_option (lstat_mode w abs_path) (OSError abs_path) ;;
  let file_mode := simplified_mode raw_file_mode in
  data <- of_option (read_file w abs_path) (OSError abs_path) ;;
  let file_hash := Sha1.update file_hash data in
  mode_bytes <- of_option (Py.int_to_bytes file_mode 2) OverflowError ;;
  let self_hash := Sha1.update self_hash mode_bytes in
  let self_hash := Sha1.update self_hash rel_path in
  let self_hash := Sha1.update self_hash (Sha1.digest file_hash) in
  let self_hash := Sha1.update self_hash zero_byte in
  Ok self_hash.

(** [ResolvedImage.fingerprint].  The decorator [@cache] stores the first
    result per object; within one [World] every call computes the same value,
    so the cache is not visible.  The fingerprints of the dependencies are
    requested in name order; they are paired with the names first so that the
    recursion is structural. *)
Fixpoint fingerprint (w : World) (ri : ResolvedImage) : result string :=
  let i := image ri in
  let self_hash := Sha1.new in
  own <- inputs w false ri ;;
  self_hash <- for_each (Py.sorted (Py_set (expand_globs w (root (rd i)) own)))
                 (hash_input w (root (rd i))) self_hash ;;
  let self_hash :=
    foldl (fun h pre_image =>
             Sha1.update (Sha1.update h (extra pre_image)) zero_byte)
          self_hash (pre_images i) in
  let self_hash := Sha1.update self_hash ("arch=" +:+ Arch_str (arch (rd i))) in
  let self_hash :=
    Sha1.update self_hash ("coverage=" +:+ Py.str_bool (coverage (rd i))) in
  let self_hash :=
    Sha1.update self_hash ("sanitizer=" +:+ Sanitizer_str w (sanitizer (rd i))) in
  let full_hash := Sha1.new in
  let full_hash := Sha1.update full_hash (Sha1.digest self_hash) in
  let deps :=
    map (fun dep => (ResolvedImage_name dep.2, fingerprint w dep.2))
        (dependencies ri) in
  full_hash <- for_each (Py.sorted_by fst deps)
                 (fun dep full_hash =>
                    fp <- dep.2 ;;
                    let full_hash := Sha1.update full_hash dep.1 in
                    let full_hash := Sha1.update full_hash fp in
                    Ok (Sha1.update full_hash zero_byte))
                 full_hash ;;
  Ok (Sha1.digest full_hash).

(** [str(fingerprint)]: [Fingerprint.__str__] *)
Definition Fingerprint_str (fp : string) : string := Base32.b32encode fp.

(** [ResolvedImage.spec] *)
Definition spec (w : World) (ri : ResolvedImage) : result string :=
  fp <- fingerprint w ri ;;
  Ok (docker_name (image ri) (Some ("mzbuild-" +:+ Fingerprint_str fp))).

(** The body of the loop over lines in [write_dockerfile]: the line as it is
    written to the temporary file. *)
Definition rewrite_line (w : World) (ri : ResolvedImage) (line : string)
  : result string :=
  match Re.mzfrom_match line with
  | Some (group1, _) =>
      image <- decode group1 ;;
      dep <- dict_item (dependencies ri) image ;;
      spec <- spec w dep ;;
      match Re.mzfrom_sub ("FROM " +:+ spec) line with
      | Re.Expanded line => Ok line
      | Re.BadTemplate => Raise (ReError ("FROM " +:+ spec))
      | Re.UnknownGroupName => Raise (IndexError ("FROM " +:+ spec))
      end
  | None => Ok line
  end.

(** [ResolvedImage.write_dockerfile]: the content of the temporary file. *)
Definition write_dockerfile (w : World) (ri : ResolvedImage) : result string :=
  let file := Io.path_join (path (image ri)) "Dockerfile" in
  content <- of_option (read_file w file) (OSError file) ;;
  let lines := Io.readlines content in
  for_each lines
    (fun line f => line <- rewrite_line w ri line ;; Ok (f +:+ line))
    "".

(** ** The store and the effects *)

(** What the module does to the outside, in order: a subprocess with what it
    is given on standard input, a line printed, the parent directories of a
    file created, a file copied. *)
Inductive Event : Type :=
| Run (cmd : list string) (stdin : option string)
| Say (msg : string)
| MkdirParents (file : string)
| CopyFile (src dst : string).

(** The mutable state of a run over one [DependencySet]:
    - [acquired]: the attribute [acquired] of the [ResolvedImage] objects of
      the set, by image name (the set holds one object per name);
    - [pre_acquired]: the [PreImage] objects on which an attribute [acquired]
      has been set, identified by the path of their image and their position
      in [pre_images];
    - [trace]: the events so far. *)
Record Store : Type := mkStore {
  acquired : gmap string bool;
  pre_acquired : list (string * nat);
  trace : list Event
}.

Definition empty_store : Store := mkStore ∅ [] [].

(** The commands run so far. *)
Definition history (s : Store) : list (list string) :=
  omap (fun e => match e with Run cmd _ => Some cmd | _ => None end) (trace s).

(** A computation that reads and changes the store and may raise.  The store
    changes made before an exception stay. *)
Definition M (A : Type) : Type := Store -> Store * result A.

Definition ret {A} (a : A) : M A := fun s => (s, Ok a).
Definition raise {A} (e : exn) : M A := fun s => (s, Raise e).
Definition lift {A} (r : result A) : M A := fun s => (s, r).

Definition mbind {A B} (c : M A) (k : A -> M B) : M B :=
  fun s =>
    match c s with
    | (s', Ok a) => k a s'
    | (s', Raise e) => (s', Raise e)
    end.

Notation "x <~ c ;; k" := (mbind c (fun x => k))
  (at level 100, c at next level, right associativity).

Definition emit (e : Event) : M unit :=
  fun s => (mkStore (acquired s) (pre_acquired s) (trace s ++ [e]), Ok tt).

(** [ri.acquired = b] *)
Definition set_acquired (n : string) (b : bool) : M unit :=
  fun s => (mkStore (<[n := b]> (acquired s)) (pre_acquired s) (trace s), Ok tt).

(** [ri.acquired]; the attribute exists from [__init__] on *)
Definition get_acquired (n : string) : M bool :=
  fun s => (s, Ok (default false (acquired s !! n))).

(** [self.acquired = True] on a [PreImage] object *)
Definition set_pre_acquired (key : string * nat) : M unit :=
  fun s => (mkStore (acquired s) (key :: pre_acquired s) (trace s), Ok tt).

(** A [for] loop in [M]. *)
Definition mfor {A} (xs : list A) (body : A -> M unit) : M unit :=
  (fix loop (xs : list A) : M unit :=
     match xs with
     | [] => ret tt
     | x :: xs' => _ <~ body x ;; loop xs'
     end) xs.

(** A list comprehension [[x for x in xs if keep(x)]] whose test has effects. *)
Definition mfilter {A} (xs : list A) (keep : A -> M bool) : M (list A) :=
  (fix loop (xs : list A) : M (list A) :=
     match xs with
     | [] => ret []
     | x :: xs' =>
         b <~ keep x ;;
         rest <~ loop xs' ;;
         ret (if b then x :: rest else rest)
     end) xs.

(** A [for] loop in [M] that updates local variables [acc]. *)
Definition mfold {A S} (xs : list A) (body : A -> S -> M S) : S -> M S :=
  (fix loop (xs : list A) (acc : S) : M S :=
     match xs with
     | [] => ret acc
     | x :: xs' => acc' <~ body x acc ;; loop xs' acc'
     end) xs.

(** ** [materialize.spawn] and [materialize.ui] *)

Module spawn.

(** Modelled from the spec: [materialize.spawn] is not among the sources.
    Section 7 of the spec: an external invocation that fails surfaces as an
    error carrying the command.  [runv] runs a command and raises when it
    exits with a nonzero status. *)
Definition runv (w : World) (cmd : list string) (stdin : option string)
  : M unit :=
  fun s =>
    let ok := exit_ok w (history s) cmd in
    (mkStore (acquired s) (pre_acquired s) (trace s ++ [Run cmd stdin]),
     if ok then Ok tt else Raise (CalledProcessError cmd)).

(** Modelled from the spec: [capture] is [runv] returning the standard
    output. *)
Definition capture (w : World) (cmd : list string) : M string :=
  fun s =>
    let ok := exit_ok w (history s) cmd in
    let out := stdout_of w (history s) cmd in
    (mkStore (acquired s) (pre_acquired s) (trace s ++ [Run cmd None]),
     if ok then Ok out else Raise (CalledProcessError cmd)).

(** Modelled from the spec: section 7, "a transient pull failure ... is
    retried under a caller-supplied duration budget when enabled; after the
    budget is exhausted it becomes a SubprocessError".  The budget is a
    duration; how many further attempts fit into it is [retries_within]. *)
Fixpoint attempt (n : nat) (fn : M unit) : M unit :=
  fun s =>
    match fn s with
    | (s', Raise (CalledProcessError cmd)) =>
        match n with
        | O => (s', Raise (CalledProcessError cmd))
        | S n' => attempt n' fn s'
        end
    | r => r
    end.

Definition run_with_retries (w : World) (fn : M unit) (max_duration : Z)
  : M unit :=
  attempt (retries_within w max_duration) fn.

End spawn.

Module ui.

(** Modelled from the spec: [materialize.ui] is not among the sources; its
    functions print. *)
Definition say (msg : string) : M unit := emit (Say msg).
Definition section (msg : string) : M unit := emit (Say msg).
Definition header (msg : string) : M unit := emit (Say msg).

End ui.

(** [docker_images] *)
Definition docker_images (w : World) : M (list string) :=
  out <~ spawn.capture w
           ["docker"; "images"; "--format"; "{{.Repository}}:{{.Tag}}"] ;;
  ret (Py_set (Io.split_lines (Io.strip out))).

(** [is_docker_image_pushed]: [subprocess.run] does not raise on a nonzero
    status; the status is the answer. *)
Definition is_docker_image_pushed (w : World) (name : string) : M bool :=
  fun s =>
    let cmd := ["docker"; "manifest"; "inspect"; name] in
    (mkStore (acquired s) (pre_acquired s) (trace s ++ [Run cmd None]),
     Ok (exit_ok w (history s) cmd)).

(** ** Running the [PreImage] actions *)

Module Str.

(** [s.split(c)] for a one-character separator *)
Fixpoint split (c : ascii) (s : string) : list string :=
  match s with
  | EmptyString => [EmptyString]
  | String a s' =>
      if Ascii.eqb a c then EmptyString :: split c s'
      else match split c s' with
           | [] => [String a EmptyString]
           | l :: ls => String a l :: ls
           end
  end.

(** [c in s] *)
Fixpoint contains (c : ascii) (s : string) : bool :=
  match s with
  | EmptyString => false
  | String a s' => Ascii.eqb a c || contains c s'
  end.

(** [s.startswith(p)] *)
Definition startswith (p s : string) : bool :=
  match Re.strip_prefix p s with Some _ => true | None => false end.

(** [Path(p).relative_to(base)]: the part of [p] below [base]; [None] stands
    for the [ValueError] raised when [p] is not below [base]. *)
Definition relative_to (base p : string) : option string :=
  match Re.strip_prefix base p with
  | Some EmptyString => Some EmptyString
  | Some (String c rest) => if Ascii.eqb c "/"%char then Some rest else None
  | None => None
  end.

(** The characters [shlex.quote] leaves alone: [[\w@%+=:,./-]] in ASCII. *)
Definition is_shell_safe (c : ascii) : bool :=
  let n := N_of_ascii c in
  (((65 <=? n) && (n <=? 90)) || ((97 <=? n) && (n <=? 122))
   || ((48 <=? n) && (n <=? 57)) || (n =? 95)
   || (n =? 64) || (n =? 37) || (n =? 43) || (n =? 61) || (n =? 58)
   || (n =? 44) || (n =? 46) || (n =? 47) || (n =? 45))%N.

(** A single quote becomes: quote, double quote, quote, double quote,
    quote. *)
Fixpoint escape_quotes (s : string) : string :=
  match s with
  | EmptyString => EmptyString
  | String c s' =>
      if Ascii.eqb c "'"%char then
        String "'" (String (ascii_of_N 34) (String "'"
          (String (ascii_of_N 34) (String "'" (escape_quotes s')))))
      else String c (escape_quotes s')
  end.

(** [shlex.quote(s)] *)
Definition shlex_quote (s : string) : string :=
  match s with
  | EmptyString => "''"
  | _ =>
      if forallb is_shell_safe (list_ascii_of_string s) then s
      else "'" +:+ escape_quotes s +:+ "'"
  end.

End Str.

(** [RepositoryDetails.cargo_target_dir] *)
Definition cargo_target_dir (rd : RepositoryDetails) : string :=
  Path.join (Path.join (root rd) "target-xcompile") (Arch_target (arch rd)).

(** [RepositoryDetails.rewrite_builder_path_for_host] *)
Definition rewrite_builder_path_for_host (rd : RepositoryDetails)
    (path : string) : string :=
  let builder_target_dir := Path.join "/mnt/build" (Arch_target (arch rd)) in
  match Path.relative_to builder_target_dir path with
  | Some rel => Path.join (cargo_target_dir rd) rel
  | None => path
  end.

(** The package name inside a [package_id] of Cargo. *)
Definition package_of_id (package_id : string) : string :=
  if Str.contains "@"%char package_id
  then List.last (Str.split "#"%char (hd "" (Str.split "@"%char package_id))) ""
  else List.last (Str.split "/"%char (hd "" (Str.split "#"%char package_id))) "".

(** [Copy.run].  The inputs are a [set], which the loop goes through in the
    order of its iteration. *)
Definition Copy_run (w : World) (p : PreImage) (source destination : string)
  : M unit :=
  srcs <~ lift (PreImage_inputs w p) ;;
  mfor (set_iteration w srcs)
    (fun src =>
       let dst := Path.join (Path.join (pre_path p) destination) src in
       _ <~ emit (MkdirParents dst) ;;
       emit (CopyFile (Path.join (Path.join (root (pre_rd p)) source) src)
                      dst)).

(** The local function [copy] of [CargoBuild.build] *)
Definition CargoBuild_copy (w : World) (p : PreImage) (strip : bool)
    (exe : string) : M unit :=
  let rd := pre_rd p in
  let cargo_profile := if release_mode rd then "release" else "debug" in
  let exe_path := Path.join (pre_path p) exe in
  _ <~ emit (MkdirParents exe_path) ;;
  _ <~ emit (CopyFile
               (Path.join (Path.join (cargo_target_dir rd) cargo_profile) exe)
               exe_path) ;;
  if strip then
    spawn.runv w (xcompile_tool w (arch rd) "strip" ++ ["--strip-debug"; exe_path])
               None
  else
    spawn.runv w
      (xcompile_tool w (arch rd) "objcopy"
       ++ ["-R"; ".debug_pubnames"; "-R"; ".debug_pubtypes"; exe_path])
      None.

(** The loop of [CargoBuild.build] over the lines of Cargo's output. *)
Definition CargoBuild_extract_line (w : World) (p : PreImage)
    (extract : list (string * list (string * string))) (line : string)
  : M unit :=
  let rd := pre_rd p in
  if String.eqb (Io.strip line) "" || negb (Str.startswith "{" line) then ret tt
  else
    message <~ lift (of_option (json_loads w line) (ValueError line)) ;;
    reason <~ lift (of_option (msg_reason message) (KeyError "reason")) ;;
    if negb (String.eqb reason "build-script-executed") then ret tt
    else
      raw <~ lift (of_option (msg_out_dir message) (KeyError "out_dir")) ;;
      let out_dir := rewrite_builder_path_for_host rd (Path.of_string raw) in
      if negb (Path.is_relative_to (cargo_target_dir rd) out_dir) then ret tt
      else
        package_id <~ lift (of_option (msg_package_id message)
                                      (KeyError "package_id")) ;;
        let package := package_of_id package_id in
        mfor (default [] (dict_get extract package))
          (fun sd =>
             spawn.runv w
               ["cp"; "-R"; Path.join out_dir sd.1;
                Path.join (pre_path p) sd.2]
               None).

(** [CargoBuild.build].  Its last statement sets an attribute [acquired] on
    the action itself. *)
Definition CargoBuild_build (w : World) (p : PreImage) (index : nat)
    (bins examples : list string) (strip : bool)
    (extract : list (string * list (string * string)))
    (cargo_build_json_output : string) : M unit :=
  _ <~ mfor bins (fun bin => CargoBuild_copy w p strip bin) ;;
  _ <~ mfor examples
         (fun example =>
            CargoBuild_copy w p strip (Path.join "examples" example)) ;;
  _ <~ match extract with
       | [] => ret tt
       | _ => mfor (Str.split Io.newline cargo_build_json_output)
                (CargoBuild_extract_line w p extract)
       end ;;
  set_pre_acquired (pre_path p, index).

(** The name of the class of an action, the key of the preparation [dict]. *)
Definition class_of (p : PreImage) : string :=
  match pre_kind p with
  | Copy _ _ _ => "Copy"
  | CargoBuild _ _ _ _ => "CargoBuild"
  end.

(** [PreImage.run], dispatched on the class; [index] is the position of the
    action in [pre_images]. *)
Definition PreImage_run (w : World) (p : PreImage) (index : nat)
    (prep : option string) : M unit :=
  match pre_kind p with
  | Copy source destination _ => Copy_run w p source destination
  | CargoBuild bins examples strip extract =>
      CargoBuild_build w p index bins examples strip extract (default "" prep)
  end.

(** [CargoBuild.prepare_batch] *)
Definition CargoBuild_prepare_batch (w : World) (cargo_builds : list PreImage)
  : M (option string) :=
  match cargo_builds with
  | [] => ret (Some "")
  | first :: _ =>
      let rd := pre_rd first in
      let targets (pick : PreImageKind -> list string) :=
        Py_set (concat (map (fun b => pick (pre_kind b)) cargo_builds)) in
      let bins :=
        targets (fun k => match k with CargoBuild b _ _ _ => b | _ => [] end) in
      let examples :=
        targets (fun k => match k with CargoBuild _ e _ _ => e | _ => [] end) in
      _ <~ ui.section
             ("Common cargo build for: "
              +:+ Py.join ", " (set_iteration w (Py_set (bins ++ examples)))) ;;
      cargo_build <~ lift (generate_cargo_build_command w rd
                             (set_iteration w bins) (set_iteration w examples)) ;;
      _ <~ spawn.runv w cargo_build None ;;
      json_output <~ spawn.capture w (cargo_build ++ ["--message-format=json"]) ;;
      ret (Some json_output)
  end.

(** [cls.prepare_batch(instances)]; the base class returns [None]. *)
Definition prepare_batch (w : World) (cls : string) (instances : list PreImage)
  : M (option string) :=
  if String.eqb cls "CargoBuild" then CargoBuild_prepare_batch w instances
  else ret None.

(** ** [ResolvedImage]: building, pulling, checking *)

(** [ResolvedImage.build] *)
Definition build (w : World) (ri : ResolvedImage)
    (prep : list (string * option string)) : M unit :=
  let i := image ri in
  spec0 <~ lift (spec w ri) ;;
  _ <~ ui.section ("Building " +:+ spec0) ;;
  _ <~ spawn.runv w ["git"; "clean"; "-ffdX"; path i] None ;;
  _ <~ mfor (imap (fun index pre_image => (index, pre_image)) (pre_images i))
         (fun ip =>
            prep_value <~ lift (dict_item prep (class_of ip.2)) ;;
            PreImage_run w ip.2 ip.1 prep_value) ;;
  let build_args :=
    dict_set (dict_set (build_args i) "ARCH_GCC" (Arch_str (arch (rd i))))
             "ARCH_GO" (Arch_go_str (arch (rd i))) in
  f <~ lift (write_dockerfile w ri) ;;
  spec1 <~ lift (spec w ri) ;;
  let cmd :=
    ["docker"; "build"; "-f"; "-"]
    ++ map (fun kv => "--build-arg=" +:+ kv.1 +:+ "=" +:+ kv.2) build_args
    ++ ["-t"; spec1;
        "--platform=linux/" +:+ Arch_go_str (arch (rd i));
        path i] in
  spawn.runv w cmd (Some f).

(** [ResolvedImage.try_pull] *)
Definition try_pull (w : World) (ri : ResolvedImage) (max_duration : Z)
  : M bool :=
  spec0 <~ lift (spec w ri) ;;
  _ <~ ui.header ("Acquiring " +:+ spec0) ;;
  is_acquired <~ get_acquired (ResolvedImage_name ri) ;;
  _ <~ (if negb is_acquired then
          spec1 <~ lift (spec w ri) ;;
          _ <~ spawn.run_with_retries w
                 (spawn.runv w ["docker"; "pull"; spec1] None) max_duration ;;
          set_acquired (ResolvedImage_name ri) true
        else ret tt) ;;
  get_acquired (ResolvedImage_name ri).

(** [ResolvedImage.is_published_if_necessary] *)
Definition is_published_if_necessary (w : World) (ri : ResolvedImage)
  : M bool :=
  if ResolvedImage_publish ri then
    spec0 <~ lift (spec w ri) ;;
    pushed <~ is_docker_image_pushed w spec0 ;;
    if pushed then
      spec1 <~ lift (spec w ri) ;;
      _ <~ ui.say (spec1 +:+ " already exists") ;;
      ret true
    else ret false
  else ret false.

(** ** [DependencySet] *)

(** The [dict] [_dependencies], in insertion order. *)
Definition DependencySet : Type := list (string * ResolvedImage).

(** [DependencySet.__iter__]: the values in insertion order *)
Definition DependencySet_iter (ds : DependencySet) : list ResolvedImage :=
  map snd ds.

(** The body of the loop of [DependencySet.__init__] *)
Definition DependencySet_add (w : World) (known_images : list string)
    (d : Image) (_dependencies : DependencySet) : M DependencySet :=
  deps <~ lift (for_each (depends_on d)
                  (fun d0 acc =>
                     r <- dict_item _dependencies d0 ;; Ok (acc ++ [r]))
                  []) ;;
  let image := ResolvedImage_init d deps in
  _ <~ set_acquired (name d) false ;;
  spec0 <~ lift (spec w image) ;;
  _ <~ set_acquired (name d) (bool_decide (spec0 ∈ known_images)) ;;
  ret (dict_set _dependencies (name d) image).

(** [DependencySet.__init__] *)
Definition DependencySet_init (w : World) (dependencies : list Image)
  : M DependencySet :=
  known_images <~ docker_images w ;;
  mfold dependencies (DependencySet_add w known_images) [].

(** [DependencySet._prepare_batch]: the actions of the images grouped by
    class, in order of first appearance, and each class prepared once. *)
Definition _prepare_batch (w : World) (images : list ResolvedImage)
  : M (list (string * option string)) :=
  let pre_images :=
    foldl (fun groups pre_image =>
             let cls := class_of pre_image in
             dict_set groups cls (default [] (dict_get groups cls) ++ [pre_image]))
          []
          (concat (map (fun ri => pre_images (image ri)) images)) in
  mfold pre_images
    (fun group pre_image_prep =>
       v <~ prepare_batch w group.1 group.2 ;;
       ret (dict_set pre_image_prep group.1 v))
    [].

(** The second half of [acquire]: prepare and build what could not be
    pulled. *)
Definition build_all (w : World) (deps_to_build : list ResolvedImage) : M unit :=
  prep <~ _prepare_batch w deps_to_build ;;
  mfor deps_to_build (fun dep => build w dep prep).

(** The duration [acquire] works with: the default applies when the argument
    is absent or zero. *)
Definition acquire_duration (w : World) (max_duration : option Z) : Z :=
  match max_duration with
  | Some d => if d =? 0 then (if env_is_truthy w "CI" then 60 else 0) else d
  | None => if env_is_truthy w "CI" then 60 else 0
  end.

(** The first half of [acquire]: the comprehension
    [[dep for dep in self if not dep.try_pull(max_duration)]]. *)
Definition pull_all (w : World) (ds : DependencySet) (max_duration : Z)
  : M (list ResolvedImage) :=
  mfilter (DependencySet_iter ds)
    (fun dep => found <~ try_pull w dep max_duration ;; ret (negb found)).

(** [DependencySet.acquire]; [max_duration] is [None] when not given. *)
Definition acquire (w : World) (ds : DependencySet) (max_duration : option Z)
  : M unit :=
  let max_duration := acquire_duration w max_duration in
  deps_to_build <~ pull_all w ds max_duration ;;
  build_all w deps_to_build.

(** The pushes at the end of [ensure]: all processes are started, then
    awaited in order; the first nonzero status raises. *)
Definition push_all (w : World) (images_to_push : list string) : M unit :=
  let cmd image :=
    ["sh"; "-c"; "docker push " +:+ Str.shlex_quote image +:+ " | cat"] in
  fun s =>
    let started :=
      mkStore (acquired s) (pre_acquired s)
              (trace s ++ map (fun image => Run (cmd image) None) images_to_push) in
    match filter (fun image => exit_ok w (history s) (cmd image) = false)
                 images_to_push with
    | [] => (started, Ok tt)
    | image :: _ => (started, Raise (CalledProcessError (cmd image)))
    end.

(** [DependencySet.ensure]; [post_build], when given, is called with each
    image built. *)
Definition ensure (w : World) (ds : DependencySet)
    (post_build : option (ResolvedImage -> M unit)) : M unit :=
  deps_to_build <~ mfilter (DependencySet_iter ds)
                     (fun dep =>
                        ok <~ is_published_if_necessary w dep ;;
                        ret (negb ok)) ;;
  prep <~ _prepare_batch w deps_to_build ;;
  images_to_push <~
    mfold deps_to_build
      (fun dep images_to_push =>
         _ <~ build w dep prep ;;
         _ <~ match post_build with
              | Some f => f dep
              | None => ret tt
              end ;;
         if ResolvedImage_publish dep then
           spec0 <~ lift (spec w dep) ;;
           ret (images_to_push ++ [spec0])
         else ret images_to_push)
      [] ;;
  _ <~ ui.section "Pushing images" ;;
  push_all w images_to_push.

(** [DependencySet.check]: [all] stops at the first image that is not
    published. *)
Definition check (w : World) (ds : DependencySet) : M bool :=
  (fix loop (deps : list ResolvedImage) : M bool :=
     match deps with
     | [] => ret true
     | dep :: deps' =>
         ok <~ is_published_if_necessary w dep ;;
         if ok then loop deps' else ret false
     end) (DependencySet_iter ds).

(** ** [Repository] *)

Record Repository : Type := {
  Repository_rd : RepositoryDetails;
  images : list (string * Image);
  compositions : list (string * string)
}.

(** The [ValueError] of [resolve_dependencies] for a path of image names. *)
Definition circular_dependency (path : list string) : exn :=
  ValueError ("circular dependency in mzbuild: " +:+ Py.join " -> " path).

(** The two local variables of [resolve_dependencies] that [visit] updates:
    the [OrderedDict] [resolved] and the [set] [visiting]. *)
Record VisitState : Type := mkVisitState {
  resolved : list (string * Image);
  visiting : gset string
}.

(** The loop of [visit] over the sorted dependencies of an image; [rec] is
    the recursive call of [visit]. *)
Definition visit_children (images : list (string * Image))
    (rec : Image -> VisitState -> option (result VisitState))
  : list string -> VisitState -> option (result VisitState) :=
  fix loop (ds : list string) (st : VisitState) : option (result VisitState) :=
    match ds with
    | [] => Some (Ok st)
    | d :: ds' =>
        match dict_get images d with
        | None => Some (Raise (KeyError d))
        | Some child =>
            match rec child st with
            | Some (Ok st') => loop ds' st'
            | r => r
            end
        end
    end.

(** The local function [visit] of [resolve_dependencies].  Python bounds the
    recursion by its stack only; here [fuel] bounds the depth, and [None]
    means that it ran out.  [resolve_dependencies] gives it more than it can
    use (see [visit_ok]). *)
Fixpoint visit (fuel : nat) (images : list (string * Image)) (image : Image)
    (path : list string) (st : VisitState) : option (result VisitState) :=
  match fuel with
  | O => None
  | S fuel' =>
      if dict_mem (resolved st) (name image) then Some (Ok st)
      else if bool_decide (name image ∈ visiting st) then
        Some (Raise (circular_dependency (path ++ [name image])))
      else
        let st := mkVisitState (resolved st) ({[name image]} ∪ visiting st) in
        match visit_children images
                (fun child => visit fuel' images child (path ++ [name image]))
                (Py.sorted (depends_on image)) st with
        | Some (Ok st') =>
            Some (Ok (mkVisitState (dict_set (resolved st') (name image) image)
                                   (visiting st')))
        | r => r
        end
  end.

(** The loop of [resolve_dependencies] over the sorted targets. *)
Fixpoint visit_targets (fuel : nat) (images : list (string * Image))
    (targets : list Image) (st : VisitState) : option (result VisitState) :=
  match targets with
  | [] => Some (Ok st)
  | target_image :: targets' =>
      match visit fuel images target_image [] st with
      | Some (Ok st') => visit_targets fuel images targets' st'
      | r => r
      end
  end.

(** The images in [resolved.values()] when [resolve_dependencies] reaches its
    last line. *)
Definition resolve_order (images : list (string * Image))
    (targets : list Image) : option (result (list Image)) :=
  match visit_targets (S (S (length images))) images
                      (Py.sorted_by name targets) (mkVisitState [] ∅) with
  | Some (Ok st) => Some (Ok (map snd (resolved st)))
  | Some (Raise e) => Some (Raise e)
  | None => None
  end.

(** [Repository.resolve_dependencies] *)
Definition resolve_dependencies (w : World) (repo : Repository)
    (targets : list Image) : option (M DependencySet) :=
  match resolve_order (images repo) targets with
  | Some (Ok order) => Some (DependencySet_init w order)
  | Some (Raise e) => Some (raise e)
  | None => None
  end.

(** ** What the spec says, for comparison *)

Module Spec.

(** Section 4.5, "Extra": the axis tags that are present, sorted and joined
    by commas. *)
Definition extra_tags (rd : RepositoryDetails) : string :=
  Py.join ","
    (Py.sorted
       ((if release_mode rd then ["release"] else [])
        ++ (if coverage rd then ["coverage"] else [])
        ++ (if decide (sanitizer rd <> none)
            then [Sanitizer_value (sanitizer rd)] else []))).

(** Section 4.5: the ceiling of [2 * n / 3]. *)
Definition ceil_two_thirds (n : Z) : Z := (2 * n + 2) / 3.

(** Sections 3 and 6: a name matches [^[A-Za-z0-9-]+$], that is, it is not
    empty and all its characters are in the class. *)
Definition name_ok (s : string) : bool :=
  negb (String.eqb s "") && forallb Re.is_name_char (list_ascii_of_string s).

End Spec.

(** ** The dependency graph of a repository *)

(** An edge of the graph: the image registered as [n] has an [MZFROM d]. *)
Definition depends (images : list (string * Image)) (n d : string) : Prop :=
  exists img, dict_get images n = Some img /\ d ∈ depends_on img.

(** The graph is acyclic: no image reaches itself along one or more edges. *)
Definition acyclic (images : list (string * Image)) : Prop :=
  forall n, ~ tc (depends images) n n.

(** What [Repository.__init__] establishes: an image is registered under its
    own name, and every dependency names a registered image. *)
Definition keys_named (images : list (string * Image)) : Prop :=
  forall k img, dict_get images k = Some img -> name img = k.

Definition closed (images : list (string * Image)) : Prop :=
  forall n d, depends images n d -> is_Some (dict_get images d).

(** A topological order: every image stands strictly after each image it
    depends on. *)
Definition topological (order : list Image) : Prop :=
  forall (i : nat) img d,
    order !! i = Some img -> d ∈ depends_on img ->
    exists (j : nat) dep, (j < i)%nat /\ order !! j = Some dep /\ name dep = d.

(** The images being visited: entered, and not resolved yet. *)
Definition in_progress (st : VisitState) (n : string) : Prop :=
  n ∈ visiting st /\ n ∉ (resolved st).*1.

(** The number of registered names not entered yet; it bounds the depth that
    [visit] can still reach. *)
Definition unvisited (images : list (string * Image)) (st : VisitState) : nat :=
  size ((list_to_set images.*1 : gset string) ∖ visiting st).

(** The invariant of [resolved]: entries are keyed by the image name, no name
    occurs twice, and the dependencies of an entry stand before it. *)
Record good (st : VisitState) : Prop := {
  good_named : forall k img, (k, img) ∈ resolved st -> name img = k;
  good_nodup : NoDup (resolved st).*1;
  good_topo : forall l1 k img l2,
    resolved st = l1 ++ (k, img) :: l2 ->
    forall d, d ∈ depends_on img -> d ∈ l1.*1
}.

(** What a successful [visit] of the image named [n] has done. *)
Record visited (st st' : VisitState) (n : string) : Prop := {
  visited_good : good st';
  visited_prefix : exists more, resolved st' = resolved st ++ more;
  visited_visiting : visiting st ⊆ visiting st';
  visited_resolved : n ∈ (resolved st').*1;
  visited_in_progress : forall m, in_progress st' m <-> in_progress st m
}.

(** Checks that decide the three conditions on a concrete repository; a rank
    that decreases along every edge witnesses acyclicity. *)
Definition keys_named_b (images : list (string * Image)) : bool :=
  forallb (fun e => String.eqb (name e.2) e.1) images.

Definition closed_b (images : list (string * Image)) : bool :=
  forallb (fun e => forallb (dict_mem images) (depends_on e.2)) images.

Definition ranked_b (rank : string -> nat) (images : list (string * Image))
  : bool :=
  forallb (fun e => forallb (fun d => (rank d <? rank e.1)%nat) (depends_on e.2))
          images.

(** ** Frame of the attribute [acquired] *)

(** A computation that leaves every [ResolvedImage.acquired] as it found it,
    whether it returns or raises. *)
Definition keeps_acquired {A} (c : M A) : Prop :=
  forall s, acquired (c s).1 = acquired s.

(** ** Lines *)

(** A line as [readlines] yields it: not empty, with a newline at most as its
    last byte. *)
Fixpoint line_ok (s : string) : bool :=
  match s with
  | EmptyString => false
  | String c EmptyString => true
  | String c s' => negb (Ascii.eqb c Io.newline) && line_ok s'
  end.

(** The string ends with a newline. *)
Fixpoint ends_nl (s : string) : bool :=
  match s with
  | EmptyString => false
  | String c EmptyString => Ascii.eqb c Io.newline
  | String _ s' => ends_nl s'
  end.

(** The lines of a file: all but the last end with a newline. *)
Inductive lines_ok : list string -> Prop :=
| lines_ok_nil : lines_ok []
| lines_ok_last l : line_ok l = true -> lines_ok [l]
| lines_ok_cons l ls :
    line_ok l = true -> ends_nl l = true -> lines_ok ls -> lines_ok (l :: ls).

(** A string that can stand in a replacement template and inside one line:
    it has neither a backslash nor a newline.  Registry names, prefixes and
    tags of Docker are of this kind. *)
Definition plain (s : string) : bool :=
  negb (Re.has_backslash s) && negb (Str.contains Io.newline s).

(** The same for one byte. *)
Definition plain_char (c : ascii) : bool :=
  negb (Ascii.eqb c "\"%char) && negb (Ascii.eqb c Io.newline).

(** A dependency that [write_dockerfile] can name: its fingerprint can be
    computed, its name has passed the check of [Image.__init__], and the
    registry and the prefix of its repository are plain. *)
Definition nameable (w : World) (dep : ResolvedImage) : Prop :=
  is_ok (fingerprint w dep) = true
  /\ Re.search_invalid (name (image dep)) = false
  /\ plain (image_registry (rd (image dep))) = true
  /\ plain (image_prefix (rd (image dep))) = true.

(** A line that matches [MZFROM] at its start, in the words of the pattern
    [^MZFROM\s*(\S+)]: the word [MZFROM], whitespace or none, then a name,
    which is not empty, has no whitespace and is as long as it can be, so
    that the [rest] of the line is empty or begins with whitespace. *)
Definition mzfrom_line (line name rest : string) : Prop :=
  exists spaces,
    line = "MZFROM" +:+ spaces +:+ name +:+ rest
    /\ Re.all_chars Re.is_space spaces = true
    /\ name <> ""
    /\ Re.all_chars (fun c => negb (Re.is_space c)) name = true
    /\ match rest with
       | EmptyString => True
       | String c _ => Re.is_space c = true
       end.

(** What the spec says [write_dockerfile] makes of one line: a line that
    matches [MZFROM] becomes [FROM], the spec of the dependency named, and
    what followed the match; any other line stays. *)
Definition rewritten (w : World) (ri : ResolvedImage) (line line' : string)
  : Prop :=
  (exists n rest dep sp,
      mzfrom_line line n rest
      /\ dict_get (dependencies ri) n = Some dep
      /\ spec w dep = Ok sp
      /\ line' = "FROM " +:+ sp +:+ rest)
  \/ ((forall n rest, ~ mzfrom_line line n rest) /\ line' = line).

(** ** The canonical fingerprint of the spec (section 4.6) *)

Module Canonical.

(** Step 2.  "Symlink" and "owner-executable bit" read off a raw file mode:
    the file type is the four bits from bit 12 on, and [0o12] is a symbolic
    link; the owner-executable bit is bit 6. *)
Definition is_symlink (mode : Z) : bool := (mode / 4096) mod 16 =? 10.
Definition owner_executable (mode : Z) : bool := Z.testbit mode 6.

(** "[0o120000] if symlink, else [0o100755] if owner-executable bit set, else
    [0o100644]" *)
Definition simplified_file_mode (mode : Z) : Z :=
  if is_symlink mode then 40960
  else if owner_executable mode then 33261
  else 33188.

(** "mode as 2 big-endian bytes" *)
Definition two_bytes (n : Z) : string :=
  String (ascii_of_N (Z.to_N (n / 256)))
         (String (ascii_of_N (Z.to_N (n mod 256))) EmptyString).

(** The bytes fed one after the other for the elements of a list. *)
Definition feed {A} (bytes_of : A -> string) (l : list A) : string :=
  foldr (fun x rest => bytes_of x +:+ rest) "" l.

(** "Feed into H: mode as 2 big-endian bytes, then relative path bytes, then
    content hash digest, then a single zero byte." *)
Definition file_record (f : string * Z * string) : string :=
  let '(rel_path, mode, content) := f in
  two_bytes (simplified_file_mode mode) +:+ rel_path +:+ Sha1.sha1 content
  +:+ zero_byte.

(** Steps 2 to 4: everything fed into H. *)
Definition self_stream (files : list (string * Z * string))
    (extras : list string) (a b c : string) : string :=
  feed file_record files
  +:+ feed (fun e => e +:+ zero_byte) extras
  +:+ ("arch=" +:+ a) +:+ ("coverage=" +:+ b) +:+ ("sanitizer=" +:+ c).

(** Step 5: everything fed into F. *)
Definition full_stream (self_digest : string) (deps : list (string * string))
  : string :=
  self_digest +:+ feed (fun d => d.1 +:+ d.2 +:+ zero_byte) deps.

(** Step 6 *)
Definition digest (files : list (string * Z * string)) (extras : list string)
    (a b c : string) (deps : list (string * string)) : string :=
  Sha1.sha1 (full_stream (Sha1.sha1 (self_stream files extras a b c)) deps).

End Canonical.

(** The input paths of an image, as a set. *)
Definition input_paths (w : World) (ri : ResolvedImage) : list string :=
  match inputs w false ri with
  | Ok own => Py_set (expand_globs w (root (rd (image ri))) own)
  | Raise _ => []
  end.

(** The raw mode and the content of an input, where the file system gives
    them. *)
Definition input_file (w : World) (ri : ResolvedImage) (rel_path : string)
  : string * Z * string :=
  let abs_path := Io.path_join (root (rd (image ri))) rel_path in
  (rel_path, default 0 (lstat_mode w abs_path),
   default "" (read_file w abs_path)).

(** The canonical algorithm on a resolved image: inputs sorted
    lexicographically, pre-image actions in declared order, the three axes,
    dependencies sorted by name. *)
Fixpoint canonical_fingerprint (w : World) (ri : ResolvedImage) : string :=
  let i := image ri in
  Canonical.digest
    (map (input_file w ri) (Py.sorted (input_paths w ri)))
    (map extra (pre_images i))
    (Arch_str (arch (rd i)))
    (Py.str_bool (coverage (rd i)))
    (Sanitizer_str w (sanitizer (rd i)))
    (Py.sorted_by fst
       (map (fun d => (ResolvedImage_name d.2, canonical_fingerprint w d.2))
            (dependencies ri))).

(** The inputs of the image and of everything it depends on can be listed
    and read. *)
Fixpoint readable (w : World) (ri : ResolvedImage) : Prop :=
  is_ok (inputs w false ri) = true
  /\ (forall p, p ∈ input_paths w ri ->
        is_Some (lstat_mode w (Io.path_join (root (rd (image ri))) p))
        /\ is_Some (read_file w (Io.path_join (root (rd (image ri))) p)))
  /\ foldr (fun d rest => readable w d.2 /\ rest) True (dependencies ri).

(** The order of [sorted(xs, key=key)]: keys compared as strings. *)
Definition key_le {A} (key : A -> string) (a b : A) : Prop :=
  String.leb (key a) (key b) = true.

(** ** [chmod_x] *)



(** ** [ResolvedImage.list_dependencies] and [DependencySet.__getitem__] *)

(** [ResolvedImage.list_dependencies]: the set [out], in order of first
    insertion. *)
Fixpoint list_dependencies (transitive : bool) (ri : ResolvedImage)
  : list string :=
  Py_set
    (concat
       (map (fun dep =>
               ResolvedImage_name dep.2
               :: (if transitive then list_dependencies transitive dep.2
                   else []))
            (dependencies ri))).

(** [DependencySet.__getitem__] *)
Definition DependencySet_getitem (ds : DependencySet) (key : string)
  : result ResolvedImage :=
  dict_item ds key.

(** ** [Repository.__init__] *)

(** What [os.walk] finds in a directory: the names of the files, and the
    subdirectories by name.  A subdirectory that [os.walk] lists but does not
    enter (a symbolic link to a directory, or a directory that cannot be
    listed) has [None]. *)
#[warnings="-register-all"]
Inductive Tree : Type :=
  mkTree { tree_files : list string;
           tree_dirs : list (string * option Tree) }.

(** [l.remove(x)]: the first occurrence goes; [None] stands for the
    [ValueError] raised when there is none. *)
Fixpoint list_remove (x : string) (l : list string) : option (list string) :=
  match l with
  | [] => None
  | y :: l' => if String.eqb y x then Some l' else cons y <$> list_remove x l'
  end.

(** The directories [Repository.__init__] does not descend into. *)
Definition pruned_dirs : list string :=
  [".git"; ".mypy_cache"; "target"; "target-ra"; "target-xcompile"; "mzdata";
   "node_modules"; "venv"].

(** The first statements of the loop body: what is left of [dirs], in the
    order in which the walk goes on. *)
Definition prune (w : World) (rd : RepositoryDetails) (path : string)
    (dirs : list string) : result (list string) :=
  dirs <- (if String.eqb path (Io.path_join (root rd) "misc")
           then of_option (list_remove "python" dirs)
                          (ValueError "list.remove(x): x not in list")
           else Ok dirs) ;;
  Ok (set_iteration w
        (filter (fun d => d ∉ pruned_dirs) (Py_set dirs))).

(** [Path(path).name]: the last component. *)
Definition Path_name (path : string) : string :=
  List.last (Str.split "/"%char path) "".

(** The two dictionaries [Repository.__init__] fills. *)
Record Registry : Type := mkRegistry {
  reg_images : list (string * Image);
  reg_compositions : list (string * string)
}.

(** The rest of the loop body: the directory is registered as an image when
    it has an [mzbuild.yml], and as a composition when it has an
    [mzcompose.py]. *)
Definition register (w : World) (rd : RepositoryDetails) (path : string)
    (files : list string) (reg : Registry) : result Registry :=
  reg <- (if bool_decide ("mzbuild.yml" ∈ files) then
            image <- Image_init w rd path ;;
            if String.eqb (name image) ""
            then Raise (ValueError ("config at " +:+ path +:+ " missing name"))
            else if dict_mem (reg_images reg) (name image)
            then Raise (ValueError ("image " +:+ name image +:+ " exists twice"))
            else Ok (mkRegistry (dict_set (reg_images reg) (name image) image)
                                (reg_compositions reg))
          else Ok reg) ;;
  if bool_decide ("mzcompose.py" ∈ files) then
    let name := Path_name path in
    if dict_mem (reg_compositions reg) name
    then Raise (ValueError ("composition " +:+ name +:+ " exists twice"))
    else Ok (mkRegistry (reg_images reg)
                        (dict_set (reg_compositions reg) name path))
  else Ok reg.

(** The loop over [os.walk(self.root, topdown=True)]: the directory itself,
    then the subdirectories left in [dirs], each with what is below it.  The
    path of a subdirectory is [os.path.join(path, name)]; a name left in
    [dirs] that is not a directory to enter yields nothing. *)
Fixpoint walk (w : World) (rd : RepositoryDetails) (t : Tree) (path : string)
    (reg : Registry) {struct t} : result Registry :=
  dirs <- prune w rd path (map fst (tree_dirs t)) ;;
  reg <- register w rd path (tree_files t) reg ;;
  let below :=
    map (fun d =>
           (d.1, match d.2 with
                 | Some sub => walk w rd sub (Io.path_join path d.1)
                 | None => Ok
                 end))
        (tree_dirs t) in
  for_each dirs
    (fun d reg =>
       match dict_get below d with
       | Some go => go reg
       | None => Ok reg
       end)
    reg.

(** The last loop of [Repository.__init__]: every dependency names an
    image. *)
Definition validate_dependencies (images : list (string * Image))
  : result unit :=
  for_each images
    (fun e _ =>
       for_each (depends_on e.2)
         (fun d _ =>
            if dict_mem images d then Ok tt
            else Raise (ValueError ("image " +:+ name e.2
                                    +:+ " depends on non-existent image " +:+ d)))
         tt)
    tt.

(** [Repository.__init__], given the [RepositoryDetails] it builds from its
    arguments and the directory tree below the root; [None] when the root
    cannot be listed, so that the walk yields nothing. *)
Definition Repository_init (w : World) (rd : RepositoryDetails)
    (t : option Tree) : result Repository :=
  reg <- match t with
         | Some t => walk w rd t (root rd) (mkRegistry [] [])
         | None => Ok (mkRegistry [] [])
         end ;;
  _ <- validate_dependencies (reg_images reg) ;;
  Ok {| Repository_rd := rd; images := reg_images reg;
        compositions := reg_compositions reg |}.

(** [Repository.__iter__] *)
Definition Repository_iter (repo : Repository) : list Image :=
  map snd (images repo).

(** ** [publish_multiarch_images] *)

(** [zip] of the unpacked argument: the tuples of the elements at equal
    positions, as many as the shortest list has; none when there is no list
    at all. *)
Fixpoint zip_all {A} (xss : list (list A)) : list (list A) :=
  match xss with
  | [] => []
  | [xs] => map (fun x => [x]) xs
  | xs :: rest => zip_with cons xs (zip_all rest)
  end.

(** [publish_multiarch_images]; a dependency set is given by the images it
    iterates over.  For an empty tuple the set of names is empty, so the
    assertion fails before [images[0]] is asked for. *)
Definition publish_multiarch_images (w : World) (tag : string)
    (dependency_sets : list (list ResolvedImage)) : M unit :=
  let failed : M unit :=
    raise (AssertionError "dependency sets did not contain identical images") in
  _ <~ mfor (zip_all dependency_sets)
         (fun images =>
            let names := Py_set (map ResolvedImage_name images) in
            match images with
            | [] => failed
            | first :: _ =>
                if negb (length names =? 1)%nat then failed
                else
                  let name := docker_name (image first) (Some tag) in
                  specs <~ lift (for_each images
                                   (fun image acc =>
                                      sp <- spec w image ;; Ok (acc ++ [sp]))
                                   []) ;;
                  _ <~ spawn.runv w
                         (["docker"; "manifest"; "create"; name] ++ specs)
                         None ;;
                  spawn.runv w ["docker"; "manifest"; "push"; name] None
            end) ;;
  _ <~ emit (Say ("--- Nofifying for tag " +:+ tag)) ;;
  spawn.runv w
    ["buildkite-agent"; "annotate"; "--style=info";
     "--context=build-tags-" +:+ tag]
    (Some ("Pushed images with Docker tag `" +:+ tag +:+ "`")).

(** ** Paths in the dependency graph *)

(** Each name of the list depends on the next one. *)
Fixpoint chain (images : list (string * Image)) (p : list string) : Prop :=
  match p with
  | n :: p' =>
      match p' with
      | d :: _ => depends images n d /\ chain images p'
      | [] => True
      end
  | [] => True
  end.

(** A path that closes a cycle: a chain whose last name occurs before. *)
Definition cycle_path (images : list (string * Image)) (p : list string)
  : Prop :=
  chain images p /\ exists front n, p = front ++ [n] /\ n ∈ front.

(** Every entry of [resolved] is the image registered under its key. *)
Definition registered (images : list (string * Image)) (st : VisitState)
  : Prop :=
  forall k img, (k, img) ∈ resolved st -> dict_get images k = Some img.

(** ** Characters *)

(** The symbols of base32 without padding: [A-Z] and [2-7]. *)
Definition is_base32_char (c : ascii) : bool :=
  let n := N_of_ascii c in
  (((65 <=? n) && (n <=? 90)) || ((50 <=? n) && (n <=? 55)))%N.

(** The value of a base32 symbol, and of a run of symbols read as one number
    in base 32; they undo [Base32.symbol] and [Base32.quantum]. *)
Definition base32_value (c : ascii) : Z :=
  let n := Z.of_N (N_of_ascii c) in
  if (65 <=? n) && (n <=? 90) then n - 65 else n - 24.

Definition base32_number (l : list ascii) : Z :=
  fold_left (fun acc c => acc * 32 + base32_value c) l 0.

(** What a call of [visit] for the image named [n] under the path [path] has
    done when it returns: the image and what it needs are resolved, or the
    error reports a path that closes a cycle; running out of fuel is
    excluded. *)
Definition visit_post (images : list (string * Image)) (path : list string)
    (st : VisitState) (n : string) (r : option (result VisitState)) : Prop :=
  match r with
  | Some (Ok st') =>
      visited st st' n /\ registered images st'
      /\ forall k, k ∈ (resolved st').*1 ->
           k ∈ (resolved st).*1 \/ rtc (depends images) n k
  | Some (Raise e) =>
      exists more, e = circular_dependency (path ++ n :: more)
                   /\ cycle_path images (path ++ n :: more)
  | None => False
  end.

(** ** Invariants of [DependencySet] and of the registry of a [Repository] *)

(** The members of a dependency set: each is stored under its name, its spec
    can be computed, and each of its dependencies is the member stored under
    that name. *)
Definition DependencySet_ok (w : World) (ds : DependencySet) : Prop :=
  forall n ri, (n, ri) ∈ ds ->
    ResolvedImage_name ri = n
    /\ is_ok (spec w ri) = true
    /\ forall d, d ∈ depends_on (image ri) ->
         exists dep, dict_get (dependencies ri) d = Some dep /\ (d, dep) ∈ ds.

(** The registry while [Repository.__init__] walks: every image is stored
    under its name, which is not empty, it is what [Image] construction gives
    for its directory, and no key occurs twice. *)
Definition Registry_ok (w : World) (rd0 : RepositoryDetails) (reg : Registry)
  : Prop :=
  (forall k img, (k, img) ∈ reg_images reg ->
     name img = k /\ k <> ""
     /\ rd img = rd0 /\ Image_init w rd0 (path img) = Ok img)
  /\ NoDup (reg_images reg).*1
  /\ NoDup (reg_compositions reg).*1.

(** No byte of the string is whitespace. *)
Definition no_space (s : string) : bool :=
  forallb (fun c => negb (Re.is_space c)) (list_ascii_of_string s).

(** ** Which commands a computation runs *)

(** Whatever the store, the computation adds commands to the history that all
    satisfy [P], and removes none. *)
Definition only_runs {A} (P : list string -> Prop) (c : M A) : Prop :=
  forall s, exists cmds,
    history (c s).1 = history s ++ cmds /\ Forall P cmds.

(** [docker pull] and [docker manifest inspect] of the spec of an image. *)
Definition pull_of (w : World) (ri : ResolvedImage) (cmd : list string)
  : Prop :=
  exists sp, spec w ri = Ok sp /\ cmd = ["docker"; "pull"; sp].

Definition inspect_of (w : World) (ri : ResolvedImage) (cmd : list string)
  : Prop :=
  exists sp, spec w ri = Ok sp /\ cmd = ["docker"; "manifest"; "inspect"; sp].

(** ** Worlds that differ in the files only *)

(** The world [w] with other file modes and contents. *)
Definition with_files (w : World) (modes : string -> option Z)
    (contents : string -> option string) : World := {|
  expand_globs := expand_globs w;
  lstat_mode := modes;
  read_file := contents;
  load_manifest := load_manifest w;
  cpu_count := cpu_count w;
  Sanitizer_str := Sanitizer_str w;
  rustc_flags_coverage := rustc_flags_coverage w;
  rustc_flags_sanitizer := rustc_flags_sanitizer w;
  rustc_flags_sanitizer_cflags := rustc_flags_sanitizer_cflags w;
  xcompile_cargo := xcompile_cargo w;
  xcompile_tool := xcompile_tool w;
  crate_for_bin := crate_for_bin w;
  crate_for_example := crate_for_example w;
  transitive_path_dependencies := transitive_path_dependencies w;
  set_iteration := set_iteration w;
  exit_ok := exit_ok w;
  stdout_of := stdout_of w;
  retries_within := retries_within w;
  env_is_truthy := env_is_truthy w;
  json_loads := json_loads w
|}.

(** On the inputs of the image and of its dependencies the files have the
    same content as in [w], and a mode that is a symbolic link, or has the
    owner-execute bit, exactly when the mode in [w] is or has. *)
Fixpoint same_inputs (w : World) (modes : string -> option Z)
    (contents : string -> option string) (ri : ResolvedImage) : Prop :=
  (forall p, p ∈ input_paths w ri ->
     let abs_path := Io.path_join (root (rd (image ri))) p in
     contents abs_path = read_file w abs_path
     /\ simplified_mode <$> modes abs_path
        = simplified_mode <$> lstat_mode w abs_path)
  /\ foldr (fun d rest => same_inputs w modes contents d.2 /\ rest) True
           (dependencies ri).

(** ** The dependencies of a resolved image *)

(** [dep] is one of [ri.dependencies.values()]. *)
Definition depends_directly (ri dep : ResolvedImage) : Prop :=
  exists k, (k, dep) ∈ dependencies ri.

(** The tree without what is below the directories that the walk leaves
    out by name. *)
Fixpoint forget_pruned (t : Tree) : Tree :=
  mkTree (tree_files t)
    (map (fun d : string * option Tree =>
            (d.1, if bool_decide (d.1 ∈ pruned_dirs) then None
                  else match d.2 with
                       | Some sub => Some (forget_pruned sub)
                       | None => None
                       end))
         (tree_dirs t)).

(** ** What [_prepare_batch] prepares *)

(** The [CargoBuild] actions of the images, in order. *)
Definition cargo_builds_of (images : list ResolvedImage) : list PreImage :=
  List.filter (fun p => String.eqb (class_of p) "CargoBuild")
    (concat (map (fun ri => pre_images (image ri)) images)).

(** The command line that [CargoBuild.prepare_batch] makes for the actions
    [builds], the first of which is [first]. *)
Definition common_cargo_build (w : World) (first : PreImage)
    (builds : list PreImage) : result (list string) :=
  let targets (pick : PreImageKind -> list string) :=
    Py_set (concat (map (fun b => pick (pre_kind b)) builds)) in
  generate_cargo_build_command w (pre_rd first)
    (set_iteration w
       (targets (fun k => match k with CargoBuild b _ _ _ => b | _ => [] end)))
    (set_iteration w
       (targets (fun k => match k with CargoBuild _ e _ _ => e | _ => [] end))).

(** A computation that only adds to the trace, whether it returns or
    raises. *)
Definition only_appends {A} (c : M A) : Prop :=
  forall s, exists events, trace (c s).1 = trace s ++ events.

(** ** What [build] does, event by event *)

(** An event of a pre-image action: the parent directories of a file made, a
    file copied, [strip] or [objcopy] of some architecture run on a binary, or
    [cp -R] run on what a build script has put out. *)
Definition action_event (w : World) (e : Event) : Prop :=
  match e with
  | MkdirParents _ | CopyFile _ _ => True
  | Run cmd stdin =>
      stdin = None
      /\ ((exists a b, cmd = ["cp"; "-R"; a; b])
          \/ (exists a exe,
                cmd = xcompile_tool w a "strip" ++ ["--strip-debug"; exe])
          \/ (exists a exe,
                cmd = xcompile_tool w a "objcopy"
                      ++ ["-R"; ".debug_pubnames"; "-R"; ".debug_pubtypes";
                          exe]))
  | Say _ => False
  end.

(** The files a pre-image action is there to copy: each input of a [Copy]
    action from the source directory to the destination below the image, and
    each binary and example of a [CargoBuild] action from the target
    directory of Cargo to the image. *)
Definition copies_of (w : World) (p : PreImage) : list Event :=
  match pre_kind p with
  | Copy source destination _ =>
      match PreImage_inputs w p with
      | Ok srcs =>
          map (fun src =>
                 CopyFile (Path.join (Path.join (root (pre_rd p)) source) src)
                          (Path.join (Path.join (pre_path p) destination) src))
              srcs
      | Raise _ => []
      end
  | CargoBuild bins examples _ _ =>
      let cargo_profile :=
        if release_mode (pre_rd p) then "release" else "debug" in
      map (fun exe =>
             CopyFile (Path.join (Path.join (cargo_target_dir (pre_rd p))
                                            cargo_profile) exe)
                      (Path.join (pre_path p) exe))
          (bins ++ map (Path.join "examples") examples)
  end.

(** The command line of [docker build] in [build], for the spec [sp]. *)
Definition docker_build_command (ri : ResolvedImage) (sp : string)
  : list string :=
  let i := image ri in
  ["docker"; "build"; "-f"; "-"]
  ++ map (fun kv => "--build-arg=" +:+ kv.1 +:+ "=" +:+ kv.2)
       (dict_set (dict_set (build_args i) "ARCH_GCC" (Arch_str (arch (rd i))))
                 "ARCH_GO" (Arch_go_str (arch (rd i))))
  ++ ["-t"; sp; "--platform=linux/" +:+ Arch_go_str (arch (rd i)); path i].

(** The events of one [build] of the image: the announcement, [git clean] on
    its directory, then events of its actions and nothing else, among them
    every copy the actions are there to make, and last [docker build], which
    reads the rendered Dockerfile from standard input. *)
Definition build_trace (w : World) (ri : ResolvedImage) (events : list Event)
  : Prop :=
  exists sp f actions,
    spec w ri = Ok sp /\ write_dockerfile w ri = Ok f
    /\ events
       = [Say ("Building " +:+ sp);
          Run ["git"; "clean"; "-ffdX"; path (image ri)] None]
         ++ actions ++ [Run (docker_build_command ri sp) (Some f)]
    /\ Forall (action_event w) actions
    /\ forall p e, p ∈ pre_images (image ri) -> e ∈ copies_of w p ->
                   e ∈ actions.

(** A computation that only adds events that satisfy [P] to the trace,
    whether it returns or raises. *)
Definition emits {A} (P : Event -> Prop) (c : M A) : Prop :=
  forall s, exists events,
    trace (c s).1 = trace s ++ events /\ Forall P events.

(** The command of a push at the end of [ensure]. *)
Definition push_event (sp : string) : Event :=
  Run ["sh"; "-c"; "docker push " +:+ Str.shlex_quote sp +:+ " | cat"] None.

(** ** A small repository to run the definitions on *)

Module Example.

Definition x86_64 : Arch :=
  {| Arch_str := "x86_64"; Arch_go_str := "amd64";
     Arch_target := "x86_64-unknown-linux-gnu" |}.

Definition details (release : bool) (san : Sanitizer) : RepositoryDetails :=
  {| root := "/repo"; arch := x86_64; release_mode := release;
     coverage := false; sanitizer := san;
     image_registry := "materialize"; image_prefix := "" |}.

Definition rd0 : RepositoryDetails := details true none.

Definition mk_image (n : string) (pub : bool) (deps : list string) : Image :=
  {| rd := rd0; path := "/repo/" +:+ n; pre_images := []; name := n;
     publish := pub; description := None; mainline := true;
     build_args := []; depends_on := deps |}.

Definition nl : string := String Io.newline EmptyString.

(** The container build file of image [a]. *)
Definition dockerfile_a : string :=
  "MZFROM b AS base" +:+ nl +:+ "RUN true" +:+ nl.

Definition manifest (n : string) : Manifest :=
  {| m_name := Some n; m_publish := None; m_description := None;
     m_mainline := None; m_pre_image := None; m_build_args := None |}.

(** A world with two image directories [a] and [b], one directory [e] whose
    manifest has an empty name and one, [x], whose name has a space.  Every
    subprocess succeeds unless [fails] says otherwise. *)
Definition world (cpus : Z) (fails : list string -> bool) : World := {|
  expand_globs := fun _ specs =>
    concat (map (fun s =>
                   if String.eqb s "/repo/a/**"
                   then ["a/Dockerfile"; "a/mzbuild.yml"]
                   else if String.eqb s "/repo/b/**" then ["b/Dockerfile"]
                   else [s])
                specs);
  lstat_mode := fun p =>
    if String.eqb p "/repo/a/Dockerfile" then Some 33188 else Some 33261;
  read_file := fun p =>
    if String.eqb p "/repo/a/Dockerfile" then Some dockerfile_a
    else Some "FROM scratch";
  load_manifest := fun p =>
    if String.eqb p "/repo/e/mzbuild.yml" then Some (manifest "")
    else if String.eqb p "/repo/x/mzbuild.yml" then Some (manifest "x y")
    else None;
  cpu_count := cpus;
  Sanitizer_str := Sanitizer_value;
  rustc_flags_coverage := [];
  rustc_flags_sanitizer := fun _ => [];
  rustc_flags_sanitizer_cflags := fun _ => [];
  xcompile_cargo := fun _ subcommand _ _ => ["cargo"; subcommand];
  xcompile_tool := fun _ tool => [tool];
  crate_for_bin := fun _ => None;
  crate_for_example := fun _ => None;
  transitive_path_dependencies := fun _ _ => [];
  set_iteration := fun l => l;
  exit_ok := fun _ cmd => negb (fails cmd);
  stdout_of := fun _ _ => "";
  retries_within := fun _ => 0%nat;
  env_is_truthy := fun _ => false;
  json_loads := fun _ => None
|}.

Definition world0 : World := world 8 (fun _ => false).

(** [docker pull] cannot find anything. *)
Definition is_pull (cmd : list string) : bool :=
  match cmd with
  | "docker" :: "pull" :: _ => true
  | _ => false
  end.

Definition world_no_registry : World := world 8 is_pull.

(** The registry has nothing, and nothing is present locally. *)
Definition is_manifest_inspect (cmd : list string) : bool :=
  match cmd with
  | "docker" :: "manifest" :: _ => true
  | _ => false
  end.

Definition world_empty_registry : World := world 8 is_manifest_inspect.

Definition image_a : Image := mk_image "a" true ["b"].
Definition image_b : Image := mk_image "b" true [].
Definition resolved_b : ResolvedImage := ResolvedImage_init image_b [].
Definition resolved_a : ResolvedImage := ResolvedImage_init image_a [resolved_b].

(** An image that is not to be published. *)
Definition resolved_private : ResolvedImage :=
  ResolvedImage_init (mk_image "b" false []) [].

(** Scenario S3 of the spec: [a -> b -> c -> a]. *)
Definition cycle : list (string * Image) :=
  [("a", mk_image "a" true ["b"]);
   ("b", mk_image "b" true ["c"]);
   ("c", mk_image "c" true ["a"])].

(** An acyclic repository: [a] needs [b] and [c], [b] needs [c]. *)
Definition diamond : list (string * Image) :=
  [("a", mk_image "a" true ["c"; "b"]);
   ("b", mk_image "b" true ["c"]);
   ("c", mk_image "c" true [])].

Definition repository (images : list (string * Image)) : Repository :=
  {| Repository_rd := rd0; images := images; compositions := [] |}.

(** A rank for [diamond]: the length of the name's longest chain. *)
Definition diamond_rank (n : string) : nat :=
  if String.eqb n "a" then 2 else if String.eqb n "b" then 1 else 0.

(** The images [a] and [b] in a repository whose registry has a backslash in
    its name. *)
Definition rd_backslash : RepositoryDetails :=
  {| root := "/repo"; arch := x86_64; release_mode := true;
     coverage := false; sanitizer := none;
     image_registry := "reg\1"; image_prefix := "" |}.

Definition in_repository (rd1 : RepositoryDetails) (i : Image) : Image :=
  {| rd := rd1; path := path i; pre_images := pre_images i; name := name i;
     publish := publish i; description := description i;
     mainline := mainline i; build_args := build_args i;
     depends_on := depends_on i |}.

Definition resolved_a_backslash : ResolvedImage :=
  ResolvedImage_init (in_repository rd_backslash image_a)
    [ResolvedImage_init (in_repository rd_backslash image_b) []].

(** A cargo action under release mode, no coverage, no sanitizer. *)
Definition cargo_release : PreImage :=
  {| pre_rd := rd0; pre_path := "/repo/a";
     pre_kind := CargoBuild ["environmentd"] [] true [] |}.

End Example.

(** ** A repository on disk *)

Module Sample.

(** A world like [w] in which the manifests are those of [manifests]. *)
Definition with_manifests (w : World) (manifests : string -> option Manifest)
  : World := {|
  expand_globs := expand_globs w;
  lstat_mode := lstat_mode w;
  read_file := read_file w;
  load_manifest := manifests;
  cpu_count := cpu_count w;
  Sanitizer_str := Sanitizer_str w;
  rustc_flags_coverage := rustc_flags_coverage w;
  rustc_flags_sanitizer := rustc_flags_sanitizer w;
  rustc_flags_sanitizer_cflags := rustc_flags_sanitizer_cflags w;
  xcompile_cargo := xcompile_cargo w;
  xcompile_tool := xcompile_tool w;
  crate_for_bin := crate_for_bin w;
  crate_for_example := crate_for_example w;
  transitive_path_dependencies := transitive_path_dependencies w;
  set_iteration := set_iteration w;
  exit_ok := exit_ok w;
  stdout_of := stdout_of w;
  retries_within := retries_within w;
  env_is_truthy := env_is_truthy w;
  json_loads := json_loads w
|}.

(** The directories [a] and [b] hold images named after them. *)
Definition world : World :=
  with_manifests Example.world0
    (fun p => if String.eqb p "/repo/a/mzbuild.yml" then Some (Example.manifest "a")
              else if String.eqb p "/repo/b/mzbuild.yml" then Some (Example.manifest "b")
              else None).

Definition image_dir : Tree := mkTree ["Dockerfile"; "mzbuild.yml"] [].

(** The tree below [/repo]: the two images, a composition, a [.git] directory
    with something that looks like an image, and [misc/python]. *)
Definition tree : Tree :=
  mkTree ["README.md"]
    [ ("a", Some image_dir);
      (".git", Some (mkTree [] [("x", Some image_dir)]));
      ("b", Some image_dir);
      ("test", Some (mkTree ["mzcompose.py"] []));
      ("misc", Some (mkTree [] [("python", Some image_dir)])) ].

End Sample.

(** ** Images built with Cargo *)

Module Batch.

(** A world like [Example.world0] in which every binary belongs to a crate
    of its name. *)
Definition world : World := {|
  expand_globs := expand_globs Example.world0;
  lstat_mode := lstat_mode Example.world0;
  read_file := read_file Example.world0;
  load_manifest := load_manifest Example.world0;
  cpu_count := cpu_count Example.world0;
  Sanitizer_str := Sanitizer_str Example.world0;
  rustc_flags_coverage := rustc_flags_coverage Example.world0;
  rustc_flags_sanitizer := rustc_flags_sanitizer Example.world0;
  rustc_flags_sanitizer_cflags := rustc_flags_sanitizer_cflags Example.world0;
  xcompile_cargo := xcompile_cargo Example.world0;
  xcompile_tool := xcompile_tool Example.world0;
  crate_for_bin := fun bin =>
    Some {| crate_name := bin; crate_inputs := ["src/" +:+ bin] |};
  crate_for_example := crate_for_example Example.world0;
  transitive_path_dependencies := transitive_path_dependencies Example.world0;
  set_iteration := set_iteration Example.world0;
  exit_ok := exit_ok Example.world0;
  stdout_of := stdout_of Example.world0;
  retries_within := retries_within Example.world0;
  env_is_truthy := env_is_truthy Example.world0;
  json_loads := json_loads Example.world0
|}.

(** An image whose actions copy a directory and build one binary. *)
Definition cargo_image (n bin : string) : ResolvedImage :=
  let p := "/repo/" +:+ n in
  ResolvedImage_init
    {| rd := Example.rd0; path := p;
       pre_images :=
         [ {| pre_rd := Example.rd0; pre_path := p;
              pre_kind := Copy "misc" "." "*" |};
           {| pre_rd := Example.rd0; pre_path := p;
              pre_kind := CargoBuild [bin] [] true [] |} ];
       name := n; publish := true; description := None; mainline := true;
       build_args := []; depends_on := [] |}
    [].

End Batch.

(** * Theorems *)

(** ** Helper lemmas on the monads *)

Lemma bind_Ok {A B} (r : result A) (k : A -> result B) (b : B) :
  bind r k = Ok b -> exists a, r = Ok a /\ k a = Ok b.
Proof. destruct r as [a|e]; simpl; [eauto | discriminate]. Qed.

Lemma of_option_Ok {A} (o : option A) (e : exn) (a : A) :
  of_option o e = Ok a -> o = Some a.
Proof. destruct o; simpl; congruence. Qed.

(** ** C3: the fingerprint material of a cargo action *)

(** C3 (the code departs from the claim).  Under release mode, without
    coverage and without sanitizer, the claim gives ["release"] for [extra()].
    [flags += "release"] extends the list by the seven characters of the
    word, so the code returns them sorted and comma-joined. *)
Theorem C3_extra_release_is_split_into_characters :
  extra Example.cargo_release = "a,e,e,e,l,r,s"
  /\ Spec.extra_tags (pre_rd Example.cargo_release) = "release".
Proof. split; reflexivity. Qed.

(** ** C5: job parallelism under a sanitizer *)

Lemma round_thirds (a : Z) :
  -1 <= 3 * Num.round (Qmake a 3) - a <= 1.
Proof.
  unfold Num.round. simpl Qnum. simpl Qden.
  destruct (Z.ltb_spec (2 * (a mod 3)) 3);
    [|destruct (Z.ltb_spec 3 (2 * (a mod 3)));
      [|destruct (Z.even (a / 3))]];
    Z.div_mod_to_equations; lia.
Qed.

(** Rounding [a / 3] to a multiple of [1 / d], for [d] at least 4, and then
    to an integer gives the integer nearest to [a / 3]. *)
Lemma round_scaled_thirds (a d m : Z) :
  0 <= a -> 4 <= d -> -1 <= 3 * m - a * d <= 1 ->
  Num.round (Qmake m (Z.to_pos d)) = (a + 1) / 3.
Proof.
  intros Ha Hd Hm.
  pose proof (Z.div_mod a 3 ltac:(lia)) as Hdiv.
  pose proof (Z.mod_pos_bound a 3 ltac:(lia)) as Hc.
  set (j := a / 3) in *. set (c := a mod 3) in *.
  assert (Hprod : a * d = 3 * (j * d) + c * d) by (rewrite Hdiv; ring).
  set (u := m - j * d).
  assert (Hu : 0 <= u < d /\ (c = 0 -> u = 0) /\ (c = 1 -> 2 * u < d)
               /\ (c = 2 -> d < 2 * u)).
  { unfold u. assert (c = 0 \/ c = 1 \/ c = 2) as [Hc0|[Hc1|Hc2]] by lia.
    - rewrite Hc0 in *. lia.
    - rewrite Hc1 in *. lia.
    - rewrite Hc2 in *. lia. }
  destruct Hu as (Hu & H0 & H1 & H2).
  assert (Hq : m / d = j).
  { symmetry. apply (Z.div_unique m d j u); [lia|unfold u; ring]. }
  assert (Hr : m mod d = u).
  { symmetry. apply (Z.mod_unique m d j u); [lia|unfold u; ring]. }
  unfold Num.round. simpl Qnum. simpl Qden.
  rewrite Z2Pos.id by lia. rewrite Hq, Hr.
  assert (Ht : (a + 1) / 3 = if c =? 2 then j + 1 else j).
  { destruct (Z.eqb_spec c 2); Z.div_mod_to_equations; lia. }
  rewrite Ht.
  assert (c = 0 \/ c = 1 \/ c = 2) as [Hc0|[Hc1|Hc2]] by lia.
  - rewrite Hc0. simpl. rewrite (H0 Hc0).
    destruct (Z.ltb_spec (2 * 0) d); [done|lia].
  - rewrite Hc1. simpl. specialize (H1 Hc1).
    destruct (Z.ltb_spec (2 * u) d); [done|lia].
  - rewrite Hc2. simpl. specialize (H2 Hc2).
    destruct (Z.ltb_spec (2 * u) d); [lia|].
    destruct (Z.ltb_spec d (2 * u)); [done|lia].
Qed.

(** Up to [3 * 2 ^ 50] CPUs the binary64 quotient is near enough to
    [2 * n / 3] for [round] to give the integer nearest to it. *)
Lemma sanitizer_jobs_nearest (n : Z) :
  0 <= n < 3 * 2 ^ 50 -> sanitizer_jobs n = Ok ((2 * n + 1) / 3).
Proof.
  intros Hn. unfold sanitizer_jobs, Num.truediv.
  destruct (Z.eqb_spec (n * 2) 0) as [H0|H0].
  { assert (n = 0) as -> by lia. reflexivity. }
  rewrite Z.abs_eq by lia. rewrite Z.sgn_pos by lia.
  change (Z.log2 3) with 1.
  set (a := n * 2) in *.
  assert (Ha : 2 <= a < 3 * 2 ^ 51) by (unfold a; lia).
  assert (Hlog : 1 <= Z.log2 a <= 52).
  { split.
    - apply Z.log2_le_pow2; lia.
    - assert (Z.log2 a < 53); [|lia]. apply Z.log2_lt_pow2; lia. }
  set (k := Z.log2 a - 1) in *.
  rewrite (Z.max_l 0 (- k)) by lia. rewrite (Z.max_r 0 k) by lia.
  rewrite Z.pow_0_r, Z.mul_1_r.
  set (e := Z.max (if a <? 3 * 2 ^ k then k - 53 else k - 52) (-1074)).
  assert (He : -53 <= e <= -2).
  { unfold e. destruct (Z.ltb_spec a (3 * 2 ^ k)) as [_|Hge]; [lia|].
    assert (k <= 50 \/ k = 51) as [Hk|Hk] by lia; [lia|].
    rewrite Hk in Hge. lia. }
  rewrite (Z.max_l 0 e) by lia. rewrite (Z.max_r 0 (- e)) by lia.
  rewrite Z.pow_0_r, !Z.mul_1_r.
  change (Z.to_pos 3) with 3%positive.
  destruct (Z.ltb_spec 971 e) as [?|_]; [lia|].
  destruct (Z.eqb_spec e 971) as [?|_]; [lia|].
  cbn [orb andb of_option bind]. f_equal.
  rewrite Z.mul_1_l.
  replace (2 * n + 1) with (a + 1) by (unfold a; lia).
  apply round_scaled_thirds; [lia| |apply round_thirds].
  change 4 with (2 ^ 2). apply Z.pow_le_mono_r; lia.
Qed.

Lemma forallb_range (P : Z -> bool) (lo : Z) (len : nat) :
  forallb P (map (fun i => lo + Z.of_nat i) (seq 0 len)) = true ->
  forall n, lo <= n < lo + Z.of_nat len -> P n = true.
Proof.
  intros H n Hn. rewrite forallb_forall in H. apply H.
  apply in_map_iff. exists (Z.to_nat (n - lo)). split; [lia|].
  apply in_seq. lia.
Qed.

(** The division of binary64 numbers gives the quotient that [Num.truediv]
    describes, and so the same number of jobs, for every CPU count up to
    4096. *)
Lemma float_jobs_agree (n : Z) :
  1 <= n <= 4096 ->
  exists x y, Num.truediv (n * 2) 3 = Some x
              /\ Num.float_div (n * 2) 3 = Some y
              /\ Qeq x y
              /\ sanitizer_jobs n = Ok (Num.round x)
              /\ float_jobs n = Some (Num.round x).
Proof.
  intros Hn.
  pose proof (forallb_range
    (fun n => match Num.truediv (n * 2) 3, Num.float_div (n * 2) 3 with
              | Some x, Some y => Qeq_bool x y && (Num.round x =? Num.round y)
              | _, _ => false
              end) 1 4096) as H.
  specialize (H ltac:(vm_compute; reflexivity) n ltac:(lia)).
  simpl in H. unfold sanitizer_jobs, float_jobs.
  destruct (Num.truediv (n * 2) 3) as [x|]; [|discriminate].
  destruct (Num.float_div (n * 2) 3) as [y|]; [|discriminate].
  apply andb_prop in H as [Hq Hr]. apply Qeq_bool_iff in Hq.
  apply Z.eqb_eq in Hr. exists x, y. simpl. rewrite Hr. done.
Qed.

(** The bound of [sanitizer_jobs_nearest] cannot be raised: with
    [3 * 2 ^ 50 + 1] CPUs the quotient, which lies between 2^51 and 2^52, is
    rounded to a multiple of one half, and [round] then gives the integer
    below the nearest one.  The division of binary64 numbers agrees. *)
Lemma sanitizer_jobs_bound_is_sharp :
  sanitizer_jobs (3 * 2 ^ 50 + 1) = Ok 2251799813685248
  /\ float_jobs (3 * 2 ^ 50 + 1) = Some 2251799813685248
  /\ (2 * (3 * 2 ^ 50 + 1) + 1) / 3 = 2251799813685249.
Proof. split; [|split]; vm_compute; reflexivity. Qed.

(** C5 (counterexample).  With two CPUs the value handed to [--jobs] is 1,
    while the ceiling of 4/3 is 2. *)
Lemma C5_counterexample_two_cpus :
  sanitizer_jobs 2 <> Ok (Spec.ceil_two_thirds 2)
  /\ float_jobs 2 = Some 1
  /\ generate_cargo_build_command (Example.world 2 (fun _ => false))
       (Example.details false address) [] []
     = Ok ["cargo"; "build"; "--no-default-features"; "--jobs"; "1"].
Proof. split; [|split]; vm_compute; congruence. Qed.

(** C5 (amended).  When a sanitizer other than none is enabled and the
    machine has fewer than [3 * 2 ^ 50] CPUs, the synthesized command ends
    with the no-default-features flag and a job cap that is [2 * N / 3]
    rounded to the nearest integer, that is, the floor of [(2 * N + 1) / 3];
    this is the ceiling of [2 * N / 3] exactly when [N mod 3] is not 2.  The
    quotient is a binary64 number, and from [3 * 2 ^ 50 + 1] CPUs on it can be
    too coarse for that ([sanitizer_jobs_bound_is_sharp]). *)
Theorem C5_jobs_round_to_nearest (w : World) (rd : RepositoryDetails)
    (bins examples cmd : list string) :
  sanitizer rd <> none ->
  0 <= cpu_count w < 3 * 2 ^ 50 ->
  generate_cargo_build_command w rd bins examples = Ok cmd ->
  sanitizer_jobs (cpu_count w) = Ok ((2 * cpu_count w + 1) / 3)
  /\ ((2 * cpu_count w + 1) / 3 = Spec.ceil_two_thirds (cpu_count w)
      <-> cpu_count w mod 3 <> 2)
  /\ exists front,
       cmd = front ++ ["--no-default-features"; "--jobs";
                       Py.str_int ((2 * cpu_count w + 1) / 3)].
Proof.
  intros Hsan Hcpu Hcmd. split; [by apply sanitizer_jobs_nearest|]. split.
  - unfold Spec.ceil_two_thirds. Z.div_mod_to_equations. lia.
  - unfold generate_cargo_build_command in Hcmd.
    apply bind_Ok in Hcmd as (acc1 & _ & Hcmd).
    apply bind_Ok in Hcmd as ([cargo_build packages] & _ & Hcmd).
    apply bind_Ok in Hcmd as (tail & Htail & Hcmd).
    injection Hcmd as <-. unfold cargo_build_tail in Htail.
    destruct (decide (sanitizer rd <> none)) as [_|Hn]; [|contradiction].
    rewrite sanitizer_jobs_nearest in Htail by done. simpl in Htail.
    injection Htail as <-.
    eexists. rewrite !app_assoc. reflexivity.
Qed.

Lemma C5_jobs_round_to_nearest_witness :
  exists front,
    ["cargo"; "build"; "--release"; "--no-default-features"; "--jobs"; "5"]
    = front ++ ["--no-default-features"; "--jobs";
                Py.str_int ((2 * cpu_count Example.world0 + 1) / 3)].
Proof.
  apply (C5_jobs_round_to_nearest Example.world0 (Example.details true thread)
           [] []);
    [discriminate | simpl; lia | reflexivity].
Defined.

(** ** C2: [is_published_if_necessary] *)

(** C2 (counterexample).  For an image with [publish == false] the claim
    gives true; the code returns false, without asking the registry. *)
Lemma C2_counterexample_unpublished_image :
  ResolvedImage_publish Example.resolved_private = false
  /\ is_published_if_necessary Example.world0 Example.resolved_private
       empty_store
     = (empty_store, Ok false).
Proof. split; reflexivity. Qed.

(** C2 (amended).  [is_published_if_necessary()] returns true if and only if
    [publish == true] and the remote registry check confirms that the image's
    spec exists in the registry; for an image with [publish == false] it
    returns false and does nothing else. *)
Theorem C2_published_iff_publish_and_pushed (w : World) (ri : ResolvedImage)
    (s : Store) :
  ((is_published_if_necessary w ri s).2 = Ok true
   <-> ResolvedImage_publish ri = true
       /\ exists sp, spec w ri = Ok sp
          /\ exit_ok w (history s) ["docker"; "manifest"; "inspect"; sp] = true)
  /\ (if ResolvedImage_publish ri then True
      else is_published_if_necessary w ri s = (s, Ok false)).
Proof.
  unfold is_published_if_necessary.
  destruct (ResolvedImage_publish ri); [|split; [|reflexivity]].
  - split; [|exact I].
    unfold mbind, lift, is_docker_image_pushed, ui.say, emit, ret. simpl.
    destruct (spec w ri) as [sp|e]; simpl.
    + destruct (exit_ok w (history s) ["docker"; "manifest"; "inspect"; sp])
        eqn:Hok; simpl.
      * split; [intros _; split; [reflexivity|exists sp; split; congruence]
               |reflexivity].
      * split; [discriminate|].
        intros [_ (sp' & Hsp & Hok')]. congruence.
    + split; [discriminate|]. intros [_ (sp' & Hsp & _)]. discriminate.
  - split; [discriminate|]. intros [H _]. discriminate.
Qed.

(** Image [b] is publishable and the registry has it. *)
Lemma C2_published_iff_publish_and_pushed_witness :
  (is_published_if_necessary Example.world0 Example.resolved_b empty_store).2
  = Ok true.
Proof.
  apply (proj1 (C2_published_iff_publish_and_pushed Example.world0
                  Example.resolved_b empty_store)).
  split; [reflexivity|].
  exists "materialize/b:mzbuild-ADBZJP5TQHOOMIYUYUKDUNSCTBAXODRU".
  split; [vm_compute; reflexivity | reflexivity].
Defined.

(** ** C4: [try_pull] and [acquire] *)

(** Whatever the registry does, [try_pull] does not return false: a pull that
    fails leaves through the exception of [run_with_retries]. *)
Lemma try_pull_never_false (w : World) (ri : ResolvedImage) (d : Z) (s : Store) :
  (try_pull w ri d s).2 <> Ok false.
Proof.
  unfold try_pull, mbind, lift, ui.header, emit, get_acquired, set_acquired, ret.
  simpl. destruct (spec w ri) as [sp|e]; simpl; [|discriminate].
  destruct (default false (acquired s !! ResolvedImage_name ri)) eqn:Ha; simpl.
  - rewrite Ha. discriminate.
  - destruct (spawn.run_with_retries w _ d _) as [s' [u|e]]; simpl;
      [|discriminate].
    rewrite lookup_insert_eq. discriminate.
Qed.

(** The comprehension of [acquire] therefore never selects an image. *)
Lemma pull_all_selects_nothing (w : World) (ds : DependencySet) (d : Z)
    (s : Store) (l : list ResolvedImage) :
  (pull_all w ds d s).2 = Ok l -> l = [].
Proof.
  unfold pull_all, mfilter. generalize (DependencySet_iter ds) as deps.
  intros deps. revert s l. induction deps as [|dep deps IH]; intros s l.
  - by intros [= <-].
  - unfold mbind at 1. unfold mbind at 1.
    pose proof (try_pull_never_false w dep d s) as Hnever.
    destruct (try_pull w dep d s) as [s1 [[|]|e]]; simpl in *;
      [|done|discriminate].
    unfold mbind at 1. specialize (IH s1).
    match goal with
    | |- context [let (_, _) := ?c s1 in _] => destruct (c s1) as [s2 [rest|e]]
    end; simpl in *; [|discriminate].
    intros [= <-]. by apply IH.
Qed.

(** C4 (the code departs from the claim).  Image [b] is not acquired and the
    registry does not have it.  The claim: [try_pull] returns false and
    [acquire] builds [b].  The code: [try_pull] raises the error of the pull,
    [acquire] ends with that error, and no build command has been run.  In
    general [try_pull] never returns false, and the list of images that
    [acquire] builds is empty whenever the pulls return. *)
Theorem C4_failed_pull_raises_and_nothing_is_built :
  (let w := Example.world_no_registry in
   let pull := ["docker"; "pull";
                "materialize/b:mzbuild-ADBZJP5TQHOOMIYUYUKDUNSCTBAXODRU"] in
   let ds : DependencySet := [("b", Example.resolved_b)] in
   (try_pull w Example.resolved_b 0 empty_store).2
     = Raise (CalledProcessError pull)
   /\ (acquire w ds None empty_store).2 = Raise (CalledProcessError pull)
   /\ history (acquire w ds None empty_store).1 = [pull])
  /\ (forall w ri d s, (try_pull w ri d s).2 <> Ok false)
  /\ (forall w ds d s l, (pull_all w ds d s).2 = Ok l -> l = []).
Proof.
  split; [vm_compute; repeat split; reflexivity|].
  split; [apply try_pull_never_false | apply pull_all_selects_nothing].
Qed.

(** With a registry that has [b], the pull succeeds and nothing is left to
    build. *)
Lemma C4_failed_pull_raises_and_nothing_is_built_witness :
  (pull_all Example.world0 [("b", Example.resolved_b)] 0 empty_store).2 = Ok []
  /\ ([] : list ResolvedImage) = [].
Proof.
  split; [vm_compute; reflexivity|].
  apply (proj2 (proj2 C4_failed_pull_raises_and_nothing_is_built)
           Example.world0 [("b", Example.resolved_b)] 0 empty_store []).
  vm_compute. reflexivity.
Defined.

(** ** C9: the name of an image *)

Lemma pre_image_of_config_error (rd : RepositoryDetails) (path : string)
    (config : PreImageConfig) (e : exn) :
  pre_image_of_config rd path config = Raise e -> exists msg, e = ValueError msg.
Proof.
  unfold pre_image_of_config, CargoBuild_init, Copy_init. simpl.
  repeat case_decide;
    repeat match goal with
           | |- context [of_option ?o _] => destruct o; simpl
           | |- context [if ?b then _ else _] => destruct b; simpl
           end;
    intros Hr; try discriminate; injection Hr as <-; eauto.
Qed.

Lemma pre_images_error (rd : RepositoryDetails) (path : string)
    (configs : list PreImageConfig) (acc : list PreImage) (e : exn) :
  for_each configs
    (fun config acc => p <- pre_image_of_config rd path config ;; Ok (acc ++ [p]))
    acc = Raise e ->
  exists msg, e = ValueError msg.
Proof.
  revert acc. induction configs as [|c cs IH]; intros acc H; [discriminate|].
  simpl in H.
  destruct (pre_image_of_config rd path c) as [p|e'] eqn:Hc; simpl in H.
  - eapply IH, H.
  - injection H as <-. eapply pre_image_of_config_error, Hc.
Qed.

Lemma name_ok_search_invalid (n : string) :
  Spec.name_ok n = negb (String.eqb n "") && negb (Re.search_invalid n).
Proof.
  unfold Spec.name_ok. f_equal.
  induction n as [|c n IH]; simpl; [reflexivity|].
  rewrite IH. by destruct (Re.is_name_char c).
Qed.

(** C9 (counterexample).  A manifest whose name is empty: the name does not
    match [^[A-Za-z0-9-]+$], and [Image] construction succeeds. *)
Lemma C9_counterexample_empty_name :
  exists i, Image_init Example.world0 Example.rd0 "/repo/e" = Ok i
            /\ name i = "" /\ Spec.name_ok (name i) = false.
Proof. eexists. split; [reflexivity|]. split; reflexivity. Qed.

(** C9 (amended).  For a manifest with a name: every [Image] successfully
    constructed from it carries that name, all of whose characters are in
    [A-Za-z0-9-], so the name matches [^[A-Za-z0-9-]+$] unless it is empty;
    when the name has a character outside this class, construction fails with
    a [ValueError], which names the image and the offence when the pre-image
    entries are well-formed. *)
Theorem C9_name_characters_checked (w : World) (rd : RepositoryDetails)
    (path : string) (data : Manifest) (n : string) :
  load_manifest w (Io.path_join path "mzbuild.yml") = Some data ->
  m_name data = Some n ->
  (forall i, Image_init w rd path = Ok i ->
             name i = n /\ Re.search_invalid n = false
             /\ Spec.name_ok n = negb (String.eqb n ""))
  /\ (Re.search_invalid n = true ->
      (exists msg, Image_init w rd path = Raise (ValueError msg))
      /\ (is_ok (for_each (default [] (m_pre_image data))
                   (fun config acc =>
                      p <- pre_image_of_config rd path config ;; Ok (acc ++ [p]))
                   []) = true ->
          Image_init w rd path = Raise (ValueError (invalid_name_message n)))).
Proof.
  intros Hload Hname. unfold Image_init. rewrite Hload. simpl.
  rewrite Hname. simpl.
  destruct (for_each _ _ _) as [pre|e] eqn:Hpre; simpl.
  - destruct (Re.search_invalid n) eqn:Hinv.
    + split; [discriminate|]. intros _. split; eauto.
    + split; [|discriminate].
      intros i Hi.
      destruct (read_file w _); simpl in Hi; [|discriminate].
      apply bind_Ok in Hi as (deps & _ & Hi).
      injection Hi as <-. simpl. split; [reflexivity|]. split; [reflexivity|].
      rewrite name_ok_search_invalid, Hinv. by rewrite andb_true_r.
  - split; [discriminate|]. intros _.
    destruct (pre_images_error _ _ _ _ _ Hpre) as [msg ->].
    split; [eauto | discriminate].
Qed.

Lemma C9_name_characters_checked_witness :
  (exists msg, Image_init Example.world0 Example.rd0 "/repo/x"
               = Raise (ValueError msg))
  /\ Image_init Example.world0 Example.rd0 "/repo/x"
     = Raise (ValueError (invalid_name_message "x y")).
Proof.
  destruct (C9_name_characters_checked Example.world0 Example.rd0 "/repo/x"
              (Example.manifest "x y") "x y" eq_refl eq_refl) as [_ H].
  destruct (H eq_refl) as [H1 H2]. split; [exact H1 | exact (H2 eq_refl)].
Defined.

(** ** Facts on dictionaries and sorting *)

Section dict_facts.
Context {V : Type}.
Implicit Types (d : list (string * V)) (k : string) (v : V).

Lemma dict_get_Some_elem d k v : dict_get d k = Some v -> (k, v) ∈ d.
Proof.
  induction d as [|[k' v'] d IH]; simpl; [discriminate|].
  destruct (String.eqb_spec k' k) as [->|Hne].
  - intros [= ->]. left.
  - intros H. right. auto.
Qed.

Lemma dict_get_None_keys d k : dict_get d k = None <-> k ∉ d.*1.
Proof.
  induction d as [|[k' v'] d IH]; simpl.
  - split; [intros _; apply not_elem_of_nil|reflexivity].
  - destruct (String.eqb_spec k' k) as [->|Hne].
    + split; [discriminate|]. intros H. exfalso. apply H. left.
    + rewrite IH, not_elem_of_cons. naive_solver.
Qed.

Lemma dict_mem_keys d k : dict_mem d k = true <-> k ∈ d.*1.
Proof.
  unfold dict_mem. destruct (dict_get d k) eqn:H.
  - split; [intros _|reflexivity].
    apply dict_get_Some_elem in H.
    apply list_elem_of_fmap. by exists (k, v).
  - apply dict_get_None_keys in H. split; [discriminate|contradiction].
Qed.

Lemma dict_get_is_Some_keys d k : is_Some (dict_get d k) -> k ∈ d.*1.
Proof.
  intros [v H]. apply dict_mem_keys. unfold dict_mem. by rewrite H.
Qed.

Lemma dict_set_fresh d k v : k ∉ d.*1 -> dict_set d k v = d ++ [(k, v)].
Proof.
  induction d as [|[k' v'] d IH]; simpl; [reflexivity|].
  rewrite not_elem_of_cons. intros [Hne Hd].
  destruct (String.eqb_spec k' k) as [->|_]; [contradiction|].
  by rewrite IH.
Qed.

Lemma dict_get_set d k v k' :
  dict_get (dict_set d k v) k' = if String.eqb k k' then Some v else dict_get d k'.
Proof.
  induction d as [|[k0 v0] d IH]; simpl; [reflexivity|].
  destruct (String.eqb_spec k0 k) as [->|Hne]; simpl.
  - destruct (String.eqb_spec k k'); reflexivity.
  - destruct (String.eqb_spec k0 k') as [->|Hne']; [|exact IH].
    destruct (String.eqb_spec k k'); [congruence|reflexivity].
Qed.
End dict_facts.

Lemma elem_of_insert_sorted {A} (key : A -> string) (x y : A) (l : list A) :
  y ∈ Py.insert_sorted key x l <-> y = x \/ y ∈ l.
Proof.
  induction l as [|z l IH]; simpl.
  - rewrite list_elem_of_singleton. set_solver.
  - destruct (String.leb (key x) (key z)).
    + rewrite elem_of_cons. reflexivity.
    + rewrite !elem_of_cons, IH. naive_solver.
Qed.

Lemma elem_of_sorted_by {A} (key : A -> string) (x : A) (l : list A) :
  x ∈ Py.sorted_by key l <-> x ∈ l.
Proof.
  unfold Py.sorted_by. induction l as [|y l IH]; simpl; [reflexivity|].
  rewrite elem_of_insert_sorted, IH, elem_of_cons. reflexivity.
Qed.

Lemma elem_of_sorted (x : string) (l : list string) : x ∈ Py.sorted l <-> x ∈ l.
Proof. apply elem_of_sorted_by. Qed.

Lemma elem_of_sorted_1 (x : string) (l : list string) : x ∈ Py.sorted l -> x ∈ l.
Proof. apply elem_of_sorted. Qed.

(** [sorted] returns its argument rearranged, in ascending order of the keys,
    elements with equal keys in the order they came in. *)
Lemma insert_sorted_Permutation {A} (key : A -> string) (x : A) (l : list A) :
  Py.insert_sorted key x l ≡ₚ x :: l.
Proof.
  induction l as [|y l IH]; simpl; [done|].
  destruct (String.leb (key x) (key y)); [done|].
  rewrite IH. apply Permutation_swap.
Qed.

Lemma sorted_by_Permutation {A} (key : A -> string) (l : list A) :
  Py.sorted_by key l ≡ₚ l.
Proof.
  unfold Py.sorted_by. induction l as [|x l IH]; simpl; [done|].
  by rewrite insert_sorted_Permutation, IH.
Qed.

Lemma key_le_trans {A} (key : A -> string) (a b c : A) :
  key_le key a b -> key_le key b c -> key_le key a c.
Proof.
  unfold key_le. intros Hab%Is_true_true Hbc%Is_true_true.
  apply Is_true_true.
  exact (transitivity (R := String.le) Hab Hbc).
Qed.

Lemma key_le_total {A} (key : A -> string) (a b : A) :
  String.leb (key a) (key b) = false -> key_le key b a.
Proof.
  unfold key_le. intros Hab.
  destruct (String.leb_total (key a) (key b)); congruence.
Qed.

Lemma insert_sorted_StronglySorted {A} (key : A -> string) (x : A)
    (l : list A) :
  StronglySorted (key_le key) l ->
  StronglySorted (key_le key) (Py.insert_sorted key x l).
Proof.
  induction 1 as [|y l Hl IH Hy]; simpl.
  - repeat constructor.
  - destruct (String.leb (key x) (key y)) eqn:Hxy.
    + constructor; [by constructor|].
      constructor; [exact Hxy|].
      eapply Forall_impl; [exact Hy|].
      intros z Hz. by eapply key_le_trans.
    + constructor; [exact IH|].
      rewrite insert_sorted_Permutation.
      constructor; [by apply key_le_total | exact Hy].
Qed.

Lemma sorted_by_StronglySorted {A} (key : A -> string) (l : list A) :
  StronglySorted (key_le key) (Py.sorted_by key l).
Proof.
  unfold Py.sorted_by. induction l as [|x l IH]; simpl; [constructor|].
  by apply insert_sorted_StronglySorted.
Qed.

Lemma sorted_by_stable {A} (key : A -> string) (k : string) (l : list A) :
  filter (fun a => key a = k) (Py.sorted_by key l)
  = filter (fun a => key a = k) l.
Proof.
  unfold Py.sorted_by. induction l as [|x l IH]; [done|].
  cbn [foldr]. rewrite (filter_cons _ x l), <- IH.
  generalize (foldr (Py.insert_sorted key) [] l) as s.
  clear IH. intros s. induction s as [|y s IHs]; cbn [Py.insert_sorted].
  - by rewrite filter_cons.
  - destruct (String.leb (key x) (key y)) eqn:Hxy.
    + by rewrite (filter_cons _ x (y :: s)).
    + rewrite (filter_cons _ y (Py.insert_sorted key x s)), IHs.
      rewrite (filter_cons _ y s).
      destruct (decide (key y = k)) as [Hy|Hy];
        destruct (decide (key x = k)) as [Hx|Hx]; try done.
      assert (String.leb (key x) (key y) = true); [|congruence].
      rewrite Hx, Hy. apply Is_true_true.
      exact (reflexivity (R := String.le) k).
Qed.

(** ** The resolver on an acyclic repository *)

Section resolver.
Variable images : list (string * Image).
Hypothesis Hnamed : keys_named images.
Hypothesis Hclosed : closed images.
Hypothesis Hacyclic : acyclic images.

Lemma unvisited_bound (st : VisitState) :
  (unvisited images st <= size (list_to_set images.*1 : gset string))%nat.
Proof. unfold unvisited. apply subseteq_size. set_solver. Qed.

Lemma unvisited_mono (st st' : VisitState) :
  visiting st ⊆ visiting st' ->
  (unvisited images st' <= unvisited images st)%nat.
Proof. intros H. unfold unvisited. apply subseteq_size. set_solver. Qed.

Lemma unvisited_enter (st : VisitState) (n : string) :
  n ∈ images.*1 -> n ∉ visiting st ->
  (unvisited images (mkVisitState (resolved st) ({[n]} ∪ visiting st))
   < unvisited images st)%nat.
Proof.
  intros Hin Hnot. unfold unvisited. simpl. apply subset_size.
  split; [set_solver|]. intros Hsub.
  assert (Hn : n ∈ (list_to_set images.*1 : gset string) ∖ visiting st)
    by (apply elem_of_difference; split; [by apply elem_of_list_to_set|done]).
  apply Hsub in Hn. set_solver.
Qed.

Lemma good_append (st : VisitState) (image : Image) (V : gset string) :
  good st ->
  name image ∉ (resolved st).*1 ->
  (forall d, d ∈ depends_on image -> d ∈ (resolved st).*1) ->
  good (mkVisitState (resolved st ++ [(name image, image)]) V).
Proof.
  intros [Hn Hd Ht] Hfresh Hdeps. split; simpl.
  - intros k img [Hin|Hin%list_elem_of_singleton]%elem_of_app; [by apply Hn|].
    by injection Hin as -> ->.
  - rewrite fmap_app. apply NoDup_app. split; [done|]. split.
    + intros x Hx Hx'%list_elem_of_singleton. simpl in Hx'. by subst.
    + apply NoDup_singleton.
  - intros l1 k img l2 Heq d Hdin.
    destruct l2 as [|z l2 _] using rev_ind.
    + apply app_inj_tail in Heq as [<- [= <- <-]]. by apply Hdeps.
    + rewrite app_comm_cons, app_assoc in Heq.
      apply app_inj_tail in Heq as [Heq _]. by eapply Ht.
Qed.

(** The loop over the children, given that the recursive call behaves. *)
Lemma visit_children_ok
    (rec : Image -> VisitState -> option (result VisitState)) (f : nat) :
  (forall child st,
      good st ->
      dict_get images (name child) = Some child ->
      (forall m, in_progress st m -> tc (depends images) m (name child)) ->
      (unvisited images st < f)%nat ->
      exists st', rec child st = Some (Ok st') /\ visited st st' (name child)) ->
  forall ds st,
    good st ->
    (forall d, d ∈ ds -> is_Some (dict_get images d)) ->
    (forall m d, in_progress st m -> d ∈ ds -> tc (depends images) m d) ->
    (unvisited images st < f)%nat ->
    exists st',
      visit_children images rec ds st = Some (Ok st')
      /\ good st'
      /\ (exists more, resolved st' = resolved st ++ more)
      /\ visiting st ⊆ visiting st'
      /\ (forall d, d ∈ ds -> d ∈ (resolved st').*1)
      /\ (forall m, in_progress st' m <-> in_progress st m).
Proof.
  intros Hrec ds. induction ds as [|d ds IH]; intros st Hgood Hsome Htc Hf.
  - exists st. simpl. split_and!; try done.
    + exists []. by rewrite app_nil_r.
    + intros d Hd. by apply elem_of_nil in Hd.
  - simpl. destruct (Hsome d ltac:(left)) as [child Hchild].
    rewrite Hchild.
    assert (Hname : name child = d) by by apply Hnamed.
    destruct (Hrec child st) as (st1 & Hv & [Hg1 [m1 Hp1] Hs1 Hr1 Hi1]);
      [done | by rewrite Hname | rewrite Hname; intros m Hm;
       apply (Htc m d Hm); left | done |].
    rewrite Hv.
    destruct (IH st1) as (st2 & Hloop & Hg2 & [m2 Hp2] & Hs2 & Hr2 & Hi2).
    + done.
    + intros d' Hd'. apply Hsome. by right.
    + intros m d' Hm Hd'. apply (Htc m d'); [by apply Hi1 | by right].
    + pose proof (unvisited_mono st st1 Hs1). lia.
    + exists st2. split; [done|]. split; [done|]. split.
      { exists (m1 ++ m2). by rewrite Hp2, Hp1, app_assoc. }
      split; [set_solver|]. split.
      * intros d' [->|Hd']%elem_of_cons; [|by apply Hr2].
        rewrite Hp2, fmap_app. apply elem_of_app. left. by rewrite <- Hname.
      * intros m. by rewrite Hi2, Hi1.
Qed.

(** With enough fuel, [visit] returns, without error, and has resolved the
    image after its dependencies. *)
Lemma visit_ok (fuel : nat) :
  forall image path st,
    good st ->
    dict_get images (name image) = Some image ->
    (forall m, in_progress st m -> tc (depends images) m (name image)) ->
    (unvisited images st < fuel)%nat ->
    exists st', visit fuel images image path st = Some (Ok st')
                /\ visited st st' (name image).
Proof.
  induction fuel as [|f IH]; intros image path st Hgood Hreg Hanc Hf; [lia|].
  simpl. destruct (dict_mem (resolved st) (name image)) eqn:Hmem.
  { exists st. split; [done|]. split; try done.
    - exists []. by rewrite app_nil_r.
    - by apply dict_mem_keys. }
  assert (Hfresh : name image ∉ (resolved st).*1).
  { intros H%dict_mem_keys. congruence. }
  case_bool_decide as Hvis.
  { exfalso. apply (Hacyclic (name image)). by apply Hanc. }
  set (st1 := mkVisitState (resolved st) ({[name image]} ∪ visiting st)).
  assert (Hedge : forall d, d ∈ depends_on image ->
                            depends images (name image) d)
    by (intros d Hd; by exists image).
  destruct (visit_children_ok
              (fun child => visit f images child (path ++ [name image])) f
              (fun child st => IH child (path ++ [name image]) st)
              (Py.sorted (depends_on image)) st1)
    as (st2 & Hloop & Hg2 & [more Hp2] & Hs2 & Hr2 & Hi2).
  - destruct Hgood. by split.
  - intros d Hd%elem_of_sorted_1. eapply Hclosed, Hedge, Hd.
  - intros m d [Hm Hm'] Hd%elem_of_sorted_1. simpl in Hm, Hm'.
    apply elem_of_union in Hm as [->%elem_of_singleton|Hm].
    + apply tc_once, Hedge, Hd.
    + eapply tc_r; [by apply Hanc | apply Hedge, Hd].
  - assert (Hin : name image ∈ images.*1)
      by (apply dict_get_is_Some_keys; by rewrite Hreg).
    pose proof (unvisited_enter st (name image) Hin Hvis) as Hlt.
    fold st1 in Hlt. lia.
  - fold st1. rewrite Hloop.
    assert (Hfresh2 : name image ∉ (resolved st2).*1).
    { apply (Hi2 (name image)). split; simpl; [set_solver|done]. }
    rewrite dict_set_fresh by done.
    eexists. split; [reflexivity|]. split; simpl.
    + apply good_append; [done|done|].
      intros d Hd. apply Hr2. by apply elem_of_sorted.
    + exists (more ++ [(name image, image)]).
      rewrite Hp2. simpl. by rewrite app_assoc.
    + set_solver.
    + rewrite fmap_app. apply elem_of_app. right. by left.
    + intros m. unfold in_progress at 1. simpl.
      rewrite fmap_app, not_elem_of_app.
      change [(name image, image)].*1 with [name image].
      rewrite list_elem_of_singleton.
      specialize (Hi2 m). unfold in_progress in Hi2 at 2. simpl in Hi2.
      unfold in_progress in *. set_solver.
Qed.

Lemma visit_targets_ok (fuel : nat) (targets : list Image) :
  (size (list_to_set images.*1 : gset string) < fuel)%nat ->
  (forall t, t ∈ targets -> dict_get images (name t) = Some t) ->
  forall st,
    good st -> (forall m, ~ in_progress st m) ->
    exists st',
      visit_targets fuel images targets st = Some (Ok st')
      /\ good st' /\ (forall m, ~ in_progress st' m)
      /\ (exists more, resolved st' = resolved st ++ more)
      /\ (forall t, t ∈ targets -> name t ∈ (resolved st').*1).
Proof.
  intros Hfuel. induction targets as [|t ts IH]; intros Hreg st Hgood Hnone.
  - exists st. simpl. split_and!; try done.
    + exists []. by rewrite app_nil_r.
    + intros t Ht. by apply elem_of_nil in Ht.
  - simpl.
    destruct (visit_ok fuel t [] st) as (st1 & Hv & [Hg1 [m1 Hp1] Hs1 Hr1 Hi1]).
    + done.
    + apply Hreg. left.
    + intros m Hm. by apply Hnone in Hm.
    + pose proof (unvisited_bound st). lia.
    + rewrite Hv.
      destruct (IH (fun t' Ht' => Hreg t' (proj2 (elem_of_cons _ _ _) (or_intror Ht')))
                   st1)
        as (st2 & Hloop & Hg2 & Hn2 & [m2 Hp2] & Hr2).
      * done.
      * intros m Hm%Hi1. by apply Hnone in Hm.
      * exists st2. split; [done|]. split; [done|]. split; [done|]. split.
        { exists (m1 ++ m2). by rewrite Hp2, Hp1, app_assoc. }
        intros t' [->|Ht']%elem_of_cons; [|by apply Hr2].
        rewrite Hp2, fmap_app. apply elem_of_app. by left.
Qed.

End resolver.

Lemma size_keys_le (images : list (string * Image)) :
  (size (list_to_set images.*1 : gset string) <= length images)%nat.
Proof.
  induction images as [|[k v] l IH]; simpl.
  - change (size (∅ : gset string) <= 0)%nat. by rewrite size_empty.
  - change (size ({[k]} ∪ list_to_set l.*1 : gset string) <= S (length l))%nat.
    rewrite size_union_alt, size_singleton.
    pose proof (subseteq_size
      ((list_to_set l.*1 : gset string) ∖ {[k]}) (list_to_set l.*1)
      ltac:(set_solver)).
    lia.
Qed.

Lemma good_empty : good (mkVisitState [] ∅).
Proof.
  split; simpl.
  - intros k img H. by apply elem_of_nil in H.
  - apply NoDup_nil_2.
  - intros l1 k img l2 H. by destruct l1.
Qed.

Lemma good_topological (st : VisitState) :
  good st -> topological (map snd (resolved st)).
Proof.
  intros [Hn _ Ht] i img d Hi Hd.
  rewrite list_lookup_fmap in Hi.
  destruct (resolved st !! i) as [[k img']|] eqn:Hi'; simpl in Hi; [|done].
  injection Hi as ->.
  pose proof (take_drop_middle _ _ _ Hi') as Hsplit.
  pose proof (Ht _ _ _ _ (eq_sym Hsplit) d Hd) as Hin.
  apply list_elem_of_fmap in Hin as ([k' dep] & -> & Hin).
  apply list_elem_of_lookup in Hin as [j Hj].
  apply lookup_take_Some in Hj as [Hj Hlt].
  exists j, dep. split; [done|]. split.
  - by rewrite list_lookup_fmap, Hj.
  - apply Hn. apply list_elem_of_lookup. by exists j.
Qed.

Lemma good_keys (st : VisitState) :
  good st -> (resolved st).*1 = map name (map snd (resolved st)).
Proof.
  intros [Hn _ _]. induction (resolved st) as [|[k img] l IH]; simpl; [done|].
  rewrite (Hn k img) by left. f_equal. apply IH.
  intros k' img' H. apply Hn. by right.
Qed.

(** ** [DependencySet.__init__] keeps the order it is given *)

Lemma DependencySet_add_Ok (w : World) (known : list string) (d : Image)
    (acc acc' : DependencySet) (s s' : Store) :
  DependencySet_add w known d acc s = (s', Ok acc') ->
  exists deps, acc' = dict_set acc (name d) (ResolvedImage_init d deps).
Proof.
  unfold DependencySet_add, mbind, lift, set_acquired, ret. simpl.
  destruct (for_each _ _ _) as [deps|e]; simpl; [|discriminate].
  destruct (spec w _) as [sp|e]; simpl; [|discriminate].
  intros [= _ <-]. by exists deps.
Qed.

Lemma mfold_cons {A S} (x : A) (xs : list A) (body : A -> S -> M S) (acc : S) :
  mfold (x :: xs) body acc = mbind (body x acc) (fun acc' => mfold xs body acc').
Proof. reflexivity. Qed.

Lemma DependencySet_mfold_order (w : World) (known : list string)
    (todo : list Image) :
  forall (acc ds : DependencySet) (s s' : Store),
    mfold todo (DependencySet_add w known) acc s = (s', Ok ds) ->
    NoDup (acc.*1 ++ map name todo) ->
    exists fresh, ds = acc ++ fresh
                  /\ map (fun e => image e.2) fresh = todo
                  /\ fresh.*1 = map name todo.
Proof.
  induction todo as [|d todo IH]; intros acc ds s s' Hrun Hnodup.
  - injection Hrun as _ <-. exists []. by rewrite app_nil_r.
  - rewrite mfold_cons in Hrun. unfold mbind at 1 in Hrun.
    destruct (DependencySet_add w known d acc s) as [s1 [acc1|e]] eqn:Hadd;
      [|discriminate].
    apply DependencySet_add_Ok in Hadd as [deps ->].
    assert (Hfresh : name d ∉ acc.*1).
    { apply NoDup_app in Hnodup as (_ & Hdisj & _).
      intros Hin. apply (Hdisj _ Hin). simpl. left. }
    rewrite dict_set_fresh in Hrun by done.
    apply IH in Hrun as (fresh & -> & Himg & Hkeys).
    + exists ((name d, ResolvedImage_init d deps) :: fresh).
      split; [by rewrite <- app_assoc|]. simpl. split; [by rewrite Himg|].
      change (name d :: fresh.*1 = name d :: map name todo). by rewrite Hkeys.
    + rewrite fmap_app. simpl. by rewrite <- app_assoc.
Qed.

Lemma DependencySet_init_order (w : World) (order : list Image)
    (s s' : Store) (ds : DependencySet) :
  NoDup (map name order) ->
  DependencySet_init w order s = (s', Ok ds) ->
  map image (DependencySet_iter ds) = order.
Proof.
  intros Hnodup. unfold DependencySet_init, mbind at 1.
  destruct (docker_images w s) as [s1 [known|e]]; [|discriminate].
  intros (fresh & -> & Himg & _)%DependencySet_mfold_order; [|done].
  unfold DependencySet_iter. simpl. by rewrite map_map.
Qed.

(** ** C7: the order of [resolve_dependencies] *)

(** C7.  On a repository as [Repository.__init__] leaves it (images registered
    under their names, dependencies registered) whose dependency graph is
    acyclic, and for targets taken from it, [resolve_dependencies] terminates
    without error with an order that holds the targets and is topological:
    every image stands strictly after all of its dependencies.  The
    [DependencySet] built from it iterates in exactly this order. *)
Theorem C7_resolve_dependencies_topological (w : World) (repo : Repository)
    (targets : list Image) :
  keys_named (images repo) -> closed (images repo) -> acyclic (images repo) ->
  (forall t, t ∈ targets -> dict_get (images repo) (name t) = Some t) ->
  exists order,
    resolve_order (images repo) targets = Some (Ok order)
    /\ resolve_dependencies w repo targets = Some (DependencySet_init w order)
    /\ topological order
    /\ (forall t, t ∈ targets -> name t ∈ map name order)
    /\ forall s s' ds,
         DependencySet_init w order s = (s', Ok ds) ->
         map image (DependencySet_iter ds) = order
         /\ topological (map image (DependencySet_iter ds)).
Proof.
  intros Hnamed Hclosed Hacyclic Htargets.
  destruct (visit_targets_ok (images repo) Hnamed Hclosed Hacyclic
              (S (S (length (images repo)))) (Py.sorted_by name targets))
    with (st := mkVisitState [] ∅)
    as (st & Hrun & Hgood & _ & _ & Hin).
  - pose proof (size_keys_le (images repo)). lia.
  - intros t Ht. apply Htargets. by apply elem_of_sorted_by in Ht.
  - apply good_empty.
  - intros m [Hm _]. simpl in Hm. set_solver.
  - exists (map snd (resolved st)).
    assert (Horder : resolve_order (images repo) targets
                     = Some (Ok (map snd (resolved st))))
      by (unfold resolve_order; by rewrite Hrun).
    split; [done|]. split; [unfold resolve_dependencies; by rewrite Horder|].
    split; [by apply good_topological|]. split.
    + intros t Ht. rewrite <- good_keys by done. apply Hin.
      by apply elem_of_sorted_by.
    + intros s s' ds Hinit.
      assert (Heq : map image (DependencySet_iter ds) = map snd (resolved st)).
      { eapply DependencySet_init_order; [|exact Hinit].
        rewrite <- good_keys by done. by destruct Hgood. }
      split; [done|]. rewrite Heq. by apply good_topological.
Qed.

Lemma keys_named_check (images : list (string * Image)) :
  keys_named_b images = true -> keys_named images.
Proof.
  intros H k img Hget%dict_get_Some_elem.
  unfold keys_named_b in H. rewrite forallb_forall in H.
  apply list_elem_of_In, H in Hget. by apply String.eqb_eq in Hget.
Qed.

Lemma closed_check (images : list (string * Image)) :
  closed_b images = true -> closed images.
Proof.
  intros H n d (img & Hget%dict_get_Some_elem & Hd).
  unfold closed_b in H. rewrite forallb_forall in H.
  apply list_elem_of_In, H in Hget. simpl in Hget.
  rewrite forallb_forall in Hget. apply list_elem_of_In, Hget in Hd.
  unfold dict_mem in Hd. by destruct (dict_get images d).
Qed.

Lemma acyclic_check (rank : string -> nat) (images : list (string * Image)) :
  ranked_b rank images = true -> acyclic images.
Proof.
  intros H.
  assert (Hstep : forall n d, depends images n d -> (rank d < rank n)%nat).
  { intros n d (img & Hget%dict_get_Some_elem & Hd).
    unfold ranked_b in H. rewrite forallb_forall in H.
    apply list_elem_of_In, H in Hget. simpl in Hget.
    rewrite forallb_forall in Hget. apply list_elem_of_In, Hget in Hd.
    by apply Nat.ltb_lt in Hd. }
  assert (Htc : forall n m, tc (depends images) n m -> (rank m < rank n)%nat).
  { intros n m Hnm. induction Hnm as [n m Hd|n m k Hd _ IH].
    - by apply Hstep.
    - apply Hstep in Hd. lia. }
  intros n Hn. apply Htc in Hn. lia.
Qed.

Lemma C7_resolve_dependencies_topological_witness :
  exists order,
    resolve_order Example.diamond [Example.mk_image "a" true ["c"; "b"]]
    = Some (Ok order)
    /\ map name order = ["c"; "b"; "a"]
    /\ topological order.
Proof.
  destruct (C7_resolve_dependencies_topological Example.world0
              (Example.repository Example.diamond)
              [Example.mk_image "a" true ["c"; "b"]])
    as (order & Hrun & _ & Htopo & _).
  - apply keys_named_check. reflexivity.
  - apply closed_check. reflexivity.
  - apply (acyclic_check Example.diamond_rank). reflexivity.
  - intros t Ht. apply list_elem_of_singleton in Ht. subst t. reflexivity.
  - exists order. split; [exact Hrun|]. split; [|exact Htopo].
    simpl in Hrun. vm_compute in Hrun. injection Hrun as <-. reflexivity.
Defined.

(** ** C6: circular dependencies *)

Lemma visit_unfold (fuel : nat) (images : list (string * Image))
    (image : Image) (path : list string) (st : VisitState) :
  visit (S fuel) images image path st
  = if dict_mem (resolved st) (name image) then Some (Ok st)
    else if bool_decide (name image ∈ visiting st) then
      Some (Raise (circular_dependency (path ++ [name image])))
    else
      let st := mkVisitState (resolved st) ({[name image]} ∪ visiting st) in
      match visit_children images
              (fun child => visit fuel images child (path ++ [name image]))
              (Py.sorted (depends_on image)) st with
      | Some (Ok st') =>
          Some (Ok (mkVisitState (dict_set (resolved st') (name image) image)
                                 (visiting st')))
      | r => r
      end.
Proof. reflexivity. Qed.

(** Entering an image that is being visited: the error carries the current
    path extended by the name. *)
Lemma visit_reentry (fuel : nat) (images : list (string * Image))
    (image : Image) (path : list string) (st : VisitState) :
  in_progress st (name image) ->
  visit (S fuel) images image path st
  = Some (Raise (circular_dependency (path ++ [name image]))).
Proof.
  intros [Hvis Hres]. rewrite visit_unfold.
  destruct (dict_mem (resolved st) (name image)) eqn:Hmem.
  - by apply dict_mem_keys in Hmem.
  - by rewrite bool_decide_true.
Qed.

(** Entering a fresh image with a single dependency: one step of the walk. *)
Lemma visit_single_child (fuel : nat) (images : list (string * Image))
    (image child : Image) (path : list string) (st : VisitState) (e : exn) :
  resolved st = [] ->
  name image ∉ visiting st ->
  depends_on image = [name child] ->
  dict_get images (name child) = Some child ->
  visit fuel images child (path ++ [name image])
        (mkVisitState [] ({[name image]} ∪ visiting st))
  = Some (Raise e) ->
  visit (S fuel) images image path st = Some (Raise e).
Proof.
  intros Hres Hvis Hdeps Hget Hchild. rewrite visit_unfold, Hres. simpl.
  rewrite bool_decide_false by done. rewrite Hdeps. simpl.
  rewrite Hget, Hchild. reflexivity.
Qed.

(** C6.  For three images with pairwise different names where the first
    depends on the second, the second on the third and the third on the
    first, [resolve_dependencies] of the first fails with the circular
    dependency error whose path is first, second, third, first.  In general,
    entering an image that is being visited fails with the current path
    extended by the name of that image. *)
Theorem C6_circular_dependency_path :
  (forall (a b c : Image) (w : World) (rd : RepositoryDetails),
      name a <> name b -> name b <> name c -> name a <> name c ->
      depends_on a = [name b] -> depends_on b = [name c] ->
      depends_on c = [name a] ->
      let repo := {| Repository_rd := rd;
                     images := [(name a, a); (name b, b); (name c, c)];
                     compositions := [] |} in
      let error := circular_dependency [name a; name b; name c; name a] in
      resolve_order (images repo) [a] = Some (Raise error)
      /\ resolve_dependencies w repo [a] = Some (raise error))
  /\ (forall fuel images image path st,
        in_progress st (name image) ->
        visit (S fuel) images image path st
        = Some (Raise (circular_dependency (path ++ [name image])))).
Proof.
  split; [|intros; by apply visit_reentry].
  intros a b c w rd Hab Hbc Hac Ha Hb Hc repo error.
  assert (Hrun : resolve_order (images repo) [a] = Some (Raise error)).
  { unfold resolve_order.
    change (S (S (length (images repo)))) with 5%nat.
    change (Py.sorted_by name [a]) with [a]. cbn [visit_targets].
    assert (Hgb : dict_get (images repo) (name b) = Some b).
    { simpl. rewrite (proj2 (String.eqb_neq _ _) Hab).
      by rewrite String.eqb_refl. }
    assert (Hgc : dict_get (images repo) (name c) = Some c).
    { simpl. rewrite (proj2 (String.eqb_neq _ _) Hac).
      rewrite (proj2 (String.eqb_neq _ _) Hbc). by rewrite String.eqb_refl. }
    assert (Hga : dict_get (images repo) (name a) = Some a).
    { simpl. by rewrite String.eqb_refl. }
    rewrite (visit_single_child 4 (images repo) a b [] _ error);
      [reflexivity | reflexivity | set_solver | done | done |].
    rewrite (visit_single_child 3 (images repo) b c [name a] _ error);
      [reflexivity | reflexivity | set_solver | done | done |].
    rewrite (visit_single_child 2 (images repo) c a [name a; name b] _ error);
      [reflexivity | reflexivity | set_solver | done | done |].
    apply (visit_reentry 1 (images repo) a [name a; name b; name c]).
    split; simpl; [set_solver | apply not_elem_of_nil]. }
  split; [exact Hrun|]. unfold resolve_dependencies. by rewrite Hrun.
Qed.

Lemma C6_circular_dependency_path_witness :
  resolve_order Example.cycle [Example.mk_image "a" true ["b"]]
  = Some (Raise (ValueError "circular dependency in mzbuild: a -> b -> c -> a")).
Proof.
  destruct C6_circular_dependency_path as [H _].
  apply (H (Example.mk_image "a" true ["b"]) (Example.mk_image "b" true ["c"])
           (Example.mk_image "c" true ["a"]) Example.world0 Example.rd0);
    (discriminate || reflexivity).
Defined.

(** ** C10: who writes [acquired] *)

Lemma keeps_ret {A} (a : A) : keeps_acquired (ret a).
Proof. by intros s. Qed.

Lemma keeps_raise {A} (e : exn) : keeps_acquired (raise e : M A).
Proof. by intros s. Qed.

Lemma keeps_lift {A} (r : result A) : keeps_acquired (lift r).
Proof. by intros s. Qed.

Lemma keeps_mbind {A B} (c : M A) (k : A -> M B) :
  keeps_acquired c -> (forall a, keeps_acquired (k a)) ->
  keeps_acquired (mbind c k).
Proof.
  intros Hc Hk s. unfold mbind. specialize (Hc s).
  destruct (c s) as [s' [a|e]]; simpl in *; [|done].
  by rewrite Hk.
Qed.

Lemma keeps_mfor {A} (xs : list A) (body : A -> M unit) :
  (forall x, keeps_acquired (body x)) -> keeps_acquired (mfor xs body).
Proof.
  intros Hbody. induction xs as [|x xs IH]; [apply keeps_ret|].
  change (mfor (x :: xs) body) with (mbind (body x) (fun _ => mfor xs body)).
  apply keeps_mbind; [apply Hbody | intros _; apply IH].
Qed.

Lemma keeps_mfilter {A} (xs : list A) (keep : A -> M bool) :
  (forall x, keeps_acquired (keep x)) -> keeps_acquired (mfilter xs keep).
Proof.
  intros Hkeep. induction xs as [|x xs IH]; [apply keeps_ret|].
  change (mfilter (x :: xs) keep)
    with (mbind (keep x) (fun b =>
            mbind (mfilter xs keep) (fun rest =>
              ret (if b then x :: rest else rest)))).
  apply keeps_mbind; [apply Hkeep|]. intros b.
  apply keeps_mbind; [apply IH|]. intros rest. apply keeps_ret.
Qed.

Lemma keeps_mfold {A B} (xs : list A) (body : A -> B -> M B) (acc : B) :
  (forall x acc, keeps_acquired (body x acc)) ->
  keeps_acquired (mfold xs body acc).
Proof.
  intros Hbody. revert acc. induction xs as [|x xs IH]; intros acc;
    [apply keeps_ret|].
  rewrite mfold_cons. apply keeps_mbind; [apply Hbody | intros a; apply IH].
Qed.

Lemma keeps_emit (e : Event) : keeps_acquired (emit e).
Proof. by intros s. Qed.

Lemma keeps_set_pre_acquired (key : string * nat) :
  keeps_acquired (set_pre_acquired key).
Proof. by intros s. Qed.

Lemma keeps_runv (w : World) (cmd : list string) (stdin : option string) :
  keeps_acquired (spawn.runv w cmd stdin).
Proof. by intros s. Qed.

Lemma keeps_capture (w : World) (cmd : list string) :
  keeps_acquired (spawn.capture w cmd).
Proof. by intros s. Qed.

Lemma keeps_is_docker_image_pushed (w : World) (n : string) :
  keeps_acquired (is_docker_image_pushed w n).
Proof. by intros s. Qed.

Lemma keeps_push_all (w : World) (l : list string) :
  keeps_acquired (push_all w l).
Proof. intros s. unfold push_all. by destruct (filter _ _). Qed.

Lemma keeps_attempt (n : nat) (fn : M unit) :
  keeps_acquired fn -> keeps_acquired (spawn.attempt n fn).
Proof.
  intros Hfn. induction n as [|n IH]; intros s; simpl; specialize (Hfn s);
    destruct (fn s) as [s' [u|e]]; simpl in *; try done;
    destruct e; simpl; try done.
  by rewrite IH.
Qed.

Create HintDb keeps.

#[local] Hint Resolve keeps_ret keeps_raise keeps_lift keeps_emit
  keeps_set_pre_acquired keeps_runv keeps_capture keeps_is_docker_image_pushed
  keeps_push_all : keeps.

(** Splits a computation along its binds and loops. *)
Ltac keeps :=
  repeat first
    [ apply keeps_mbind; [|intros ?]
    | apply keeps_mfor; intros ?
    | apply keeps_mfold; intros ? ?
    | apply keeps_mfilter; intros ?
    | progress auto with keeps
    | match goal with
      | |- keeps_acquired (if ?b then _ else _) => destruct b
      | |- keeps_acquired (match ?x with _ => _ end) => destruct x
      end ].

Lemma keeps_PreImage_run (w : World) (p : PreImage) (index : nat)
    (prep : option string) : keeps_acquired (PreImage_run w p index prep).
Proof.
  unfold PreImage_run. destruct (pre_kind p).
  - unfold Copy_run. keeps.
  - unfold CargoBuild_build, CargoBuild_copy, CargoBuild_extract_line. keeps.
Qed.

Lemma keeps_build (w : World) (ri : ResolvedImage)
    (prep : list (string * option string)) : keeps_acquired (build w ri prep).
Proof.
  unfold build, ui.section. keeps. apply keeps_PreImage_run.
Qed.

Lemma keeps_is_published_if_necessary (w : World) (ri : ResolvedImage) :
  keeps_acquired (is_published_if_necessary w ri).
Proof. unfold is_published_if_necessary, ui.say. keeps. Qed.

Lemma keeps_prepare_batch (w : World) (images : list ResolvedImage) :
  keeps_acquired (_prepare_batch w images).
Proof.
  unfold _prepare_batch, prepare_batch, CargoBuild_prepare_batch, ui.section.
  keeps.
Qed.

Lemma keeps_ensure (w : World) (ds : DependencySet)
    (post_build : option (ResolvedImage -> M unit)) :
  (forall f ri, post_build = Some f -> keeps_acquired (f ri)) ->
  keeps_acquired (ensure w ds post_build).
Proof.
  intros Hpost. unfold ensure, ui.section.
  apply keeps_mbind;
    [apply keeps_mfilter; intros dep; apply keeps_mbind;
     [apply keeps_is_published_if_necessary | intros; apply keeps_ret]|].
  intros deps_to_build.
  apply keeps_mbind; [apply keeps_prepare_batch|]. intros prep.
  apply keeps_mbind; [|intros; keeps].
  apply keeps_mfold. intros dep acc.
  apply keeps_mbind; [apply keeps_build|]. intros _.
  apply keeps_mbind; [|intros; keeps].
  destruct post_build as [f|]; [by apply Hpost | apply keeps_ret].
Qed.

Lemma keeps_check (w : World) (ds : DependencySet) : keeps_acquired (check w ds).
Proof.
  unfold check. induction (DependencySet_iter ds) as [|dep deps IH];
    [apply keeps_ret|].
  apply keeps_mbind; [apply keeps_is_published_if_necessary|].
  intros [|]; [apply IH | apply keeps_ret].
Qed.

Lemma keeps_build_all (w : World) (deps : list ResolvedImage) :
  keeps_acquired (build_all w deps).
Proof.
  unfold build_all. apply keeps_mbind; [apply keeps_prepare_batch|].
  intros prep. apply keeps_mfor. intros dep. apply keeps_build.
Qed.

Lemma history_app (s : Store) (e : Event) :
  history (mkStore (acquired s) (pre_acquired s) (trace s ++ [e]))
  = history s ++ match e with Run cmd _ => [cmd] | _ => [] end.
Proof. unfold history. simpl. rewrite omap_app. by destruct e. Qed.

(** A pull that [run_with_retries] reports as done has been run, as the last
    command, and has exited with status 0. *)
Lemma attempt_runv_Ok (w : World) (cmd : list string) (n : nat) :
  forall s s',
    spawn.attempt n (spawn.runv w cmd None) s = (s', Ok tt) ->
    acquired s' = acquired s
    /\ exists h, history s' = h ++ [cmd] /\ exit_ok w h cmd = true.
Proof.
  induction n as [|n IH]; intros s s'; simpl;
    destruct (exit_ok w (history s) cmd) eqn:Hok; intros H;
    try discriminate.
  - injection H as <-. split; [done|]. exists (history s).
    by rewrite history_app.
  - injection H as <-. split; [done|]. exists (history s).
    by rewrite history_app.
  - apply IH in H as [Hacq Hh]. by split.
Qed.

(** What [try_pull] does to [acquired]: nothing, or it has pulled the image
    with success and marks this one image. *)
Lemma try_pull_acquired (w : World) (ri : ResolvedImage) (d : Z) (s : Store) :
  let r := try_pull w ri d s in
  acquired r.1 = acquired s
  \/ (r.2 = Ok true
      /\ acquired r.1 = <[ResolvedImage_name ri := true]> (acquired s)
      /\ exists sp h, spec w ri = Ok sp
           /\ history r.1 = h ++ [["docker"; "pull"; sp]]
           /\ exit_ok w h ["docker"; "pull"; sp] = true).
Proof.
  unfold try_pull, mbind, lift, ui.header, emit, get_acquired, set_acquired, ret.
  simpl. destruct (spec w ri) as [sp|e] eqn:Hsp; simpl; [|by left].
  destruct (default false (acquired s !! ResolvedImage_name ri)) eqn:Ha; simpl;
    [by left|].
  unfold spawn.run_with_retries.
  destruct (spawn.attempt _ _ _) as [s' [[]|e]] eqn:Hrun; simpl.
  - apply attempt_runv_Ok in Hrun as [Hacq (h & Hh & Hok)]. simpl in Hacq.
    right. rewrite lookup_insert_eq. split; [done|]. split; [by rewrite Hacq|].
    by exists sp, h.
  - left.
    pose proof (keeps_attempt (retries_within w d)
                  (spawn.runv w ["docker"; "pull"; sp] None)
                  (keeps_runv _ _ _)) as Hk.
    specialize (Hk (mkStore (acquired s) (pre_acquired s)
                            (trace s ++ [Say ("Acquiring " +:+ sp)]))).
    rewrite Hrun in Hk. exact Hk.
Qed.

(** What [DependencySet.__init__] does to [acquired]: each image of the set
    is marked according to whether its spec is listed locally. *)
Lemma DependencySet_mfold_acquired (w : World) (known : list string)
    (todo : list Image) :
  forall (acc ds : DependencySet) (s s' : Store),
    mfold todo (DependencySet_add w known) acc s = (s', Ok ds) ->
    NoDup (acc.*1 ++ map name todo) ->
    (forall n ri, (n, ri) ∈ acc ->
       exists sp, spec w ri = Ok sp
                  /\ acquired s !! n = Some (bool_decide (sp ∈ known))) ->
    forall n ri, (n, ri) ∈ ds ->
      exists sp, spec w ri = Ok sp
                 /\ acquired s' !! n = Some (bool_decide (sp ∈ known)).
Proof.
  induction todo as [|d todo IH]; intros acc ds s s' Hrun Hnodup Hacc.
  - by injection Hrun as <- <-.
  - rewrite mfold_cons in Hrun. unfold mbind at 1 in Hrun.
    destruct (DependencySet_add w known d acc s) as [s1 [acc1|e]] eqn:Hadd;
      [|discriminate].
    assert (Hfresh : name d ∉ acc.*1).
    { apply NoDup_app in Hnodup as (_ & Hdisj & _).
      intros Hin. apply (Hdisj _ Hin). simpl. left. }
    revert Hadd.
    unfold DependencySet_add, mbind, lift, set_acquired, ret. simpl.
    destruct (for_each _ _ _) as [deps|e]; simpl; [|discriminate].
    destruct (spec w _) as [sp|e] eqn:Hsp; simpl; [|discriminate].
    intros [= <- <-].
    rewrite dict_set_fresh in Hrun by done.
    eapply IH; [exact Hrun| |].
    + rewrite fmap_app. simpl. by rewrite <- app_assoc.
    + intros n ri [Hin|Hin%list_elem_of_singleton]%elem_of_app; simpl.
      * destruct (Hacc n ri Hin) as (sp' & Hsp' & Hacq).
        exists sp'. split; [done|].
        assert (n <> name d).
        { intros ->. apply Hfresh, list_elem_of_fmap. by exists (name d, ri). }
        by rewrite !lookup_insert_ne.
      * injection Hin as -> ->. exists sp. split; [done|].
        by rewrite lookup_insert_eq.
Qed.

(** C10.  [build()] leaves the attribute [acquired] of every image as it
    was; so do the whole of [ensure()] (with a callback that does), the
    second half of [acquire()], which builds what was not pulled,
    [is_published_if_necessary()] and [check()].  [try_pull()] either leaves
    all flags alone or has run a successful pull and sets the flag of its own
    image; and after [DependencySet] construction the flag of each member says
    whether its spec is among the locally listed images. *)
Theorem C10_build_keeps_acquired (w : World) :
  (forall ri prep, keeps_acquired (build w ri prep))
  /\ (forall ds post_build,
        (forall f ri, post_build = Some f -> keeps_acquired (f ri)) ->
        keeps_acquired (ensure w ds post_build))
  /\ (forall ds max_duration s,
        acquire w ds max_duration s
        = mbind (pull_all w ds (acquire_duration w max_duration))
                (build_all w) s
        /\ forall deps, keeps_acquired (build_all w deps))
  /\ (forall ri, keeps_acquired (is_published_if_necessary w ri))
  /\ (forall ds, keeps_acquired (check w ds))
  /\ (forall ri d s,
        let r := try_pull w ri d s in
        acquired r.1 = acquired s
        \/ (r.2 = Ok true
            /\ acquired r.1 = <[ResolvedImage_name ri := true]> (acquired s)
            /\ exists sp h, spec w ri = Ok sp
                 /\ history r.1 = h ++ [["docker"; "pull"; sp]]
                 /\ exit_ok w h ["docker"; "pull"; sp] = true))
  /\ (forall order s s' ds,
        NoDup (map name order) ->
        DependencySet_init w order s = (s', Ok ds) ->
        exists known, (docker_images w s).2 = Ok known
          /\ forall n ri, (n, ri) ∈ ds ->
               exists sp, spec w ri = Ok sp
                 /\ acquired s' !! n = Some (bool_decide (sp ∈ known))).
Proof.
  split; [intros; apply keeps_build|].
  split; [intros; by apply keeps_ensure|].
  split; [intros; split; [reflexivity | apply keeps_build_all]|].
  split; [intros; apply keeps_is_published_if_necessary|].
  split; [intros; apply keeps_check|].
  split; [intros; apply try_pull_acquired|].
  intros order s s' ds Hnodup. unfold DependencySet_init, mbind at 1.
  destruct (docker_images w s) as [s1 [known|e]]; [|discriminate].
  intros Hrun. exists known. split; [done|].
  eapply DependencySet_mfold_acquired; [exact Hrun|done|].
  intros n ri H. by apply elem_of_nil in H.
Qed.

(** ** Strings and lines *)

Lemma append_nil_l (b : string) : "" +:+ b = b.
Proof. reflexivity. Qed.

Lemma append_cons (x : ascii) (a b : string) :
  String x a +:+ b = String x (a +:+ b).
Proof. reflexivity. Qed.

Lemma append_assoc (a b c : string) : (a +:+ b) +:+ c = a +:+ (b +:+ c).
Proof.
  induction a as [|x a IH]; [done|]. rewrite !append_cons. by rewrite IH.
Qed.

Lemma append_nil_r (a : string) : a +:+ "" = a.
Proof. induction a as [|x a IH]; [done|]. rewrite append_cons. by rewrite IH. Qed.

Lemma append_eq_nil (a b : string) : a +:+ b = "" -> a = "" /\ b = "".
Proof. destruct a; [done|]. rewrite append_cons. discriminate. Qed.

Lemma contains_append (c : ascii) (a b : string) :
  Str.contains c (a +:+ b) = Str.contains c a || Str.contains c b.
Proof.
  induction a as [|x a IH]; [done|]. rewrite append_cons. simpl.
  rewrite IH. by rewrite orb_assoc.
Qed.

Lemma has_backslash_append (a b : string) :
  Re.has_backslash (a +:+ b) = Re.has_backslash a || Re.has_backslash b.
Proof.
  induction a as [|x a IH]; [done|]. rewrite append_cons. simpl.
  rewrite IH. by rewrite orb_assoc.
Qed.

Lemma plain_append (a b : string) : plain (a +:+ b) = plain a && plain b.
Proof.
  unfold plain. rewrite has_backslash_append, contains_append.
  destruct (Re.has_backslash a), (Re.has_backslash b),
    (Str.contains Io.newline a), (Str.contains Io.newline b); reflexivity.
Qed.

Lemma ends_nl_append (a b : string) :
  b <> "" -> ends_nl (a +:+ b) = ends_nl b.
Proof.
  intros Hb. induction a as [|x a IH]; [done|]. rewrite append_cons. simpl.
  destruct (a +:+ b) eqn:Hab; [|done].
  apply append_eq_nil in Hab as [_ ->]. contradiction.
Qed.

Lemma ends_nl_contains (a : string) :
  Str.contains Io.newline a = false -> ends_nl a = false.
Proof.
  induction a as [|x a IH]; simpl; [done|].
  intros [Hx Ha]%orb_false_elim. destruct a; [done|]. by apply IH.
Qed.

Lemma line_ok_cons (c : ascii) (s : string) :
  s <> "" -> line_ok (String c s) = negb (Ascii.eqb c Io.newline) && line_ok s.
Proof. by destruct s. Qed.

(** Putting a newline-free, non-empty string in front of a line, or of
    nothing, gives a line. *)
Lemma line_ok_prepend (p r : string) :
  p <> "" -> Str.contains Io.newline p = false ->
  (r = "" \/ line_ok r = true) -> line_ok (p +:+ r) = true.
Proof.
  intros Hp Hnl Hr. induction p as [|x p IH]; [done|].
  rewrite append_cons. simpl in Hnl.
  apply orb_false_elim in Hnl as [Hx Hnl].
  destruct (decide (p +:+ r = "")) as [Hnil|Hnil].
  - by rewrite Hnil.
  - rewrite line_ok_cons, Hx by done. simpl.
    destruct p as [|y p].
    + rewrite append_nil_l in *. by destruct Hr.
    + by apply IH.
Qed.

(** The end of a line is a line, or nothing. *)
Lemma line_ok_suffix (a r : string) :
  line_ok (a +:+ r) = true -> r = "" \/ line_ok r = true.
Proof.
  induction a as [|x a IH].
  - intros H. by right.
  - rewrite append_cons. simpl. destruct (a +:+ r) eqn:Har.
    + intros _. left. by apply append_eq_nil in Har as [_ ->].
    + intros [_ H]%andb_prop. by apply IH.
Qed.

Lemma readlines_line (l s : string) :
  line_ok l = true -> ends_nl l = true ->
  Io.readlines (l +:+ s) = l :: Io.readlines s.
Proof.
  induction l as [|c l IH]; [done|]. rewrite append_cons.
  simpl. destruct l as [|c' l].
  - intros _ Hc. rewrite append_nil_l. by rewrite Hc.
  - intros [Hc Hl]%andb_prop Hnl. apply negb_true_iff in Hc.
    rewrite Hc. by rewrite IH.
Qed.

Lemma readlines_last (l : string) :
  line_ok l = true -> ends_nl l = false -> Io.readlines l = [l].
Proof.
  induction l as [|c l IH]; [done|]. simpl. destruct l as [|c' l].
  - intros _ Hc. simpl. by rewrite Hc.
  - intros [Hc Hl]%andb_prop Hnl. apply negb_true_iff in Hc.
    rewrite Hc. by rewrite IH.
Qed.

Lemma readlines_lines_ok (s : string) : lines_ok (Io.readlines s).
Proof.
  induction s as [|c s IH]; simpl; [constructor|].
  destruct (Ascii.eqb c Io.newline) eqn:Hc.
  - destruct (Io.readlines s) eqn:Hs.
    + by apply lines_ok_last.
    + apply lines_ok_cons; [done|simpl; by rewrite Hc|done].
  - inversion IH as [Hnil|l Hl Heq|l ls Hl Hnl Hls Heq].
    + by apply lines_ok_last.
    + apply lines_ok_last. simpl. rewrite Hc. simpl. by destruct l.
    + apply lines_ok_cons; [|by destruct l|done].
      simpl. rewrite Hc. simpl. by destruct l.
Qed.

(** What is written line by line reads back as the same lines. *)
Lemma readlines_concat (ls : list string) :
  lines_ok ls -> Io.readlines (foldr String.append "" ls) = ls.
Proof.
  induction 1 as [|l Hl|l ls Hl Hnl Hls IH]; simpl.
  - reflexivity.
  - destruct (ends_nl l) eqn:Hnl.
    + by rewrite readlines_line.
    + rewrite append_nil_r. by apply readlines_last.
  - rewrite readlines_line by done. by rewrite IH.
Qed.

(** ** The [MZFROM] pattern *)

Lemma strip_prefix_Some (p s r : string) :
  Re.strip_prefix p s = Some r -> s = p +:+ r.
Proof.
  revert s. induction p as [|a p IH]; intros s; simpl.
  - by intros [= ->].
  - destruct s as [|b s]; [discriminate|].
    destruct (Ascii.eqb_spec a b) as [->|]; [|discriminate].
    intros H%IH. rewrite append_cons. by rewrite H.
Qed.

Lemma strip_prefix_app (p s : string) : Re.strip_prefix p (p +:+ s) = Some s.
Proof.
  induction p as [|a p IH]; [done|]. rewrite append_cons. simpl.
  by rewrite Ascii.eqb_refl.
Qed.

Lemma skip_spaces_suffix (s : string) : exists ws, s = ws +:+ Re.skip_spaces s.
Proof.
  induction s as [|c s [ws IH]]; simpl; [by exists ""|].
  destruct (Re.is_space c).
  - exists (String c ws). rewrite append_cons. by rewrite <- IH.
  - by exists "".
Qed.

Lemma span_nonspace_spec (s g r : string) :
  Re.span_nonspace s = (g, r) ->
  s = g +:+ r /\ Str.contains Io.newline g = false.
Proof.
  revert g r. induction s as [|c s IH]; intros g r; simpl.
  - by intros [= <- <-].
  - destruct (Re.is_space c) eqn:Hc.
    + by intros [= <- <-].
    + destruct (Re.span_nonspace s) as [g' r'].
      intros [= <- <-]. destruct (IH g' r' eq_refl) as [-> Hg].
      split; [by rewrite append_cons|]. simpl. rewrite Hg, orb_false_r.
      destruct (Ascii.eqb_spec c Io.newline) as [->|]; [|done].
      by vm_compute in Hc.
Qed.

(** A match of the pattern splits the line into a non-empty front, which does
    not end with a newline, and the rest. *)
Lemma mzfrom_match_split (line g r : string) :
  Re.mzfrom_match line = Some (g, r) ->
  exists front, line = front +:+ r /\ front <> "" /\ ends_nl front = false.
Proof.
  unfold Re.mzfrom_match.
  destruct (Re.strip_prefix "MZFROM" line) as [rest|] eqn:Hp; [|discriminate].
  apply strip_prefix_Some in Hp as ->.
  destruct (skip_spaces_suffix rest) as [ws Hws].
  destruct (Re.span_nonspace (Re.skip_spaces rest)) as [g' r'] eqn:Hs.
  apply span_nonspace_spec in Hs as [Hs Hg].
  destruct g' as [|c g']; [discriminate|]. intros [= <- <-].
  exists ("MZFROM" +:+ ws +:+ String c g'). split; [|split].
  - rewrite Hws at 1. rewrite Hs. by rewrite !append_assoc.
  - discriminate.
  - rewrite <- append_assoc, ends_nl_append by discriminate.
    by apply ends_nl_contains.
Qed.

Lemma skip_spaces_split (s : string) :
  exists ws, s = ws +:+ Re.skip_spaces s
             /\ Re.all_chars Re.is_space ws = true
             /\ match Re.skip_spaces s with
                | EmptyString => True
                | String c _ => Re.is_space c = false
                end.
Proof.
  induction s as [|c s (ws & IH & Hws & Hc)]; simpl; [by exists ""|].
  destruct (Re.is_space c) eqn:Hsp.
  - exists (String c ws). rewrite append_cons, <- IH. simpl. by rewrite Hsp.
  - exists "". by rewrite Hsp.
Qed.

Lemma span_nonspace_split (s g r : string) :
  Re.span_nonspace s = (g, r) ->
  s = g +:+ r
  /\ Re.all_chars (fun c => negb (Re.is_space c)) g = true
  /\ match r with
     | EmptyString => True
     | String c _ => Re.is_space c = true
     end.
Proof.
  revert g r. induction s as [|c s IH]; intros g r; simpl.
  - by intros [= <- <-].
  - destruct (Re.is_space c) eqn:Hc.
    + intros [= <- <-]. by rewrite Hc.
    + destruct (Re.span_nonspace s) as [g' r'].
      intros [= <- <-]. destruct (IH g' r' eq_refl) as (-> & Hg & Hr).
      split; [by rewrite append_cons|]. simpl. by rewrite Hc.
Qed.

Lemma skip_spaces_app (ws s : string) :
  Re.all_chars Re.is_space ws = true ->
  match s with
  | EmptyString => True
  | String c _ => Re.is_space c = false
  end ->
  Re.skip_spaces (ws +:+ s) = s.
Proof.
  intros Hws Hs. induction ws as [|c ws IH]; simpl in *.
  - rewrite ?append_nil_l. destruct s as [|c s]; [done|]. simpl. by rewrite Hs.
  - apply andb_prop in Hws as [Hc Hws]. rewrite ?append_cons. simpl.
    rewrite Hc. by apply IH.
Qed.

Lemma span_nonspace_app (g r : string) :
  Re.all_chars (fun c => negb (Re.is_space c)) g = true ->
  match r with
  | EmptyString => True
  | String c _ => Re.is_space c = true
  end ->
  Re.span_nonspace (g +:+ r) = (g, r).
Proof.
  intros Hg Hr. induction g as [|c g IH]; simpl in *.
  - rewrite ?append_nil_l. destruct r as [|c r]; [done|]. simpl. by rewrite Hr.
  - apply andb_prop in Hg as [Hc%negb_true_iff Hg]. rewrite ?append_cons.
    simpl. rewrite Hc. by rewrite IH.
Qed.

(** The model of the pattern finds exactly the lines that match [MZFROM] at
    their start, with the name captured and what follows the match. *)
Lemma mzfrom_match_iff (line name rest : string) :
  Re.mzfrom_match line = Some (name, rest) <-> mzfrom_line line name rest.
Proof.
  unfold Re.mzfrom_match, mzfrom_line. split.
  - destruct (Re.strip_prefix "MZFROM" line) as [tail|] eqn:Hp; [|discriminate].
    apply strip_prefix_Some in Hp as ->.
    destruct (skip_spaces_split tail) as (ws & Hws & Hsp & _).
    destruct (Re.span_nonspace (Re.skip_spaces tail)) as [g r] eqn:Hs.
    apply span_nonspace_split in Hs as (Hs & Hg & Hr).
    destruct g as [|c g]; [discriminate|]. intros [= <- <-].
    exists ws. split; [|done].
    f_equal. rewrite Hws at 1. by rewrite Hs.
  - intros (ws & -> & Hws & Hne & Hname & Hrest).
    rewrite strip_prefix_app.
    rewrite skip_spaces_app; [|done|].
    + rewrite span_nonspace_app by done. by destruct name.
    + destruct name as [|c name]; [done|]. rewrite append_cons.
      simpl in Hname. by apply andb_prop in Hname as [Hc%negb_true_iff _].
Qed.

(** Replacing the match by a plain, non-empty string keeps the line a line
    with the same ending. *)
Lemma replace_match_line (line g r p : string) :
  line_ok line = true ->
  Re.mzfrom_match line = Some (g, r) ->
  p <> "" -> plain p = true ->
  Re.mzfrom_sub p line = Re.Expanded (p +:+ r)
  /\ line_ok (p +:+ r) = true
  /\ ends_nl (p +:+ r) = ends_nl line.
Proof.
  intros Hline Hm Hp Hplain.
  apply andb_prop in Hplain as [Hbs%negb_true_iff Hnl%negb_true_iff].
  split; [|split].
  - unfold Re.mzfrom_sub, Re.expand_template. by rewrite Hm, Hbs.
  - apply mzfrom_match_split in Hm as (front & -> & _ & _).
    apply line_ok_prepend; [done|done|]. by eapply line_ok_suffix.
  - apply mzfrom_match_split in Hm as (front & -> & Hf & Hfnl).
    destruct (decide (r = "")) as [->|Hr].
    + rewrite !append_nil_r. rewrite Hfnl. by apply ends_nl_contains.
    + by rewrite !ends_nl_append.
Qed.

(** ** Specs are plain *)

Lemma plain_String (c : ascii) (s : string) :
  plain (String c s) = plain_char c && plain s.
Proof.
  unfold plain, plain_char. simpl.
  destruct (Ascii.eqb c "\"%char), (Ascii.eqb c Io.newline),
    (Re.has_backslash s), (Str.contains Io.newline s); reflexivity.
Qed.

Lemma plain_of_list (l : list ascii) :
  forallb plain_char l = true -> plain (string_of_list_ascii l) = true.
Proof.
  induction l as [|c l IH]; simpl; [done|].
  intros [Hc Hl]%andb_prop. rewrite plain_String, Hc. by apply IH.
Qed.

Lemma name_char_plain (c : ascii) :
  Re.is_name_char c = true -> plain_char c = true.
Proof. destruct c as [[] [] [] [] [] [] [] []]; vm_compute; congruence. Qed.

Lemma valid_name_plain (n : string) :
  Re.search_invalid n = false -> plain n = true.
Proof.
  induction n as [|c n IH]; simpl; [done|].
  intros [Hc Hn]%orb_false_elim. apply negb_false_iff in Hc.
  rewrite plain_String, name_char_plain by done. by apply IH.
Qed.

Lemma symbol_plain (i : Z) : plain_char (Base32.symbol i) = true.
Proof.
  unfold Base32.symbol. generalize (Z.to_nat i) as n. intros n.
  do 33 (destruct n as [|n]; [reflexivity|]). reflexivity.
Qed.

Lemma quantum_plain (n : Z) (k : nat) :
  forallb plain_char (Base32.quantum n k) = true.
Proof.
  unfold Base32.quantum. apply forallb_forall. intros c Hc.
  apply in_map_iff in Hc as (j & <- & _).
  destruct (j <? k)%nat; [apply symbol_plain | reflexivity].
Qed.

Lemma encode_bytes_plain (bs : list Z) :
  forallb plain_char (Base32.encode_bytes bs) = true.
Proof.
  remember (length bs) as n eqn:Hn. revert bs Hn.
  induction n as [n IH] using lt_wf_ind. intros bs Hn.
  destruct bs as [|b0 [|b1 [|b2 [|b3 [|b4 bs]]]]];
    try reflexivity; try apply quantum_plain.
  change (Base32.encode_bytes (b0 :: b1 :: b2 :: b3 :: b4 :: bs))
    with (Base32.quantum (Base32.pack b0 b1 b2 b3 b4) 8
          ++ Base32.encode_bytes bs).
  rewrite forallb_app, quantum_plain. simpl.
  apply (IH (length bs)); [simpl in Hn; lia | reflexivity].
Qed.

(** The spec of a nameable dependency exists and is plain. *)
Lemma nameable_spec_plain (w : World) (dep : ResolvedImage) :
  nameable w dep ->
  exists sp, spec w dep = Ok sp /\ plain ("FROM " +:+ sp) = true.
Proof.
  intros (Hfp & Hname & Hreg & Hpre). unfold spec.
  destruct (fingerprint w dep) as [fp|e]; [|discriminate]. simpl.
  eexists. split; [reflexivity|].
  unfold docker_name. rewrite (append_cons "m"). 
  rewrite !plain_append, Hreg, Hpre, (valid_name_plain _ Hname).
  unfold Fingerprint_str, Base32.b32encode.
  rewrite <- (append_cons "m"), plain_append.
  rewrite (plain_of_list _ (encode_bytes_plain _)). reflexivity.
Qed.

(** ** C8: [write_dockerfile] *)

Lemma rewrite_line_ok (w : World) (ri : ResolvedImage) (line : string) :
  line_ok line = true ->
  (forall n rest, mzfrom_line line n rest ->
     exists dep, Py.utf8_valid n = true
                 /\ dict_get (dependencies ri) n = Some dep
                 /\ nameable w dep) ->
  exists line',
    rewrite_line w ri line = Ok line'
    /\ rewritten w ri line line'
    /\ line_ok line' = true /\ ends_nl line' = ends_nl line.
Proof.
  intros Hline Hdeps. unfold rewrite_line.
  destruct (Re.mzfrom_match line) as [[n rest]|] eqn:Hm.
  - pose proof (proj1 (mzfrom_match_iff _ _ _) Hm) as Hspec.
    destruct (Hdeps n rest Hspec) as (dep & Hutf & Hget & Hdep).
    destruct (nameable_spec_plain w dep Hdep) as (sp & Hsp & Hplain).
    destruct (replace_match_line line n rest ("FROM " +:+ sp) Hline Hm)
      as (Hsub & Hl & Hnl); [discriminate|done|].
    exists (("FROM " +:+ sp) +:+ rest).
    unfold decode, dict_item. rewrite Hutf. simpl. rewrite Hget. simpl.
    rewrite Hsp. simpl. rewrite Hsub. split; [done|]. split; [|done].
    left. exists n, rest, dep, sp. by rewrite append_assoc.
  - exists line. split; [done|]. split; [|done]. right. split; [|done].
    intros n rest H%mzfrom_match_iff. congruence.
Qed.

Lemma lines_ok_all (ls : list string) :
  lines_ok ls -> Forall (fun l => line_ok l = true) ls.
Proof. induction 1; repeat constructor; done. Qed.

Lemma lines_ok_Forall2 (ls ls' : list string) :
  lines_ok ls ->
  Forall2 (fun l l' => line_ok l' = true /\ ends_nl l' = ends_nl l) ls ls' ->
  lines_ok ls'.
Proof.
  intros Hls. revert ls'. induction Hls as [|l Hl|l ls Hl Hnl Hls IH];
    intros ls' H2.
  - apply Forall2_nil_inv_l in H2 as ->. constructor.
  - apply Forall2_cons_inv_l in H2 as (l' & t & [Hl' _] & Ht%Forall2_nil_inv_l & ->).
    subst t. by apply lines_ok_last.
  - apply Forall2_cons_inv_l in H2 as (l' & t & [Hl' Hnl'] & Ht & ->).
    apply lines_ok_cons; [done|congruence|by apply IH].
Qed.

Lemma write_lines (w : World) (ri : ResolvedImage) (ls outs : list string) :
  Forall2 (fun l l' => rewrite_line w ri l = Ok l') ls outs ->
  forall f,
    for_each ls (fun line f => line <- rewrite_line w ri line ;; Ok (f +:+ line)) f
    = Ok (f +:+ foldr String.append "" outs).
Proof.
  induction 1 as [|l l' ls outs Hl _ IH]; intros f; simpl.
  - by rewrite append_nil_r.
  - rewrite Hl. simpl. rewrite IH. by rewrite append_assoc.
Qed.

(** C8 (counterexample).  In a repository whose registry is named [reg\1]
    the spec of the dependency [b] is [reg\1/b:mzbuild-...], and
    [write_dockerfile()] hands it to [re] as a replacement template, in which
    [\1] stands for the name captured: the line written is not [FROM]
    followed by the spec. *)
Lemma C8_counterexample_backslash_in_registry :
  spec Example.world0 (ResolvedImage_init
                         (Example.in_repository Example.rd_backslash
                            Example.image_b) [])
  = Ok "reg\1/b:mzbuild-ADBZJP5TQHOOMIYUYUKDUNSCTBAXODRU"
  /\ write_dockerfile Example.world0 Example.resolved_a_backslash
     = Ok ("FROM regb/b:mzbuild-ADBZJP5TQHOOMIYUYUKDUNSCTBAXODRU AS base"
           +:+ Example.nl +:+ "RUN true" +:+ Example.nl)
  /\ ~ rewritten Example.world0 Example.resolved_a_backslash
        ("MZFROM b AS base" +:+ Example.nl)
        ("FROM regb/b:mzbuild-ADBZJP5TQHOOMIYUYUKDUNSCTBAXODRU AS base"
         +:+ Example.nl).
Proof.
  split; [vm_compute; reflexivity|]. split; [vm_compute; reflexivity|].
  intros [(n & rest & dep & sp & Hm%mzfrom_match_iff & Hget & Hsp & Hline)
         |[_ Hline]]; [|discriminate].
  vm_compute in Hm. injection Hm as <- <-.
  vm_compute in Hget. injection Hget as <-.
  vm_compute in Hsp. injection Hsp as <-.
  vm_compute in Hline. discriminate.
Qed.

(** C8 (amended).  When the container build file can be read, every line
    that matches [MZFROM] names a dependency of the image whose fingerprint
    can be computed, and the registry and the prefix of the repository have
    neither a backslash nor a newline, as Docker names have not,
    [write_dockerfile()] returns bytes with as many lines as the source, in
    the same order; a line that does not match [MZFROM] at its start is
    byte-identical, and a line that does is [FROM], a space, the spec of the
    dependency named, and what followed the match on that line. *)
Theorem C8_write_dockerfile_rewrites_only_mzfrom_lines (w : World)
    (ri : ResolvedImage) (content : string) :
  read_file w (Io.path_join (path (image ri)) "Dockerfile") = Some content ->
  (forall line n rest,
      line ∈ Io.readlines content ->
      mzfrom_line line n rest ->
      exists dep, Py.utf8_valid n = true
                  /\ dict_get (dependencies ri) n = Some dep
                  /\ nameable w dep) ->
  exists out,
    write_dockerfile w ri = Ok out
    /\ length (Io.readlines out) = length (Io.readlines content)
    /\ forall (i : nat) line,
         Io.readlines content !! i = Some line ->
         exists line', Io.readlines out !! i = Some line'
                       /\ rewritten w ri line line'.
Proof.
  intros Hread Hdeps.
  pose proof (readlines_lines_ok content) as Hok.
  assert (Hall : exists outs,
             Forall2 (fun l l' =>
                        rewrite_line w ri l = Ok l' /\ rewritten w ri l l'
                        /\ line_ok l' = true /\ ends_nl l' = ends_nl l)
                     (Io.readlines content) outs).
  { apply lines_ok_all in Hok. revert Hdeps.
    induction Hok as [|l ls Hl _ IH]; intros Hdeps; [by exists []|].
    destruct (rewrite_line_ok w ri l Hl) as (l' & Hl').
    { intros n rest. apply Hdeps. left. }
    destruct IH as [outs Houts].
    { intros line n rest Hin. apply Hdeps. by right. }
    exists (l' :: outs). by constructor. }
  destruct Hall as [outs Houts].
  exists (foldr String.append "" outs).
  assert (Hlines : Io.readlines (foldr String.append "" outs) = outs).
  { apply readlines_concat. apply (lines_ok_Forall2 _ _ Hok).
    eapply Forall2_impl; [exact Houts|]. naive_solver. }
  split; [|split].
  - unfold write_dockerfile. rewrite Hread. simpl.
    rewrite (write_lines w ri _ outs); [done|].
    eapply Forall2_impl; [exact Houts|]. naive_solver.
  - rewrite Hlines. symmetry. by eapply Forall2_length.
  - intros i line Hi. rewrite Hlines.
    destruct (Forall2_lookup_l _ _ _ _ _ Houts Hi) as (line' & Hi' & _ & Hr & _).
    by exists line'.
Qed.

Lemma C8_write_dockerfile_rewrites_only_mzfrom_lines_witness :
  exists out,
    write_dockerfile Example.world0 Example.resolved_a = Ok out
    /\ length (Io.readlines out) = length (Io.readlines Example.dockerfile_a)
    /\ forall (i : nat) line,
         Io.readlines Example.dockerfile_a !! i = Some line ->
         exists line', Io.readlines out !! i = Some line'
                       /\ rewritten Example.world0 Example.resolved_a line line'.
Proof.
  apply (C8_write_dockerfile_rewrites_only_mzfrom_lines Example.world0
           Example.resolved_a Example.dockerfile_a); [reflexivity|].
  intros line n rest Hin Hm%mzfrom_match_iff. exists Example.resolved_b.
  vm_compute in Hin.
  apply elem_of_cons in Hin as [->|Hin].
  - vm_compute in Hm. injection Hm as <- <-.
    split; [reflexivity|]. split; [reflexivity|].
    repeat split; vm_compute; reflexivity.
  - apply list_elem_of_singleton in Hin as ->. vm_compute in Hm. discriminate.
Defined.

(** ** C1: the fingerprint *)

(** The test [stat.S_ISLNK] reads the file type bits. *)
Lemma S_ISLNK_is_symlink (mode : Z) : S_ISLNK mode = Canonical.is_symlink mode.
Proof.
  unfold S_ISLNK, Canonical.is_symlink, S_IFMT, S_IFLNK.
  assert (H : Z.land mode 61440 = ((mode / 4096) mod 16) * 4096).
  { change 61440 with (Z.shiftl (Z.ones 4) 12).
    change 4096 with (2 ^ 12). change 16 with (2 ^ 4).
    rewrite <- Z.shiftr_div_pow2, <- Z.land_ones, <- Z.shiftl_mul_pow2 by lia.
    apply Z.bits_inj'. intros n Hn.
    rewrite Z.land_spec, !Z.shiftl_spec by lia.
    destruct (Z.ltb_spec n 12).
    - rewrite !(Z.testbit_neg_r _ (n - 12)) by lia. apply andb_false_r.
    - rewrite Z.land_spec, Z.shiftr_spec by lia. do 2 f_equal. lia. }
  rewrite H.
  destruct (Z.eqb_spec ((mode / 4096) mod 16) 10) as [->|Hne]; [done|].
  apply Z.eqb_neq. lia.
Qed.

(** The test [raw_file_mode & stat.S_IXUSR] reads bit 6. *)
Lemma S_IXUSR_owner_executable (mode : Z) :
  negb (Z.land mode S_IXUSR =? 0) = Canonical.owner_executable mode.
Proof.
  unfold S_IXUSR, Canonical.owner_executable.
  assert (H : Z.land mode 64 = if Z.testbit mode 6 then 64 else 0).
  { apply Z.bits_inj'. intros n Hn. rewrite Z.land_spec.
    change 64 with (2 ^ 6). rewrite Z.pow2_bits_eqb by lia.
    destruct (Z.eqb_spec 6 n) as [<-|Hne].
    - rewrite andb_true_r. destruct (Z.testbit mode 6); [|done].
      by rewrite Z.pow2_bits_eqb by lia.
    - rewrite andb_false_r. destruct (Z.testbit mode 6); [|by rewrite Z.bits_0].
      rewrite Z.pow2_bits_eqb by lia. symmetry. by apply Z.eqb_neq. }
  rewrite H. by destruct (Z.testbit mode 6).
Qed.

Lemma simplified_mode_canonical (mode : Z) :
  simplified_mode mode = Canonical.simplified_file_mode mode.
Proof.
  unfold simplified_mode, Canonical.simplified_file_mode.
  by rewrite S_ISLNK_is_symlink, S_IXUSR_owner_executable.
Qed.

Lemma simplified_mode_two_bytes (mode : Z) :
  Py.int_to_bytes (Canonical.simplified_file_mode mode) 2
  = Some (Canonical.two_bytes (Canonical.simplified_file_mode mode)).
Proof.
  unfold Canonical.simplified_file_mode.
  destruct (Canonical.is_symlink mode); [reflexivity|].
  destruct (Canonical.owner_executable mode); reflexivity.
Qed.

(** One pass of the loop over the inputs feeds the record of the file. *)
Lemma hash_input_feeds (w : World) (ri : ResolvedImage) (rel_path : string)
    (h : Sha1.hasher) :
  is_Some (lstat_mode w (Io.path_join (root (rd (image ri))) rel_path)) ->
  is_Some (read_file w (Io.path_join (root (rd (image ri))) rel_path)) ->
  hash_input w (root (rd (image ri))) rel_path h
  = Ok (Sha1.Hasher
          (Sha1.fed h +:+ Canonical.file_record (input_file w ri rel_path))).
Proof.
  intros [mode Hmode] [data Hdata]. unfold hash_input, input_file.
  rewrite Hmode, Hdata. simpl.
  rewrite simplified_mode_canonical, simplified_mode_two_bytes. simpl.
  unfold Sha1.update, Sha1.digest. simpl. rewrite append_nil_l.
  by rewrite !append_assoc.
Qed.

Lemma hash_inputs_feed (w : World) (ri : ResolvedImage) (paths : list string) :
  (forall p, p ∈ paths ->
     is_Some (lstat_mode w (Io.path_join (root (rd (image ri))) p))
     /\ is_Some (read_file w (Io.path_join (root (rd (image ri))) p))) ->
  forall h,
    for_each paths (hash_input w (root (rd (image ri)))) h
    = Ok (Sha1.Hasher
            (Sha1.fed h
             +:+ Canonical.feed Canonical.file_record
                   (map (input_file w ri) paths))).
Proof.
  induction paths as [|p paths IH]; intros Hread h; simpl.
  - rewrite append_nil_r. by destruct h.
  - destruct (Hread p ltac:(left)) as [Hm Hd].
    rewrite hash_input_feeds by done. simpl. rewrite IH.
    + simpl. by rewrite append_assoc.
    + intros q Hq. apply Hread. by right.
Qed.

Lemma extras_feed (pre : list PreImage) (h : Sha1.hasher) :
  foldl (fun h pre_image =>
           Sha1.update (Sha1.update h (extra pre_image)) zero_byte) h pre
  = Sha1.Hasher
      (Sha1.fed h
       +:+ Canonical.feed (fun e => e +:+ zero_byte) (map extra pre)).
Proof.
  revert h. induction pre as [|p pre IH]; intros h; simpl.
  - rewrite append_nil_r. by destruct h.
  - rewrite IH. unfold Sha1.update. simpl. by rewrite !append_assoc.
Qed.

(** Sorting commutes with a map that respects the keys. *)
Lemma sorted_by_map {A B} (f : A -> B) (key : B -> string) (l : list A) :
  Py.sorted_by key (map f l) = map f (Py.sorted_by (fun x => key (f x)) l).
Proof.
  unfold Py.sorted_by. induction l as [|x l IH]; simpl; [done|]. rewrite IH.
  generalize (foldr (Py.insert_sorted (fun x => key (f x))) [] l) as s.
  intros s. induction s as [|y s IHs]; simpl; [done|].
  destruct (String.leb (key (f x)) (key (f y))); simpl; [done|].
  by rewrite IHs.
Qed.

(** The loop over the dependencies, once their fingerprints are known. *)
Lemma deps_feed (deps : list (string * string)) (h : Sha1.hasher) :
  for_each (map (fun d => (d.1, Ok d.2)) deps)
    (fun (dep : string * result string) full_hash =>
       fp <- dep.2 ;;
       let full_hash := Sha1.update full_hash dep.1 in
       let full_hash := Sha1.update full_hash fp in
       Ok (Sha1.update full_hash zero_byte))
    h
  = Ok (Sha1.Hasher
          (Sha1.fed h
           +:+ Canonical.feed (fun d => d.1 +:+ d.2 +:+ zero_byte) deps)).
Proof.
  revert h. induction deps as [|[n fp] deps IH]; intros h; simpl.
  - rewrite append_nil_r. by destruct h.
  - rewrite IH. unfold Sha1.update. simpl. by rewrite !append_assoc.
Qed.

Lemma ResolvedImage_nested_ind (P : ResolvedImage -> Prop) :
  (forall i deps, Forall (fun d => P d.2) deps -> P (mkResolvedImage i deps)) ->
  forall ri, P ri.
Proof.
  intros H. fix IH 1. intros [i deps]. apply H.
  induction deps as [|[k d] deps IHd]; constructor; [apply IH | apply IHd].
Qed.

(** The digest computed by [fingerprint()] is the digest of the canonical
    stream. *)
Lemma fingerprint_canonical (w : World) (ri : ResolvedImage) :
  readable w ri -> fingerprint w ri = Ok (canonical_fingerprint w ri).
Proof.
  induction ri as [i deps IH] using ResolvedImage_nested_ind.
  intros (Hin & Hread & Hdeps).
  assert (Hfps : map (fun dep : string * ResolvedImage =>
                        (ResolvedImage_name dep.2, fingerprint w dep.2)) deps
                 = map (fun d : string * string => (d.1, Ok d.2))
                     (map (fun dep : string * ResolvedImage =>
                             (ResolvedImage_name dep.2,
                              canonical_fingerprint w dep.2)) deps)).
  { clear Hin Hread. simpl in Hdeps. rewrite map_map.
    induction IH as [|[k d] deps Hd _ IHdeps]; simpl in *; [done|].
    destruct Hdeps as [Hr Hdeps]. rewrite (Hd Hr). by rewrite IHdeps. }
  unfold input_paths in Hread.
  change (fingerprint w (mkResolvedImage i deps)) with
    (own <- inputs w false (mkResolvedImage i deps) ;;
     self_hash <- for_each
                    (Py.sorted (Py_set (expand_globs w (root (rd i)) own)))
                    (hash_input w (root (rd i))) Sha1.new ;;
     let self_hash :=
       foldl (fun h pre_image =>
                Sha1.update (Sha1.update h (extra pre_image)) zero_byte)
             self_hash (pre_images i) in
     let self_hash :=
       Sha1.update self_hash ("arch=" +:+ Arch_str (arch (rd i))) in
     let self_hash :=
       Sha1.update self_hash ("coverage=" +:+ Py.str_bool (coverage (rd i))) in
     let self_hash :=
       Sha1.update self_hash
         ("sanitizer=" +:+ Sanitizer_str w (sanitizer (rd i))) in
     let full_hash := Sha1.update Sha1.new (Sha1.digest self_hash) in
     full_hash <- for_each
                    (Py.sorted_by fst
                       (map (fun dep : string * ResolvedImage =>
                               (ResolvedImage_name dep.2, fingerprint w dep.2))
                            deps))
                    (fun (dep : string * result string) full_hash =>
                       fp <- dep.2 ;;
                       let full_hash := Sha1.update full_hash dep.1 in
                       let full_hash := Sha1.update full_hash fp in
                       Ok (Sha1.update full_hash zero_byte))
                    full_hash ;;
     Ok (Sha1.digest full_hash)).
  change (canonical_fingerprint w (mkResolvedImage i deps)) with
    (Canonical.digest
       (map (input_file w (mkResolvedImage i deps))
            (Py.sorted (input_paths w (mkResolvedImage i deps))))
       (map extra (pre_images i))
       (Arch_str (arch (rd i)))
       (Py.str_bool (coverage (rd i)))
       (Sanitizer_str w (sanitizer (rd i)))
       (Py.sorted_by fst
          (map (fun d : string * ResolvedImage =>
                  (ResolvedImage_name d.2, canonical_fingerprint w d.2))
               deps))).
  unfold input_paths.
  destruct (inputs w false (mkResolvedImage i deps)) as [own|e];
    [|discriminate]. simpl bind at 1.
  rewrite (hash_inputs_feed w (mkResolvedImage i deps)).
  2:{ intros p Hp. apply Hread. by apply elem_of_sorted_1. }
  simpl bind at 1. cbv zeta. rewrite extras_feed.
  rewrite Hfps. rewrite (sorted_by_map (fun d : string * string => (d.1, Ok d.2))).
  rewrite deps_feed. simpl bind.
  unfold Canonical.digest, Canonical.full_stream, Canonical.self_stream,
    Sha1.digest, Sha1.update, Sha1.new. simpl Sha1.fed.
  rewrite !append_nil_l. by rewrite !append_assoc.
Qed.

(** C1.  When the inputs of an image and of its dependencies can be listed
    and read, [fingerprint()] returns the digest of the canonical algorithm:
    H is fed, for each input path in sorted order, the simplified file mode
    as 2 big-endian bytes, the relative path, the SHA-1 digest of the content
    and a zero byte; then, for each pre-image action in declared order, its
    [extra()] and a zero byte; then [arch=], [coverage=] and [sanitizer=]
    with their values; F is fed the digest of H and then, for each dependency
    sorted by name, the name, the dependency's 20-byte fingerprint and a zero
    byte; the result is the digest of F.  The paths fed are the input paths
    rearranged in ascending byte order, and the dependencies fed are the
    dependencies rearranged in ascending order of their names. *)
Theorem C1_fingerprint_is_canonical (w : World) (ri : ResolvedImage) :
  readable w ri ->
  fingerprint w ri = Ok (canonical_fingerprint w ri)
  /\ Py.sorted (input_paths w ri) ≡ₚ input_paths w ri
  /\ StronglySorted (key_le (fun p => p)) (Py.sorted (input_paths w ri))
  /\ forall deps : list (string * string),
       Py.sorted_by fst deps ≡ₚ deps
       /\ StronglySorted (key_le fst) (Py.sorted_by fst deps).
Proof.
  intros Hread. split; [by apply fingerprint_canonical|].
  split; [apply sorted_by_Permutation|].
  split; [apply sorted_by_StronglySorted|].
  intros deps. split; [apply sorted_by_Permutation|apply sorted_by_StronglySorted].
Qed.

Lemma C1_fingerprint_is_canonical_witness :
  readable Example.world0 Example.resolved_a
  /\ fingerprint Example.world0 Example.resolved_a
     = Ok (canonical_fingerprint Example.world0 Example.resolved_a)
  /\ Fingerprint_str (canonical_fingerprint Example.world0 Example.resolved_a)
     = "5OMXYP7G5SMBI2AGGHBK7OHZCRTFFPHY"
  /\ Py.sorted (input_paths Example.world0 Example.resolved_a)
     = ["a/Dockerfile"; "a/mzbuild.yml"].
Proof.
  assert (Hr : readable Example.world0 Example.resolved_a).
  { split; [reflexivity|].
    split; [intros p _; simpl; split; (destruct (String.eqb _ _); eauto)|].
    simpl. split; [|exact I].
    split; [reflexivity|].
    split; [intros p _; simpl; split; (destruct (String.eqb _ _); eauto)|].
    exact I. }
  split; [exact Hr|].
  split; [|split; vm_compute; reflexivity].
  exact (proj1 (C1_fingerprint_is_canonical Example.world0 Example.resolved_a
                  Hr)).
Defined.

(** The container build file of image [a] as it is handed to the builder. *)
Example write_dockerfile_a :
  write_dockerfile Example.world0 Example.resolved_a
  = Ok ("FROM materialize/b:mzbuild-ADBZJP5TQHOOMIYUYUKDUNSCTBAXODRU AS base"
        +:+ Example.nl +:+ "RUN true" +:+ Example.nl).
Proof. vm_compute. reflexivity. Qed.

(** [ensure] on a set with the one image [b], which is neither present
    locally nor in the registry: [b] is built and pushed, and its flag stays
    false. *)
Lemma C10_build_keeps_acquired_witness :
  let w := Example.world_empty_registry in
  let ds : DependencySet := [("b", Example.resolved_b)] in
  let s := mkStore {["b" := false]} [] [] in
  acquired (ensure w ds None s).1 = acquired s
  /\ (ensure w ds None s).2 = Ok tt
  /\ history (ensure w ds None s).1
     = [ ["docker"; "manifest"; "inspect";
          "materialize/b:mzbuild-ADBZJP5TQHOOMIYUYUKDUNSCTBAXODRU"];
         ["git"; "clean"; "-ffdX"; "/repo/b"];
         ["docker"; "build"; "-f"; "-"; "--build-arg=ARCH_GCC=x86_64";
          "--build-arg=ARCH_GO=amd64"; "-t";
          "materialize/b:mzbuild-ADBZJP5TQHOOMIYUYUKDUNSCTBAXODRU";
          "--platform=linux/amd64"; "/repo/b"];
         ["sh"; "-c";
          "docker push materialize/b:mzbuild-ADBZJP5TQHOOMIYUYUKDUNSCTBAXODRU | cat"] ].
Proof.
  intros w ds s. split; [|split; vm_compute; reflexivity].
  destruct (C10_build_keeps_acquired w) as (_ & Hensure & _).
  apply (Hensure ds None). intros f ri. discriminate.
Defined.

(** * Further properties of the module *)

(** ** [chmod_x] *)






(** ** Fingerprints and specs *)

Lemma be_bytes_length (len : nat) (n : Z) : length (Py.be_bytes len n) = len.
Proof.
  revert n. induction len as [|len IH]; intros n; simpl; [done|].
  rewrite length_app, IH. simpl. lia.
Qed.

Lemma of_bytes_list_length (l : list Z) :
  String.length (Py.of_bytes_list l) = length l.
Proof.
  unfold Py.of_bytes_list. induction l as [|z l IH]; simpl; [done|].
  by rewrite IH.
Qed.

(** A SHA-1 digest has 20 bytes. *)
Lemma sha1_length (data : string) : String.length (Sha1.sha1 data) = 20%nat.
Proof.
  unfold Sha1.sha1, Sha1.digest_bytes. rewrite of_bytes_list_length.
  destruct (fold_left _ _ _) as [[[[h0 h1] h2] h3] h4].
  by rewrite !length_app, !be_bytes_length.
Qed.

Lemma fingerprint_length (w : World) (ri : ResolvedImage) (fp : string) :
  fingerprint w ri = Ok fp -> String.length fp = 20%nat.
Proof.
  destruct ri as [i deps]. simpl. intros H.
  apply bind_Ok in H as (own & _ & H).
  apply bind_Ok in H as (self_hash & _ & H).
  apply bind_Ok in H as (full_hash & _ & H).
  injection H as <-. apply sha1_length.
Qed.

Lemma symbol_base32 (i : Z) :
  0 <= i < 32 -> is_base32_char (Base32.symbol i) = true.
Proof.
  intros Hi. unfold Base32.symbol.
  assert (Hn : (Z.to_nat i < 32)%nat) by lia.
  revert Hn. generalize (Z.to_nat i) as n. intros n Hn.
  do 32 (destruct n as [|n]; [reflexivity|]). lia.
Qed.

Lemma quantum_full (n : Z) :
  length (Base32.quantum n 8) = 8%nat
  /\ forallb is_base32_char (Base32.quantum n 8) = true.
Proof.
  split; [reflexivity|]. unfold Base32.quantum.
  apply forallb_forall. intros c Hc.
  apply in_map_iff in Hc as (j & <- & Hj). apply in_seq in Hj.
  destruct (Nat.ltb_spec j 8); [|lia].
  apply symbol_base32. apply Z.mod_pos_bound. lia.
Qed.

(** A multiple of five bytes is encoded without padding. *)
Lemma encode_bytes_full (k : nat) :
  forall bs, length bs = (5 * k)%nat ->
    length (Base32.encode_bytes bs) = (8 * k)%nat
    /\ forallb is_base32_char (Base32.encode_bytes bs) = true.
Proof.
  induction k as [|k IH]; intros bs Hlen.
  - destruct bs; [done|simpl in Hlen; lia].
  - destruct bs as [|b0 [|b1 [|b2 [|b3 [|b4 bs]]]]]; simpl in Hlen; try lia.
    change (Base32.encode_bytes (b0 :: b1 :: b2 :: b3 :: b4 :: bs))
      with (Base32.quantum (Base32.pack b0 b1 b2 b3 b4) 8
            ++ Base32.encode_bytes bs).
    destruct (IH bs) as [Hl Hc]; [lia|].
    destruct (quantum_full (Base32.pack b0 b1 b2 b3 b4)) as [Hl' Hc'].
    rewrite length_app, forallb_app, Hl, Hl', Hc, Hc'. split; [lia|done].
Qed.

Lemma to_bytes_list_length (s : string) :
  length (Py.to_bytes_list s) = String.length s.
Proof.
  unfold Py.to_bytes_list. rewrite length_map.
  induction s as [|c s IH]; simpl; [done|]. by rewrite IH.
Qed.

Lemma string_of_list_ascii_length (l : list ascii) :
  String.length (string_of_list_ascii l) = length l.
Proof. induction l as [|c l IH]; simpl; [done|]. by rewrite IH. Qed.

Lemma Fingerprint_str_shape (fp : string) :
  String.length fp = 20%nat ->
  String.length (Fingerprint_str fp) = 32%nat
  /\ forallb is_base32_char (list_ascii_of_string (Fingerprint_str fp)) = true.
Proof.
  intros Hlen. unfold Fingerprint_str, Base32.b32encode.
  rewrite string_of_list_ascii_length, list_ascii_of_string_of_list_ascii.
  apply (encode_bytes_full 4). by rewrite to_bytes_list_length.
Qed.

(** X2.  A spec is the name of the image in the registry, a colon, the word
    [mzbuild-] and the fingerprint in base32: a fingerprint has 20 bytes, and
    its text has 32 characters, all of them capital letters or digits from 2
    to 7, without padding. *)
Theorem spec_is_name_and_fingerprint_tag (w : World) (ri : ResolvedImage)
    (sp : string) :
  spec w ri = Ok sp ->
  exists fp,
    fingerprint w ri = Ok fp
    /\ String.length fp = 20%nat
    /\ String.length (Fingerprint_str fp) = 32%nat
    /\ forallb is_base32_char (list_ascii_of_string (Fingerprint_str fp)) = true
    /\ sp = docker_name (image ri) None +:+ ":mzbuild-" +:+ Fingerprint_str fp.
Proof.
  unfold spec. intros H. apply bind_Ok in H as (fp & Hfp & H).
  injection H as <-. exists fp.
  pose proof (fingerprint_length w ri fp Hfp) as Hlen.
  destruct (Fingerprint_str_shape fp Hlen) as [Hl Hc].
  split; [done|]. split; [done|]. split; [done|]. split; [done|].
  unfold docker_name. rewrite (append_cons "m").
  rewrite <- (append_cons "m"). by rewrite !append_assoc.
Qed.

Lemma spec_is_name_and_fingerprint_tag_witness :
  exists fp,
    fingerprint Example.world0 Example.resolved_b = Ok fp
    /\ String.length fp = 20%nat
    /\ "materialize/b:mzbuild-ADBZJP5TQHOOMIYUYUKDUNSCTBAXODRU"
       = docker_name (image Example.resolved_b) None
         +:+ ":mzbuild-" +:+ Fingerprint_str fp.
Proof.
  destruct (spec_is_name_and_fingerprint_tag Example.world0 Example.resolved_b
              "materialize/b:mzbuild-ADBZJP5TQHOOMIYUYUKDUNSCTBAXODRU")
    as (fp & H1 & H2 & _ & _ & H3); [vm_compute; reflexivity|].
  exists fp. split; [exact H1|]. split; [exact H2 | exact H3].
Defined.

(** ** The text of a fingerprint determines the fingerprint *)

Lemma base32_value_symbol (i : Z) :
  0 <= i < 32 -> base32_value (Base32.symbol i) = i.
Proof.
  intros Hi. rewrite <- (Z2Nat.id i) at 2 by lia. unfold Base32.symbol.
  assert (Hn : (Z.to_nat i < 32)%nat) by lia.
  revert Hn. generalize (Z.to_nat i) as n. intros n Hn.
  do 32 (destruct n as [|n]; [reflexivity|]). lia.
Qed.

Lemma div_pow32_succ (n k : Z) :
  0 <= k -> n / 32 ^ (k + 1) = n / 32 ^ k / 32.
Proof.
  intros Hk. rewrite Z.pow_add_r, Z.pow_1_r by lia.
  rewrite Z.div_div by lia. reflexivity.
Qed.

Lemma base32_number_quantum (n : Z) :
  0 <= n < 2 ^ 40 -> base32_number (Base32.quantum n 8) = n.
Proof.
  intros Hn. unfold Base32.quantum, base32_number. simpl map. simpl fold_left.
  rewrite !base32_value_symbol by (apply Z.mod_pos_bound; lia).
  change (7 - Z.of_nat 0) with (6 + 1). change (7 - Z.of_nat 1) with (5 + 1).
  change (7 - Z.of_nat 2) with (4 + 1). change (7 - Z.of_nat 3) with (3 + 1).
  change (7 - Z.of_nat 4) with (2 + 1). change (7 - Z.of_nat 5) with (1 + 1).
  change (7 - Z.of_nat 6) with (0 + 1). change (7 - Z.of_nat 7) with 0.
  rewrite (div_pow32_succ n 6), (div_pow32_succ n 5), (div_pow32_succ n 4),
    (div_pow32_succ n 3), (div_pow32_succ n 2), (div_pow32_succ n 1),
    (div_pow32_succ n 0) by lia.
  rewrite Z.pow_0_r, Z.div_1_r.
  change (2 ^ 40) with 1099511627776 in Hn.
  Z.div_mod_to_equations. lia.
Qed.

Lemma pack_bounds (b0 b1 b2 b3 b4 : Z) :
  0 <= b0 < 256 -> 0 <= b1 < 256 -> 0 <= b2 < 256 -> 0 <= b3 < 256 ->
  0 <= b4 < 256 ->
  0 <= Base32.pack b0 b1 b2 b3 b4 < 2 ^ 40.
Proof.
  intros. unfold Base32.pack. change (2 ^ 40) with 1099511627776. lia.
Qed.

Lemma encode_bytes_inj (k : nat) :
  forall l l',
    length l = (5 * k)%nat -> length l' = (5 * k)%nat ->
    Forall (fun b => 0 <= b < 256) l -> Forall (fun b => 0 <= b < 256) l' ->
    Base32.encode_bytes l = Base32.encode_bytes l' -> l = l'.
Proof.
  induction k as [|k IH]; intros l l' Hl Hl' Hb Hb' Heq.
  - destruct l, l'; simpl in *; try lia. done.
  - destruct l as [|b0 [|b1 [|b2 [|b3 [|b4 l]]]]]; simpl in Hl; try lia.
    destruct l' as [|c0 [|c1 [|c2 [|c3 [|c4 l']]]]]; simpl in Hl'; try lia.
    change (Base32.encode_bytes (b0 :: b1 :: b2 :: b3 :: b4 :: l))
      with (Base32.quantum (Base32.pack b0 b1 b2 b3 b4) 8
            ++ Base32.encode_bytes l) in Heq.
    change (Base32.encode_bytes (c0 :: c1 :: c2 :: c3 :: c4 :: l'))
      with (Base32.quantum (Base32.pack c0 c1 c2 c3 c4) 8
            ++ Base32.encode_bytes l') in Heq.
    apply app_inj_1 in Heq as [Hq Hrest]; [|reflexivity].
    repeat match goal with
           | H : Forall _ (_ :: _) |- _ => apply Forall_cons in H as [? H]
           end.
    apply (f_equal base32_number) in Hq.
    rewrite !base32_number_quantum in Hq by by apply pack_bounds.
    rewrite (IH l l'); [|lia|lia|done|done|done].
    unfold Base32.pack in Hq.
    assert (b0 = c0 /\ b1 = c1 /\ b2 = c2 /\ b3 = c3 /\ b4 = c4)
      as (-> & -> & -> & -> & ->) by lia.
    reflexivity.
Qed.

Lemma to_bytes_list_bytes (s : string) :
  Forall (fun b => 0 <= b < 256) (Py.to_bytes_list s).
Proof.
  unfold Py.to_bytes_list. apply Forall_map, Forall_forall. intros a _.
  pose proof (N_ascii_bounded a). simpl. lia.
Qed.

Lemma to_bytes_list_inj (a b : string) :
  Py.to_bytes_list a = Py.to_bytes_list b -> a = b.
Proof.
  unfold Py.to_bytes_list. intros H.
  rewrite <- (string_of_list_ascii_of_string a),
    <- (string_of_list_ascii_of_string b). f_equal.
  revert H. generalize (list_ascii_of_string a) (list_ascii_of_string b).
  intros la. induction la as [|x la IH]; intros [|y lb]; simpl; try done.
  intros [= Hxy Hrest]. f_equal; [|by apply IH].
  apply N2Z.inj in Hxy.
  rewrite <- (ascii_N_embedding x), <- (ascii_N_embedding y). by rewrite Hxy.
Qed.

Lemma string_of_list_ascii_inj (l l' : list ascii) :
  string_of_list_ascii l = string_of_list_ascii l' -> l = l'.
Proof.
  intros H. rewrite <- (list_ascii_of_string_of_list_ascii l),
    <- (list_ascii_of_string_of_list_ascii l'). by rewrite H.
Qed.

(** X3.  Two fingerprints with the same text are the same fingerprint: the
    base32 rendering of 20 bytes loses nothing.  Hence two images with the
    same registry name have the same spec only if their fingerprints are
    equal. *)
Theorem Fingerprint_str_injective (a b : string) :
  String.length a = 20%nat -> String.length b = 20%nat ->
  Fingerprint_str a = Fingerprint_str b ->
  a = b.
Proof.
  intros Ha Hb H. unfold Fingerprint_str, Base32.b32encode in H.
  apply string_of_list_ascii_inj in H.
  apply to_bytes_list_inj.
  apply (encode_bytes_inj 4);
    rewrite ?to_bytes_list_length; auto using to_bytes_list_bytes.
Qed.

Lemma Fingerprint_str_injective_witness :
  Sha1.sha1 "abc" = Sha1.sha1 ("a" +:+ "bc").
Proof.
  apply (Fingerprint_str_injective (Sha1.sha1 "abc") (Sha1.sha1 ("a" +:+ "bc")));
    [apply sha1_length | apply sha1_length | reflexivity].
Defined.

(** ** The job cap under a sanitizer *)

(** X4.  Under a sanitizer and on a machine with at least one CPU and fewer
    than [3 * 2 ^ 50], the value handed to [--jobs] is at least 1 and at most
    the number of CPUs, and it is smaller than the number of CPUs when there
    are two or more. *)
Theorem sanitizer_jobs_between_one_and_cpus (w : World)
    (rd : RepositoryDetails) (bins examples cmd : list string) :
  sanitizer rd <> none -> 1 <= cpu_count w < 3 * 2 ^ 50 ->
  generate_cargo_build_command w rd bins examples = Ok cmd ->
  exists front j,
    cmd = front ++ ["--no-default-features"; "--jobs"; Py.str_int j]
    /\ sanitizer_jobs (cpu_count w) = Ok j
    /\ 1 <= j <= cpu_count w
    /\ (2 <= cpu_count w -> j < cpu_count w).
Proof.
  intros Hsan Hcpu Hcmd. unfold generate_cargo_build_command in Hcmd.
  apply bind_Ok in Hcmd as (acc1 & _ & Hcmd).
  apply bind_Ok in Hcmd as ([cargo_build packages] & _ & Hcmd).
  apply bind_Ok in Hcmd as (tail & Htail & Hcmd).
  injection Hcmd as <-. unfold cargo_build_tail in Htail.
  destruct (decide (sanitizer rd <> none)) as [_|Hn]; [|contradiction].
  pose proof (sanitizer_jobs_nearest (cpu_count w) ltac:(lia)) as Hjobs.
  rewrite Hjobs in Htail. simpl in Htail. injection Htail as <-.
  eexists _, ((2 * cpu_count w + 1) / 3).
  split; [by rewrite !app_assoc|]. split; [done|].
  split; [|intros H2]; Z.div_mod_to_equations; lia.
Qed.

Lemma sanitizer_jobs_between_one_and_cpus_witness :
  exists front j,
    ["cargo"; "build"; "--release"; "--no-default-features"; "--jobs"; "5"]
    = front ++ ["--no-default-features"; "--jobs"; Py.str_int j]
    /\ 1 <= j <= 8.
Proof.
  destruct (sanitizer_jobs_between_one_and_cpus Example.world0
              (Example.details true thread) [] []
              ["cargo"; "build"; "--release"; "--no-default-features";
               "--jobs"; "5"])
    as (front & j & H1 & _ & H2 & _);
    [discriminate | simpl; lia | reflexivity |].
  exists front, j. split; [exact H1 | exact H2].
Defined.

(** ** [str.split] and the name of a package *)

Lemma split_nonempty (c : ascii) (s : string) : Str.split c s <> [].
Proof.
  induction s as [|a s IH]; simpl; [done|].
  destruct (Ascii.eqb a c); [done|]. by destruct (Str.split c s).
Qed.

(** Without the separator there is one part. *)
Lemma split_no_sep (c : ascii) (s : string) :
  Str.contains c s = false -> Str.split c s = [s].
Proof.
  induction s as [|a s IH]; simpl; [done|].
  intros [Ha Hs]%orb_false_elim. rewrite Ha, IH by done. reflexivity.
Qed.

(** The first part ends at the first separator. *)
Lemma split_first (c : ascii) (a b : string) :
  Str.contains c a = false ->
  Str.split c (a +:+ String c b) = a :: Str.split c b.
Proof.
  induction a as [|x a IH]; intros Ha.
  - rewrite append_nil_l. simpl. by rewrite Ascii.eqb_refl.
  - simpl in Ha. apply orb_false_elim in Ha as [Hx Ha].
    rewrite append_cons. simpl. rewrite Hx, IH by done. reflexivity.
Qed.

(** The last part starts after the last separator. *)
Lemma split_last (c : ascii) (a b : string) (d : string) :
  List.last (Str.split c (a +:+ String c b)) d = List.last (Str.split c b) d.
Proof.
  induction a as [|x a IH].
  - rewrite append_nil_l. simpl. rewrite Ascii.eqb_refl.
    pose proof (split_nonempty c b). by destruct (Str.split c b).
  - rewrite append_cons. simpl. destruct (Ascii.eqb x c).
    + pose proof (split_nonempty c (a +:+ String c b)) as Hne.
      rewrite <- IH. by destruct (Str.split c (a +:+ String c b)).
    + rewrite <- IH.
      destruct (Str.split c (a +:+ String c b)) as [|l [|l' ls]] eqn:Hs;
        [by apply split_nonempty in Hs| |done].
      exfalso. clear IH.
      assert (Hlen : (2 <= length (Str.split c (a +:+ String c b)))%nat).
      { clear Hs. induction a as [|y a IHa].
        - rewrite append_nil_l. simpl. rewrite Ascii.eqb_refl.
          pose proof (split_nonempty c b). destruct (Str.split c b); simpl;
            [done|lia].
        - rewrite append_cons. simpl. destruct (Ascii.eqb y c); simpl; [|].
          + pose proof (split_nonempty c (a +:+ String c b)).
            destruct (Str.split c (a +:+ String c b)); simpl in *; [done|lia].
          + destruct (Str.split c (a +:+ String c b)); simpl in *; lia. }
      rewrite Hs in Hlen. simpl in Hlen. lia.
Qed.

(** X5.  The package name that [CargoBuild.build] reads off a package id:
    for an id of the form [source#name@version] it is [name], and for an id
    of the form [directory/name#version] without [@] it is [name]; these are
    the forms named in the code. *)
Theorem package_of_id_forms :
  (forall source name version,
      Str.contains "@" source = false ->
      Str.contains "@" name = false -> Str.contains "#" name = false ->
      package_of_id (source +:+ "#" +:+ name +:+ "@" +:+ version) = name)
  /\ (forall directory name version,
        Str.contains "@" directory = false ->
        Str.contains "@" name = false -> Str.contains "@" version = false ->
        Str.contains "#" directory = false ->
        Str.contains "#" name = false -> Str.contains "/" name = false ->
        package_of_id (directory +:+ "/" +:+ name +:+ "#" +:+ version) = name).
Proof.
  split.
  - intros source name version Hs Hn Hh. unfold package_of_id.
    change ("#" +:+ name +:+ "@" +:+ version)
      with (String "#" (name +:+ String "@" version)).
    rewrite !contains_append. simpl. rewrite contains_append. simpl.
    rewrite Hs, Hn. simpl.
    replace (source +:+ String "#" (name +:+ String "@" version))
      with ((source +:+ String "#" name) +:+ String "@" version)
      by (by rewrite append_assoc, append_cons).
    rewrite split_first by (rewrite contains_append; simpl; by rewrite Hs, Hn).
    simpl hd. rewrite split_last, split_no_sep by done. reflexivity.
  - intros directory name version Hd Hn Hv Hdh Hnh Hns. unfold package_of_id.
    change ("/" +:+ name +:+ "#" +:+ version)
      with (String "/" (name +:+ String "#" version)).
    rewrite !contains_append. simpl. rewrite contains_append. simpl.
    rewrite Hd, Hn, Hv. simpl.
    replace (directory +:+ String "/" (name +:+ String "#" version))
      with ((directory +:+ String "/" name) +:+ String "#" version)
      by (by rewrite append_assoc, append_cons).
    rewrite split_first by (rewrite contains_append; simpl; by rewrite Hdh, Hnh).
    simpl hd. rewrite split_last, split_no_sep by done. reflexivity.
Qed.

Lemma package_of_id_forms_witness :
  package_of_id
    "registry+https://github.com/rust-lang/crates.io-index#num-rational@0.4.0"
  = "num-rational"
  /\ package_of_id "file:///path/to/my-package#0.1.0" = "my-package".
Proof.
  destruct package_of_id_forms as [H1 H2]. split.
  - apply (H1 "registry+https://github.com/rust-lang/crates.io-index"
              "num-rational" "0.4.0"); reflexivity.
  - apply (H2 "file:///path/to" "my-package" "0.1.0"); reflexivity.
Defined.

(** ** The resolver on any repository *)

Lemma chain_snoc (images : list (string * Image)) (p : list string)
    (a d : string) :
  chain images (p ++ [a]) -> depends images a d -> chain images (p ++ [a; d]).
Proof.
  intros Hp Had. induction p as [|x p IH]; simpl in *; [done|].
  destruct p as [|y p]; simpl in *.
  - destruct Hp as [Hxa _]. done.
  - destruct Hp as [Hxy Hp]. split; [done|]. by apply IH.
Qed.

Lemma chain_suffix (images : list (string * Image)) (p q : list string) :
  chain images (p ++ q) -> chain images q.
Proof.
  induction p as [|x p IH]; [done|]. simpl.
  destruct (p ++ q) as [|y r] eqn:Hpq.
  - destruct p, q; try done.
  - intros [_ H]. by apply IH.
Qed.

(** A chain leads from its first name to each later one. *)
Lemma chain_tc (images : list (string * Image)) (a b : string)
    (mid : list string) :
  chain images (a :: mid ++ [b]) -> tc (depends images) a b.
Proof.
  revert a. induction mid as [|x mid IH]; intros a; simpl.
  - intros [H _]. by apply tc_once.
  - intros [Hax H]. eapply tc_l; [exact Hax|]. by apply IH.
Qed.

Lemma chain_prefix (images : list (string * Image)) (p q : list string) :
  chain images (p ++ q) -> chain images p.
Proof.
  induction p as [|x p IH]; [done|]. destruct p as [|y p]; [done|].
  simpl. intros [H1 H2]. split; [done|]. by apply IH.
Qed.

(** A path that closes a cycle leads from its first name to a name that
    reaches itself. *)
Lemma cycle_path_cycle (images : list (string * Image)) (t : string)
    (more : list string) :
  cycle_path images (t :: more) ->
  exists n, rtc (depends images) t n /\ tc (depends images) n n.
Proof.
  intros [Hchain (front & n & Heq & Hin)]. exists n.
  apply list_elem_of_split in Hin as (f1 & f2 & ->).
  rewrite Heq in Hchain.
  assert (Hcycle : tc (depends images) n n).
  { rewrite <- app_assoc in Hchain. apply chain_suffix in Hchain.
    by apply chain_tc in Hchain. }
  split; [|done].
  destruct f1 as [|x f1]; simpl in Heq; injection Heq as Ht Hmore.
  - subst t. apply rtc_refl.
  - subst x. apply tc_rtc. apply (chain_tc images t n f1).
    apply (chain_prefix images _ (f2 ++ [n])).
    simpl in Hchain. simpl. by rewrite <- !app_assoc in *.
Qed.

Lemma unvisited_le_size (images : list (string * Image)) (st : VisitState) :
  (unvisited images st <= size (list_to_set images.*1 : gset string))%nat.
Proof. unfold unvisited. apply subseteq_size. set_solver. Qed.

Lemma unvisited_anti (images : list (string * Image)) (st st' : VisitState) :
  visiting st ⊆ visiting st' ->
  (unvisited images st' <= unvisited images st)%nat.
Proof. intros H. unfold unvisited. apply subseteq_size. set_solver. Qed.

Lemma unvisited_decrease (images : list (string * Image)) (st : VisitState)
    (n : string) :
  n ∈ images.*1 -> n ∉ visiting st ->
  (unvisited images (mkVisitState (resolved st) ({[n]} ∪ visiting st))
   < unvisited images st)%nat.
Proof.
  intros Hin Hnot. unfold unvisited. simpl. apply subset_size.
  split; [set_solver|]. intros Hsub.
  assert (Hn : n ∈ (list_to_set images.*1 : gset string) ∖ visiting st)
    by (apply elem_of_difference; split; [by apply elem_of_list_to_set|done]).
  apply Hsub in Hn. set_solver.
Qed.

Section resolver_general.
Variable images : list (string * Image).
Hypothesis Hnamed : keys_named images.
Hypothesis Hclosed : closed images.

Lemma visit_children_general
    (rec : Image -> VisitState -> option (result VisitState)) (f : nat)
    (path : list string) :
  (forall child st,
      good st -> registered images st ->
      dict_get images (name child) = Some child ->
      (forall m, in_progress st m <-> m ∈ path) ->
      chain images (path ++ [name child]) ->
      (unvisited images st < f)%nat ->
      visit_post images path st (name child) (rec child st)) ->
  forall ds st,
    good st -> registered images st ->
    (forall d, d ∈ ds -> is_Some (dict_get images d)) ->
    (forall m, in_progress st m <-> m ∈ path) ->
    (forall d, d ∈ ds -> chain images (path ++ [d])) ->
    (unvisited images st < f)%nat ->
    match visit_children images rec ds st with
    | Some (Ok st') =>
        good st' /\ registered images st'
        /\ (exists more, resolved st' = resolved st ++ more)
        /\ visiting st ⊆ visiting st'
        /\ (forall d, d ∈ ds -> d ∈ (resolved st').*1)
        /\ (forall m, in_progress st' m <-> in_progress st m)
        /\ (forall k, k ∈ (resolved st').*1 ->
              k ∈ (resolved st).*1
              \/ exists d, d ∈ ds /\ rtc (depends images) d k)
    | Some (Raise e) =>
        exists d more, d ∈ ds
          /\ e = circular_dependency (path ++ d :: more)
          /\ cycle_path images (path ++ d :: more)
    | None => False
    end.
Proof.
  intros Hrec ds. induction ds as [|d ds IH];
    intros st Hgood Hreg Hsome Hpath Hchain Hf.
  - simpl. split_and!; try done.
    + exists []. by rewrite app_nil_r.
    + intros d Hd. by apply elem_of_nil in Hd.
    + intros k Hk. by left.
  - simpl. destruct (Hsome d ltac:(left)) as [child Hchild].
    rewrite Hchild.
    assert (Hname : name child = d) by by apply Hnamed.
    pose proof (Hrec child st Hgood Hreg) as Hc. rewrite Hname in Hc.
    specialize (Hc Hchild Hpath (Hchain d ltac:(left)) Hf).
    destruct (rec child st) as [[st1|e]|]; simpl in Hc; [| |done].
    2:{ destruct Hc as (more & -> & Hc). exists d, more.
        split_and!; [left|done|done]. }
    destruct Hc as ([Hg1 [m1 Hp1] Hs1 Hr1 Hi1] & Hreg1 & Hreach1).
    specialize (IH st1 Hg1 Hreg1).
    assert (Hf1 : (unvisited images st1 < f)%nat).
    { pose proof (unvisited_anti images st st1 Hs1). lia. }
    assert (Hsome' : forall d', d' ∈ ds -> is_Some (dict_get images d'))
      by (intros d' Hd'; apply Hsome; by right).
    assert (Hpath' : forall m, in_progress st1 m <-> m ∈ path)
      by (intros m; by rewrite Hi1).
    assert (Hchain' : forall d', d' ∈ ds -> chain images (path ++ [d']))
      by (intros d' Hd'; apply Hchain; by right).
    specialize (IH Hsome' Hpath' Hchain' Hf1).
    destruct (visit_children images rec ds st1) as [[st2|e]|]; [| |done].
    + destruct IH as (Hg2 & Hreg2 & [m2 Hp2] & Hs2 & Hr2 & Hi2 & Hreach2).
      split_and!; try done.
      * exists (m1 ++ m2). by rewrite Hp2, Hp1, app_assoc.
      * set_solver.
      * intros d' [->|Hd']%elem_of_cons; [|by apply Hr2].
        rewrite Hp2, fmap_app. apply elem_of_app. by left.
      * intros m. by rewrite Hi2, Hi1.
      * intros k Hk. destruct (Hreach2 k Hk) as [Hk1|(d' & Hd' & Hrtc)].
        -- destruct (Hreach1 k Hk1) as [?|?]; [by left|].
           right. exists d. split; [left|done].
        -- right. exists d'. split; [by right|done].
    + destruct IH as (d' & more & Hd' & -> & Hcyc).
      exists d', more. split_and!; [by right|done|done].
Qed.

(** With enough fuel, [visit] returns: either it has resolved the image and
    what it depends on, or it reports a path that closes a cycle. *)
Lemma visit_general (fuel : nat) :
  forall image path st,
    good st -> registered images st ->
    dict_get images (name image) = Some image ->
    (forall m, in_progress st m <-> m ∈ path) ->
    chain images (path ++ [name image]) ->
    (unvisited images st < fuel)%nat ->
    visit_post images path st (name image) (visit fuel images image path st).
Proof.
  induction fuel as [|f IH];
    intros image path st Hgood Hreg Himg Hpath Hchain Hf; [lia|].
  rewrite visit_unfold.
  destruct (dict_mem (resolved st) (name image)) eqn:Hmem.
  { simpl. split_and!; [|done|by left]. split; try done.
    - exists []. by rewrite app_nil_r.
    - by apply dict_mem_keys. }
  assert (Hfresh : name image ∉ (resolved st).*1).
  { intros H%dict_mem_keys. congruence. }
  case_bool_decide as Hvis.
  { simpl. exists []. split; [done|]. split; [done|].
    exists path, (name image). split; [done|]. apply Hpath. by split. }
  cbv zeta.
  set (st1 := mkVisitState (resolved st) ({[name image]} ∪ visiting st)).
  set (path1 := path ++ [name image]).
  assert (Hedge : forall d, d ∈ depends_on image ->
                            depends images (name image) d)
    by (intros d Hd; by exists image).
  pose proof (visit_children_general
                (fun child => visit f images child path1) f path1
                (fun child st => IH child path1 st)
                (Py.sorted (depends_on image)) st1) as Hloop.
  assert (Hf1 : (unvisited images st1 < f)%nat).
  { assert (Hin : name image ∈ images.*1)
      by (apply dict_get_is_Some_keys; by rewrite Himg).
    pose proof (unvisited_decrease images st (name image) Hin Hvis) as Hlt.
    fold st1 in Hlt. lia. }
  assert (Hpath1 : forall m, in_progress st1 m <-> m ∈ path1).
  { intros m. unfold path1. rewrite elem_of_app, list_elem_of_singleton.
    rewrite <- Hpath. unfold in_progress, st1. simpl.
    rewrite elem_of_union, elem_of_singleton.
    split; [intros [[->|?] ?]; [by right|by left]|].
    intros [[? ?]| ->]; [by split; [right|]|by split; [left|]]. }
  assert (Hg1 : good st1) by (by destruct Hgood).
  assert (Hsome1 : forall d, d ∈ Py.sorted (depends_on image) ->
                             is_Some (dict_get images d)).
  { intros d Hd%elem_of_sorted_1. eapply Hclosed, Hedge, Hd. }
  assert (Hchain1 : forall d, d ∈ Py.sorted (depends_on image) ->
                              chain images (path1 ++ [d])).
  { intros d Hd%elem_of_sorted_1. unfold path1. rewrite <- app_assoc.
    apply chain_snoc; [done|]. by apply Hedge. }
  specialize (Hloop Hg1 Hreg Hsome1 Hpath1 Hchain1 Hf1).
  destruct (visit_children images _ _ st1) as [[st2|e]|]; [| |done].
  - destruct Hloop as (Hg2 & Hreg2 & [more Hp2] & Hs2 & Hr2 & Hi2 & Hreach2).
    assert (Hfresh2 : name image ∉ (resolved st2).*1).
    { apply (Hi2 (name image)). apply Hpath1. unfold path1.
      apply elem_of_app. right. by left. }
    simpl. rewrite dict_set_fresh by done.
    split_and!.
    + split; simpl.
      * apply good_append; [done|done|].
        intros d Hd. apply Hr2. by apply elem_of_sorted.
      * exists (more ++ [(name image, image)]).
        rewrite Hp2. simpl. by rewrite app_assoc.
      * unfold st1 in Hs2. simpl in Hs2. set_solver.
      * rewrite fmap_app. apply elem_of_app. right. by left.
      * intros m. unfold in_progress at 1. simpl.
        rewrite fmap_app, not_elem_of_app.
        change [(name image, image)].*1 with [name image].
        rewrite list_elem_of_singleton.
        specialize (Hi2 m). unfold in_progress in Hi2 at 2. simpl in Hi2.
        clear Hpath Hpath1 Hreach2 Hr2 Hsome1 Hchain1.
        unfold in_progress in *. set_solver.
    + intros k img [Hin|Hin%list_elem_of_singleton]%elem_of_app;
        [by apply Hreg2|]. by injection Hin as -> ->.
    + intros k. simpl. rewrite fmap_app, elem_of_app.
      intros [Hk|Hk%list_elem_of_singleton]; [|right; subst k; apply rtc_refl].
      destruct (Hreach2 k Hk) as [?|(d & Hd & Hrtc)]; [by left|].
      right. eapply rtc_l; [|exact Hrtc]. by apply Hedge, elem_of_sorted_1.
  - destruct Hloop as (d & more & Hd & -> & Hcyc). simpl.
    exists (d :: more). unfold path1 in *.
    rewrite <- app_assoc in Hcyc. simpl in Hcyc. split; [|done].
    by rewrite <- app_assoc.
Qed.

Lemma visit_targets_general (fuel : nat) (targets : list Image) :
  (size (list_to_set images.*1 : gset string) < fuel)%nat ->
  (forall t, t ∈ targets -> dict_get images (name t) = Some t) ->
  forall st,
    good st -> registered images st -> (forall m, ~ in_progress st m) ->
    match visit_targets fuel images targets st with
    | Some (Ok st') =>
        good st' /\ registered images st'
        /\ (forall m, ~ in_progress st' m)
        /\ (exists more, resolved st' = resolved st ++ more)
        /\ (forall t, t ∈ targets -> name t ∈ (resolved st').*1)
        /\ (forall k, k ∈ (resolved st').*1 ->
              k ∈ (resolved st).*1
              \/ exists t, t ∈ targets /\ rtc (depends images) (name t) k)
    | Some (Raise e) =>
        exists t more, t ∈ targets
          /\ e = circular_dependency (name t :: more)
          /\ cycle_path images (name t :: more)
    | None => False
    end.
Proof.
  intros Hfuel. induction targets as [|t ts IH];
    intros Htargets st Hgood Hreg Hnone.
  - simpl. split_and!; try done.
    + exists []. by rewrite app_nil_r.
    + intros t Ht. by apply elem_of_nil in Ht.
    + intros k Hk. by left.
  - simpl.
    pose proof (visit_general fuel t [] st Hgood Hreg
                  (Htargets t ltac:(left))) as Hv.
    assert (Hpath0 : forall m, in_progress st m <-> m ∈ @nil string).
    { intros m. split; [intros H; by apply Hnone in H|].
      intros H. by apply elem_of_nil in H. }
    assert (Hf0 : (unvisited images st < fuel)%nat)
      by (pose proof (unvisited_le_size images st); lia).
    specialize (Hv Hpath0 I Hf0).
    destruct (visit fuel images t [] st) as [[st1|e]|]; simpl in Hv; [| |done].
    + destruct Hv as ([Hg1 [m1 Hp1] Hs1 Hr1 Hi1] & Hreg1 & Hreach1).
      assert (Htargets' : forall t', t' ∈ ts ->
                                     dict_get images (name t') = Some t')
        by (intros t' Ht'; apply Htargets; by right).
      assert (Hnone1 : forall m, ~ in_progress st1 m)
        by (intros m Hm%Hi1; by apply Hnone in Hm).
      specialize (IH Htargets' st1 Hg1 Hreg1 Hnone1).
      destruct (visit_targets fuel images ts st1) as [[st2|e]|]; [| |done].
      * destruct IH as (Hg2 & Hreg2 & Hn2 & [m2 Hp2] & Hr2 & Hreach2).
        split_and!; try done.
        -- exists (m1 ++ m2). by rewrite Hp2, Hp1, app_assoc.
        -- intros t' [->|Ht']%elem_of_cons; [|by apply Hr2].
           rewrite Hp2, fmap_app. apply elem_of_app. by left.
        -- intros k Hk. destruct (Hreach2 k Hk) as [Hk1|(t' & Ht' & Hrtc)].
           ++ destruct (Hreach1 k Hk1) as [?|?]; [by left|].
              right. exists t. split; [left|done].
           ++ right. exists t'. split; [by right|done].
      * destruct IH as (t' & more & Ht' & -> & Hcyc).
        exists t', more. split_and!; [by right|done|done].
    + destruct Hv as (more & -> & Hcyc). exists t, more.
      split_and!; [left|done|done].
Qed.

End resolver_general.

Lemma registered_empty (images : list (string * Image)) :
  registered images (mkVisitState [] ∅).
Proof. intros k img H. by apply elem_of_nil in H. Qed.

(** What [resolve_dependencies] computes on a repository whose images are
    registered under their names with all dependencies present. *)
Lemma resolve_order_general (images : list (string * Image))
    (targets : list Image) :
  keys_named images -> closed images ->
  (forall t, t ∈ targets -> dict_get images (name t) = Some t) ->
  match resolve_order images targets with
  | Some (Ok order) =>
      topological order /\ NoDup (map name order)
      /\ (forall img, img ∈ order -> dict_get images (name img) = Some img)
      /\ (forall t, t ∈ targets -> name t ∈ map name order)
      /\ (forall n, n ∈ map name order ->
            exists t, t ∈ targets /\ rtc (depends images) (name t) n)
  | Some (Raise e) =>
      exists t more, t ∈ targets
        /\ e = circular_dependency (name t :: more)
        /\ cycle_path images (name t :: more)
  | None => False
  end.
Proof.
  intros Hnamed Hclosed Htargets. unfold resolve_order.
  pose proof (visit_targets_general images Hnamed Hclosed
                (S (S (length images))) (Py.sorted_by name targets)) as H.
  specialize (H ltac:(pose proof (size_keys_le images); lia)).
  assert (Hsorted : forall t, t ∈ Py.sorted_by name targets ->
                              dict_get images (name t) = Some t)
    by (intros t Ht%elem_of_sorted_by; by apply Htargets).
  specialize (H Hsorted (mkVisitState [] ∅) good_empty (registered_empty _)).
  assert (Hnone : forall m, ~ in_progress (mkVisitState [] ∅) m)
    by (intros m [Hm _]; simpl in Hm; set_solver).
  specialize (H Hnone).
  destruct (visit_targets _ _ _ _) as [[st|e]|]; [| |done].
  - destruct H as (Hgood & Hreg & _ & _ & Hin & Hreach).
    split; [by apply good_topological|].
    rewrite <- good_keys by done.
    split; [by destruct Hgood|]. split; [|split].
    + intros img (e & -> & He)%list_elem_of_fmap. destruct e as [k img].
      simpl. destruct Hgood as [Hn _ _]. rewrite (Hn k img He).
      by apply Hreg.
    + intros t Ht. apply Hin. by apply elem_of_sorted_by.
    + intros n Hn. destruct (Hreach n Hn) as [Hn'|(t & Ht & Hrtc)].
      * simpl in Hn'. by apply elem_of_nil in Hn'.
      * exists t. split; [by apply elem_of_sorted_by in Ht|done].
  - destruct H as (t & more & Ht & -> & Hcyc). exists t, more.
    split; [by apply elem_of_sorted_by in Ht|done].
Qed.

Section order_facts.
Variable images : list (string * Image).
Variable order : list Image.
Hypothesis Htopo : topological order.
Hypothesis Hreg : forall img, img ∈ order -> dict_get images (name img) = Some img.

Lemma order_edge (i : nat) (img : Image) (d : string) :
  order !! i = Some img -> depends images (name img) d ->
  exists (j : nat) dep, (j < i)%nat /\ order !! j = Some dep /\ name dep = d.
Proof using Htopo Hreg.
  intros Hi (img0 & Hget & Hd).
  rewrite (Hreg img) in Hget by (by eapply list_elem_of_lookup_2).
  injection Hget as <-. by eapply Htopo.
Qed.

Lemma order_tc (n m : string) :
  tc (depends images) n m ->
  forall (i : nat) img, order !! i = Some img -> name img = n ->
    exists (j : nat) dep, (j < i)%nat /\ order !! j = Some dep /\ name dep = m.
Proof using Htopo Hreg.
  induction 1 as [n m Hd|n x m Hd _ IH]; intros i img Hi Hn; subst n.
  - by eapply order_edge.
  - destruct (order_edge i img x Hi Hd) as (j & dep & Hj & Hdep & Hx).
    destruct (IH j dep Hdep Hx) as (j' & dep' & Hj' & Hdep' & Hm).
    exists j', dep'. split; [lia|done].
Qed.

Lemma order_closed (n m : string) :
  rtc (depends images) n m -> n ∈ map name order -> m ∈ map name order.
Proof using Htopo Hreg.
  intros [->|Htc]%rtc_tc; [done|].
  intros (img & -> & [i Hi]%list_elem_of_lookup)%list_elem_of_fmap.
  destruct (order_tc _ _ Htc i img Hi eq_refl) as (j & dep & _ & Hdep & <-).
  apply list_elem_of_fmap. exists dep. split; [done|].
  by eapply list_elem_of_lookup_2.
Qed.

Lemma order_acyclic (n : string) :
  NoDup (map name order) -> n ∈ map name order -> ~ tc (depends images) n n.
Proof using Htopo Hreg.
  intros Hnodup (img & -> & [i Hi]%list_elem_of_lookup)%list_elem_of_fmap Htc.
  destruct (order_tc _ _ Htc i img Hi eq_refl) as (j & dep & Hj & Hdep & Hn).
  assert (i = j); [|lia].
  eapply (NoDup_lookup _ i j (name img) Hnodup).
  - by rewrite list_lookup_fmap, Hi.
  - rewrite list_lookup_fmap, Hdep. simpl. by rewrite Hn.
Qed.

End order_facts.

(** X6.  On a repository whose images are registered under their names with
    all dependencies present, and for targets taken from it, a successful
    [resolve_dependencies] returns each image at most once, and an image is
    returned if and only if it is a target or can be reached from a target
    along dependencies: nothing is missing and nothing else is included. *)
Theorem resolve_dependencies_is_the_closure (images : list (string * Image))
    (targets order : list Image) :
  keys_named images -> closed images ->
  (forall t, t ∈ targets -> dict_get images (name t) = Some t) ->
  resolve_order images targets = Some (Ok order) ->
  NoDup (map name order)
  /\ (forall img, img ∈ order -> dict_get images (name img) = Some img)
  /\ forall n, n ∈ map name order
               <-> exists t, t ∈ targets /\ rtc (depends images) (name t) n.
Proof.
  intros Hnamed Hclosed Htargets Hrun.
  pose proof (resolve_order_general images targets Hnamed Hclosed Htargets) as H.
  rewrite Hrun in H. destruct H as (Htopo & Hnodup & Hreg & Hin & Hreach).
  split; [done|]. split; [done|]. intros n. split; [apply Hreach|].
  intros (t & Ht & Hrtc).
  eapply (order_closed images order Htopo Hreg); [exact Hrtc|by apply Hin].
Qed.

Lemma resolve_dependencies_is_the_closure_witness :
  "c" ∈ ["c"; "b"]
  <-> exists t, t ∈ [Example.mk_image "b" true ["c"]]
                /\ rtc (depends Example.diamond) (name t) "c".
Proof.
  destruct (resolve_dependencies_is_the_closure Example.diamond
              [Example.mk_image "b" true ["c"]]
              [Example.mk_image "c" true []; Example.mk_image "b" true ["c"]])
    as (_ & _ & H).
  - apply keys_named_check. reflexivity.
  - apply closed_check. reflexivity.
  - intros t Ht. apply list_elem_of_singleton in Ht. subst t. reflexivity.
  - vm_compute. reflexivity.
  - exact (H "c").
Defined.

(** X7.  Under the same conditions [resolve_dependencies] always comes to an
    end.  It succeeds exactly when no target reaches an image that depends
    on itself through one or more steps; and when it fails, the error is the
    circular-dependency error, its path starts at a target, follows
    dependencies step by step, and ends with a name that occurs earlier in
    it. *)
Theorem resolve_dependencies_fails_exactly_on_cycles
    (images : list (string * Image)) (targets : list Image) :
  keys_named images -> closed images ->
  (forall t, t ∈ targets -> dict_get images (name t) = Some t) ->
  (exists r, resolve_order images targets = Some r)
  /\ ((exists order, resolve_order images targets = Some (Ok order))
      <-> ~ exists t n, t ∈ targets /\ rtc (depends images) (name t) n
                        /\ tc (depends images) n n)
  /\ forall e, resolve_order images targets = Some (Raise e) ->
       exists t more, t ∈ targets
         /\ e = circular_dependency (name t :: more)
         /\ cycle_path images (name t :: more).
Proof.
  intros Hnamed Hclosed Htargets.
  pose proof (resolve_order_general images targets Hnamed Hclosed Htargets) as H.
  destruct (resolve_order images targets) as [[order|e]|]; [| |done].
  - destruct H as (Htopo & Hnodup & Hreg & Hin & Hreach).
    split; [by eexists|]. split; [|intros e [=]].
    split; [|intros _; by eexists].
    intros _ (t & n & Ht & Hrtc & Htc).
    eapply (order_acyclic images order Htopo Hreg n Hnodup); [|done].
    eapply (order_closed images order Htopo Hreg); [exact Hrtc|by apply Hin].
  - destruct H as (t & more & Ht & -> & Hcyc).
    split; [by eexists|]. split.
    + split; [intros [order [=]]|].
      intros Hno. exfalso. apply Hno.
      destruct (cycle_path_cycle images (name t) more Hcyc) as (n & Hrtc & Htc).
      by exists t, n.
    + intros e' [= <-]. by exists t, more.
Qed.

Lemma resolve_dependencies_fails_exactly_on_cycles_witness :
  exists t more,
    t ∈ [Example.mk_image "a" true ["b"]]
    /\ circular_dependency ["a"; "b"; "c"; "a"]
       = circular_dependency (name t :: more)
    /\ cycle_path Example.cycle (name t :: more).
Proof.
  destruct (resolve_dependencies_fails_exactly_on_cycles Example.cycle
              [Example.mk_image "a" true ["b"]]) as (_ & _ & H).
  - apply keys_named_check. reflexivity.
  - apply closed_check. reflexivity.
  - intros t Ht. apply list_elem_of_singleton in Ht. subst t. reflexivity.
  - apply (H (circular_dependency ["a"; "b"; "c"; "a"])).
    vm_compute. reflexivity.
Defined.

(** ** [Image]: what construction records *)

Lemma span_nonspace_no_space (s g r : string) :
  Re.span_nonspace s = (g, r) -> no_space g = true.
Proof.
  revert g r. induction s as [|c s IH]; intros g r; simpl.
  - by intros [= <- <-].
  - destruct (Re.is_space c) eqn:Hc; [by intros [= <- <-]|].
    destruct (Re.span_nonspace s) as [g' r']. intros [= <- <-].
    unfold no_space. simpl. rewrite Hc. simpl. by eapply IH.
Qed.

Lemma mzfrom_match_name (line g r : string) :
  Re.mzfrom_match line = Some (g, r) -> g <> "" /\ no_space g = true.
Proof.
  unfold Re.mzfrom_match.
  destruct (Re.strip_prefix "MZFROM" line) as [rest|]; [|discriminate].
  destruct (Re.span_nonspace (Re.skip_spaces rest)) as [g' r'] eqn:Hs.
  apply span_nonspace_no_space in Hs.
  destruct g' as [|c g']; [discriminate|]. intros [= <- <-]. by split.
Qed.

Lemma elem_of_mzfrom_names (lines : list string) (d : string) :
  d ∈ mzfrom_names lines
  <-> exists line rest, line ∈ lines /\ Re.mzfrom_match line = Some (d, rest).
Proof.
  unfold mzfrom_names. rewrite list_elem_of_omap. split.
  - intros (line & Hin & Hm).
    destruct (Re.mzfrom_match line) as [[g r]|] eqn:Hmatch; [|discriminate].
    injection Hm as <-. by exists line, r.
  - intros (line & rest & Hin & Hm). exists line. by rewrite Hm.
Qed.

(** The loop of [Image.__init__] over the lines of the Dockerfile. *)
Lemma depends_on_loop (lines : list string) :
  forall acc out,
    for_each lines
      (fun line depends_on =>
         match Re.mzfrom_match line with
         | Some (group1, _) => d <- decode group1 ;; Ok (depends_on ++ [d])
         | None => Ok depends_on
         end)
      acc = Ok out ->
    out = acc ++ mzfrom_names lines
    /\ Forall (fun d => Py.utf8_valid d = true) (mzfrom_names lines).
Proof.
  unfold mzfrom_names.
  induction lines as [|line lines IH]; intros acc out H; simpl in *.
  - injection H as <-. by rewrite app_nil_r.
  - destruct (Re.mzfrom_match line) as [[g r]|]; simpl in *; [|by apply IH].
    unfold decode in H. destruct (Py.utf8_valid g) eqn:Hg; [|discriminate].
    simpl in H. apply IH in H as [-> Hall].
    split; [by rewrite <- app_assoc|by constructor].
Qed.

Lemma depends_on_loop_fails (lines : list string) (line g rest : string) :
  line ∈ lines -> Re.mzfrom_match line = Some (g, rest) ->
  Py.utf8_valid g = false ->
  forall acc,
    is_ok (for_each lines
             (fun line depends_on =>
                match Re.mzfrom_match line with
                | Some (group1, _) =>
                    d <- decode group1 ;; Ok (depends_on ++ [d])
                | None => Ok depends_on
                end)
             acc) = false.
Proof.
  intros Hin Hm Hg. induction lines as [|l lines IH]; intros acc;
    [by apply elem_of_nil in Hin|].
  simpl. apply elem_of_cons in Hin as [<-|Hin].
  - rewrite Hm. unfold decode. by rewrite Hg.
  - destruct (Re.mzfrom_match l) as [[g' r']|]; [|by apply IH].
    unfold decode. destruct (Py.utf8_valid g'); simpl; [by apply IH|done].
Qed.

(** What a successful [Image.__init__] has read and checked. *)
Lemma Image_init_Ok (w : World) (rd0 : RepositoryDetails) (p : string)
    (i : Image) :
  Image_init w rd0 p = Ok i ->
  rd i = rd0 /\ path i = p
  /\ Re.search_invalid (name i) = false
  /\ exists data content,
       load_manifest w (Io.path_join p "mzbuild.yml") = Some data
       /\ m_name data = Some (name i)
       /\ publish i = default true (m_publish data)
       /\ mainline i = default true (m_mainline data)
       /\ read_file w (Io.path_join p "Dockerfile") = Some content
       /\ depends_on i = mzfrom_names (Io.readlines content).
Proof.
  unfold Image_init. intros H.
  apply bind_Ok in H as (data & Hdata%of_option_Ok & H).
  apply bind_Ok in H as (n & Hn%of_option_Ok & H).
  apply bind_Ok in H as (pre & _ & H).
  destruct (Re.search_invalid n) eqn:Hinv; [discriminate|].
  apply bind_Ok in H as (content & Hc%of_option_Ok & H).
  apply bind_Ok in H as (deps & [Hdeps _]%depends_on_loop & H).
  injection H as <-. simpl. split_and!; try done.
  by exists data, content.
Qed.

Lemma Image_init_decoded (w : World) (rd0 : RepositoryDetails) (p : string)
    (i : Image) :
  Image_init w rd0 p = Ok i ->
  Forall (fun d => Py.utf8_valid d = true) (depends_on i).
Proof.
  unfold Image_init. intros H.
  apply bind_Ok in H as (data & _ & H).
  apply bind_Ok in H as (n & _ & H).
  apply bind_Ok in H as (pre & _ & H).
  destruct (Re.search_invalid n); [discriminate|].
  apply bind_Ok in H as (content & _ & H).
  apply bind_Ok in H as (deps & [-> Hall]%depends_on_loop & H).
  by injection H as <-.
Qed.

(** X8.  The dependencies an image records at construction are the names on
    the lines of its Dockerfile that match [MZFROM] at their start, and only
    those: the word [MZFROM], whitespace or none, and then the name, as far
    as it goes without whitespace.  Each recorded name is valid UTF-8; a line
    matching [MZFROM] whose name is not makes the construction fail. *)
Theorem Image_depends_on_are_the_MZFROM_names (w : World)
    (rd0 : RepositoryDetails) (p content : string) :
  read_file w (Io.path_join p "Dockerfile") = Some content ->
  (forall i, Image_init w rd0 p = Ok i ->
     (forall d, d ∈ depends_on i
                <-> exists line rest,
                      line ∈ Io.readlines content /\ mzfrom_line line d rest)
     /\ (forall d, d ∈ depends_on i -> Py.utf8_valid d = true))
  /\ (forall line d rest,
        line ∈ Io.readlines content -> mzfrom_line line d rest ->
        Py.utf8_valid d = false ->
        is_ok (Image_init w rd0 p) = false).
Proof.
  intros Hread. split.
  - intros i Hi. pose proof (Image_init_decoded _ _ _ _ Hi) as Hvalid.
    apply Image_init_Ok in Hi
      as (_ & _ & _ & data & content' & _ & _ & _ & _ & Hc & Hdeps).
    rewrite Hread in Hc. injection Hc as <-. split.
    + intros d. rewrite Hdeps, elem_of_mzfrom_names.
      split; intros (line & rest & Hin & Hm); exists line, rest;
        (split; [done|by apply mzfrom_match_iff]).
    + intros d Hd. rewrite Forall_forall in Hvalid. by apply Hvalid.
  - intros line d rest Hin Hm%mzfrom_match_iff Hd. unfold Image_init.
    destruct (of_option (load_manifest w _) _) as [data|]; [|done]. simpl.
    destruct (of_option (m_name data) _) as [n|]; [|done]. simpl.
    destruct (for_each (default [] (m_pre_image data)) _ _) as [pre|]; [|done].
    simpl. destruct (Re.search_invalid n); [done|].
    rewrite Hread. simpl.
    pose proof (depends_on_loop_fails _ _ _ _ Hin Hm Hd []) as Hfail.
    by destruct (for_each (Io.readlines content) _ _).
Qed.

Lemma Image_depends_on_are_the_MZFROM_names_witness :
  exists i,
    Image_init Sample.world Example.rd0 "/repo/a" = Ok i
    /\ ("b" ∈ depends_on i
        <-> exists line rest,
              line ∈ Io.readlines Example.dockerfile_a
              /\ mzfrom_line line "b" rest).
Proof.
  destruct (Image_depends_on_are_the_MZFROM_names Sample.world Example.rd0
              "/repo/a" Example.dockerfile_a eq_refl) as [H _].
  exists Example.image_a. split; [reflexivity|].
  apply (H Example.image_a eq_refl).
Defined.

(** ** The structure of a [DependencySet] *)

Lemma dict_get_elem_NoDup {V} (d : list (string * V)) (k : string) (v : V) :
  NoDup d.*1 -> (k, v) ∈ d -> dict_get d k = Some v.
Proof.
  induction d as [|[k' v'] d IH]; simpl; [by intros _ ?%elem_of_nil|].
  intros [Hk' Hd]%NoDup_cons [[= -> ->]|Hin]%elem_of_cons.
  - by rewrite String.eqb_refl.
  - destruct (String.eqb_spec k' k) as [->|]; [|by apply IH].
    exfalso. apply Hk'. apply list_elem_of_fmap. by exists (k, v).
Qed.

(** The generator [(self._dependencies[d0] for d0 in d.depends_on)], once
    consumed. *)
Lemma for_each_lookup {V} (ds : list (string * V)) (names : list string) :
  forall (acc out : list V),
    for_each names (fun d0 acc => r <- dict_item ds d0 ;; Ok (acc ++ [r])) acc
    = Ok out ->
    exists rs, out = acc ++ rs
               /\ Forall2 (fun d0 r => dict_get ds d0 = Some r) names rs.
Proof.
  induction names as [|d0 names IH]; intros acc out; simpl.
  - intros [= <-]. exists []. by rewrite app_nil_r.
  - unfold dict_item at 1. destruct (dict_get ds d0) as [r|] eqn:Hget;
      simpl; [|discriminate].
    intros (rs & -> & Hrs)%IH. exists (r :: rs).
    split; [by rewrite <- app_assoc|]. by constructor.
Qed.

(** The [dict] that [ResolvedImage.__init__] builds from members of a set in
    which every image is stored under its name. *)
Lemma init_dependencies_lookup (acc : DependencySet) (names : list string)
    (deps : list ResolvedImage) :
  (forall n r, (n, r) ∈ acc -> ResolvedImage_name r = n) ->
  Forall2 (fun d0 r => dict_get acc d0 = Some r) names deps ->
  forall (init : list (string * ResolvedImage)),
    (forall k v, dict_get init k = Some v -> dict_get acc k = Some v) ->
    let d := foldl (fun d dep => dict_set d (ResolvedImage_name dep) dep)
                   init deps in
    (forall k v, dict_get d k = Some v -> dict_get acc k = Some v)
    /\ forall d0, d0 ∈ names \/ is_Some (dict_get init d0) ->
                  is_Some (dict_get d d0).
Proof.
  intros Hnamed. induction 1 as [|d0 r names deps Hget _ IH]; intros init Hinit.
  - simpl. split; [done|]. intros d0 [Hd0|Hd0]; [by apply elem_of_nil in Hd0|done].
  - simpl.
    assert (Hr : ResolvedImage_name r = d0)
      by (by apply Hnamed, dict_get_Some_elem).
    rewrite Hr.
    destruct (IH (dict_set init d0 r)) as [Hsub Hkeys].
    { intros k v. rewrite dict_get_set.
      destruct (String.eqb_spec d0 k) as [->|]; [by intros [= <-]|apply Hinit]. }
    split; [done|]. intros k Hk. apply Hkeys.
    rewrite dict_get_set. destruct (String.eqb_spec d0 k) as [->|Hne].
    + right. by eexists.
    + destruct Hk as [[->|Hk]%elem_of_cons|Hk]; [done|by left|by right].
Qed.

Lemma DependencySet_add_structure (w : World) (known : list string)
    (d : Image) (acc acc' : DependencySet) (s s' : Store) :
  DependencySet_add w known d acc s = (s', Ok acc') ->
  (forall n r, (n, r) ∈ acc -> ResolvedImage_name r = n) ->
  exists ri,
    acc' = dict_set acc (name d) ri
    /\ image ri = d
    /\ is_ok (spec w ri) = true
    /\ forall d0, d0 ∈ depends_on d ->
         exists dep, dict_get (dependencies ri) d0 = Some dep
                     /\ dict_get acc d0 = Some dep.
Proof.
  unfold DependencySet_add, mbind, lift, set_acquired, ret. simpl.
  destruct (for_each _ _ _) as [deps|e] eqn:Hdeps; simpl; [|discriminate].
  destruct (spec w _) as [sp|e] eqn:Hsp; simpl; [|discriminate].
  intros [= _ <-] Hnamed. exists (ResolvedImage_init d deps).
  split; [done|]. split; [done|]. split; [by rewrite Hsp|].
  apply for_each_lookup in Hdeps as (rs & -> & Hrs). simpl in *.
  destruct (init_dependencies_lookup acc (depends_on d) rs Hnamed Hrs [])
    as [Hsub Hkeys]; [discriminate|].
  intros d0 Hd0. destruct (Hkeys d0 (or_introl Hd0)) as [dep Hdep].
  exists dep. split; [done|]. by apply Hsub.
Qed.

Lemma DependencySet_mfold_structure (w : World) (known : list string)
    (todo : list Image) :
  forall (acc ds : DependencySet) (s s' : Store),
    mfold todo (DependencySet_add w known) acc s = (s', Ok ds) ->
    NoDup (acc.*1 ++ map name todo) ->
    DependencySet_ok w acc ->
    DependencySet_ok w ds
    /\ forall (i : nat) img d0,
         todo !! i = Some img -> d0 ∈ depends_on img ->
         d0 ∈ acc.*1
         \/ exists (j : nat) dep,
              (j < i)%nat /\ todo !! j = Some dep /\ name dep = d0.
Proof.
  induction todo as [|d todo IH]; intros acc ds s s' Hrun Hnodup Hacc.
  - injection Hrun as _ <-. split; [done|]. intros i img d0 Hi. done.
  - rewrite mfold_cons in Hrun. unfold mbind at 1 in Hrun.
    destruct (DependencySet_add w known d acc s) as [s1 [acc1|e]] eqn:Hadd;
      [|discriminate].
    apply DependencySet_add_structure in Hadd
      as (ri & -> & Himg & Hspec & Hdeps); [|intros n r Hin; by apply Hacc].
    assert (Hfresh : name d ∉ acc.*1).
    { apply NoDup_app in Hnodup as (_ & Hdisj & _).
      intros Hin. apply (Hdisj _ Hin). simpl. left. }
    rewrite dict_set_fresh in Hrun by done.
    apply IH in Hrun as [Hds Htopo].
    + split; [done|]. intros i img d0 Hi Hd0. destruct i as [|i]; simpl in Hi.
      * injection Hi as <-. left.
        destruct (Hdeps d0 Hd0) as (dep & _ & Hget).
        apply dict_get_is_Some_keys. by rewrite Hget.
      * destruct (Htopo i img d0 Hi Hd0) as [Hin|(j & dep & Hj & Hdep & Hn)].
        -- rewrite fmap_app in Hin.
           apply elem_of_app in Hin as [Hin|Hin%list_elem_of_singleton];
             [by left|].
           right. exists 0%nat, d. split; [lia|]. split; [done|].
           by rewrite Hin.
        -- right. exists (S j), dep. split; [lia|done].
    + rewrite fmap_app. simpl. by rewrite <- app_assoc.
    + intros n r [Hin|Hin%list_elem_of_singleton]%elem_of_app.
      * destruct (Hacc n r Hin) as (Hn & Hsp & Hd).
        split; [done|]. split; [done|]. intros d0 Hd0.
        destruct (Hd d0 Hd0) as (dep & Hget & Hmem). exists dep.
        split; [done|]. apply elem_of_app. by left.
      * injection Hin as -> ->. unfold ResolvedImage_name. rewrite Himg.
        split; [done|]. split; [done|]. intros d0 Hd0.
        destruct (Hdeps d0 Hd0) as (dep & Hget & Hacc0). exists dep.
        split; [done|]. apply elem_of_app. left. by apply dict_get_Some_elem.
Qed.

(** X9.  A [DependencySet] that could be constructed from images with
    distinct names was given them in topological order: a dependency that
    does not stand earlier makes the construction fail.  Its members stand
    in the given order under their names, the spec of each can be computed,
    and for each name an image depends on, the entry in its [dependencies]
    is the member of the set with that name. *)
Theorem DependencySet_init_structure (w : World) (order : list Image)
    (s s' : Store) (ds : DependencySet) :
  NoDup (map name order) ->
  DependencySet_init w order s = (s', Ok ds) ->
  topological order
  /\ forall (i : nat) img,
       order !! i = Some img ->
       exists ri,
         ds !! i = Some (name img, ri) /\ image ri = img
         /\ DependencySet_getitem ds (name img) = Ok ri
         /\ is_ok (spec w ri) = true
         /\ forall d0, d0 ∈ depends_on img ->
              exists dep, dict_get (dependencies ri) d0 = Some dep
                          /\ DependencySet_getitem ds d0 = Ok dep.
Proof.
  intros Hnodup. unfold DependencySet_init, mbind at 1.
  destruct (docker_images w s) as [s1 [known|e]]; [|discriminate].
  intros Hrun.
  destruct (DependencySet_mfold_order w known order [] ds s1 s' Hrun Hnodup)
    as (fresh & -> & Himg & Hkeys).
  destruct (DependencySet_mfold_structure w known order [] _ s1 s' Hrun Hnodup)
    as [Hok Htopo]; [by intros n ri ?%elem_of_nil|].
  simpl in *.
  assert (Hnd : NoDup fresh.*1) by (by rewrite Hkeys).
  split.
  - intros i img d0 Hi Hd0.
    destruct (Htopo i img d0 Hi Hd0) as [Hin|H]; [by apply elem_of_nil in Hin|done].
  - intros i img Hi.
    assert (Hlen : is_Some (fresh !! i)).
    { apply lookup_lt_is_Some. rewrite <- (length_fmap fst), Hkeys, length_map.
      by eapply lookup_lt_Some. }
    destruct Hlen as [[k ri] Hri]. exists ri.
    assert (Hk : k = name img).
    { assert (H : fresh.*1 !! i = Some k) by (by rewrite list_lookup_fmap, Hri).
      rewrite Hkeys in H. rewrite list_lookup_fmap, Hi in H. by injection H. }
    subst k.
    assert (Hi' : image ri = img).
    { assert (H : map (fun e : string * ResolvedImage => image e.2) fresh !! i
                  = Some (image ri)) by (by rewrite list_lookup_fmap, Hri).
      rewrite Himg, Hi in H. by injection H. }
    assert (Hmem : (name img, ri) ∈ fresh) by (by eapply list_elem_of_lookup_2).
    destruct (Hok _ _ Hmem) as (_ & Hspec & Hdeps).
    split; [done|]. split; [done|].
    split; [unfold DependencySet_getitem, dict_item;
            by rewrite (dict_get_elem_NoDup fresh _ ri Hnd Hmem)|].
    split; [done|]. intros d0 Hd0. rewrite <- Hi' in Hd0.
    destruct (Hdeps d0 Hd0) as (dep & Hget & Hdep). exists dep.
    split; [done|]. unfold DependencySet_getitem, dict_item.
    by rewrite (dict_get_elem_NoDup fresh _ dep Hnd Hdep).
Qed.

Lemma DependencySet_init_structure_witness :
  exists s' ds,
    DependencySet_init Example.world0 [Example.image_b; Example.image_a]
      empty_store = (s', Ok ds)
    /\ topological [Example.image_b; Example.image_a]
    /\ ds !! 1%nat = Some ("a", Example.resolved_a).
Proof.
  destruct (DependencySet_init Example.world0
              [Example.image_b; Example.image_a] empty_store)
    as [s' r] eqn:Hrun.
  assert (Hr : r = Ok [("b", Example.resolved_b); ("a", Example.resolved_a)]).
  { vm_compute in Hrun. by injection Hrun as _ <-. }
  subst r. exists s', [("b", Example.resolved_b); ("a", Example.resolved_a)].
  split; [reflexivity|].
  destruct (DependencySet_init_structure Example.world0
              [Example.image_b; Example.image_a] empty_store s'
              [("b", Example.resolved_b); ("a", Example.resolved_a)])
    as [Htopo _].
  - vm_compute. repeat constructor; set_solver.
  - exact Hrun.
  - split; [exact Htopo | reflexivity].
Defined.

(** ** Rendering the Dockerfile of a member *)

Lemma write_dockerfile_succeeds (w : World) (ri : ResolvedImage)
    (content : string) :
  read_file w (Io.path_join (path (image ri)) "Dockerfile") = Some content ->
  (forall line n rest,
      line ∈ Io.readlines content ->
      mzfrom_line line n rest ->
      exists dep, Py.utf8_valid n = true
                  /\ dict_get (dependencies ri) n = Some dep
                  /\ nameable w dep) ->
  exists out,
    write_dockerfile w ri = Ok out
    /\ Forall2 (rewritten w ri) (Io.readlines content) (Io.readlines out).
Proof.
  intros Hread Hdeps.
  pose proof (readlines_lines_ok content) as Hok.
  assert (Hall : exists outs,
             Forall2 (fun l l' =>
                        rewrite_line w ri l = Ok l' /\ rewritten w ri l l'
                        /\ line_ok l' = true /\ ends_nl l' = ends_nl l)
                     (Io.readlines content) outs).
  { apply lines_ok_all in Hok. revert Hdeps.
    induction Hok as [|l ls Hl _ IH]; intros Hdeps; [by exists []|].
    destruct (rewrite_line_ok w ri l Hl) as (l' & Hl').
    { intros n rest. apply Hdeps. left. }
    destruct IH as [outs Houts].
    { intros line n rest Hin. apply Hdeps. by right. }
    exists (l' :: outs). by constructor. }
  destruct Hall as [outs Houts].
  exists (foldr String.append "" outs).
  assert (Hlines : Io.readlines (foldr String.append "" outs) = outs).
  { apply readlines_concat. apply (lines_ok_Forall2 _ _ Hok).
    eapply Forall2_impl; [exact Houts|]. naive_solver. }
  split.
  - unfold write_dockerfile. rewrite Hread. simpl.
    rewrite (write_lines w ri _ outs); [done|].
    eapply Forall2_impl; [exact Houts|]. naive_solver.
  - rewrite Hlines. eapply Forall2_impl; [exact Houts|]. naive_solver.
Qed.

Lemma spec_fingerprint_ok (w : World) (ri : ResolvedImage) :
  is_ok (spec w ri) = true -> is_ok (fingerprint w ri) = true.
Proof. unfold spec. by destruct (fingerprint w ri). Qed.

(** X10.  In a [DependencySet] constructed from images that [Image]
    construction has produced in the same world, with a registry name and a
    prefix free of backslash and newline, [write_dockerfile] succeeds for
    every member: each [MZFROM] line names a member of the set, none is
    missing from [dependencies], and each line of the output is the line of
    the source, rewritten where it matches. *)
Theorem DependencySet_members_can_be_rendered (w : World) (order : list Image)
    (s s' : Store) (ds : DependencySet) :
  NoDup (map name order) ->
  (forall img, img ∈ order ->
     Image_init w (rd img) (path img) = Ok img
     /\ plain (image_registry (rd img)) = true
     /\ plain (image_prefix (rd img)) = true) ->
  DependencySet_init w order s = (s', Ok ds) ->
  forall n ri, (n, ri) ∈ ds ->
    exists content out,
      read_file w (Io.path_join (path (image ri)) "Dockerfile") = Some content
      /\ write_dockerfile w ri = Ok out
      /\ Forall2 (rewritten w ri) (Io.readlines content) (Io.readlines out).
Proof.
  intros Hnodup Himages. unfold DependencySet_init, mbind at 1.
  destruct (docker_images w s) as [s1 [known|e]]; [|discriminate].
  intros Hrun.
  destruct (DependencySet_mfold_order w known order [] ds s1 s' Hrun Hnodup)
    as (fresh & -> & Himg & Hkeys).
  destruct (DependencySet_mfold_structure w known order [] _ s1 s' Hrun Hnodup)
    as [Hok _]; [by intros n ri ?%elem_of_nil|].
  simpl in *.
  assert (Hmember : forall n ri, (n, ri) ∈ fresh -> image ri ∈ order).
  { intros n ri Hin. rewrite <- Himg. apply list_elem_of_fmap.
    by exists (n, ri). }
  intros n ri Hin.
  destruct (Hok n ri Hin) as (_ & _ & Hdeps).
  destruct (Himages _ (Hmember n ri Hin)) as (Hinit & _ & _).
  pose proof (Image_init_decoded _ _ _ _ Hinit) as Hdecoded.
  apply Image_init_Ok
    in Hinit as (_ & _ & _ & data & content & _ & _ & _ & _ & Hread & Hdep).
  exists content.
  destruct (write_dockerfile_succeeds w ri content Hread) as (out & Hout & Hl).
  - intros line d rest Hline Hmatch%mzfrom_match_iff.
    assert (Hd : d ∈ depends_on (image ri)).
    { rewrite Hdep. apply elem_of_mzfrom_names. by exists line, rest. }
    destruct (Hdeps d Hd) as (dep & Hget & Hmem). exists dep.
    split; [rewrite Forall_forall in Hdecoded; by apply Hdecoded|].
    split; [done|].
    destruct (Hok d dep Hmem) as (_ & Hspec & _).
    destruct (Himages _ (Hmember d dep Hmem)) as (Hinit & Hreg & Hpre).
    apply Image_init_Ok in Hinit as (_ & _ & Hvalid & _).
    split; [by apply spec_fingerprint_ok|]. by split.
  - by exists out.
Qed.

Lemma DependencySet_members_can_be_rendered_witness :
  exists content out,
    read_file Sample.world
      (Io.path_join (path (image Example.resolved_a)) "Dockerfile")
    = Some content
    /\ write_dockerfile Sample.world Example.resolved_a = Ok out
    /\ Forall2 (rewritten Sample.world Example.resolved_a)
               (Io.readlines content) (Io.readlines out).
Proof.
  destruct (DependencySet_init Sample.world
              [Example.image_b; Example.image_a] empty_store)
    as [s' r] eqn:Hrun.
  assert (Hr : r = Ok [("b", Example.resolved_b); ("a", Example.resolved_a)]).
  { vm_compute in Hrun. by injection Hrun as _ <-. }
  subst r.
  apply (DependencySet_members_can_be_rendered Sample.world
           [Example.image_b; Example.image_a] empty_store s'
           [("b", Example.resolved_b); ("a", Example.resolved_a)])
    with (n := "a").
  - vm_compute. repeat constructor; set_solver.
  - intros img [->|[->|[]%elem_of_nil]%elem_of_cons]%elem_of_cons;
      split_and!; reflexivity.
  - exact Hrun.
  - right. left.
Defined.

(** ** [Repository.__init__] *)

Lemma Tree_nested_ind (P : Tree -> Prop) :
  (forall files dirs,
      Forall (fun d : string * option Tree =>
                match d.2 with Some t => P t | None => True end) dirs ->
      P (mkTree files dirs)) ->
  forall t, P t.
Proof.
  intros H. fix IH 1. intros [files dirs]. apply H.
  induction dirs as [|[k [t|]] dirs IHd]; constructor;
    [apply IH | apply IHd | exact I | apply IHd].
Qed.

Lemma register_ok (w : World) (rd0 : RepositoryDetails) (p : string)
    (files : list string) (reg reg' : Registry) :
  Registry_ok w rd0 reg ->
  register w rd0 p files reg = Ok reg' ->
  Registry_ok w rd0 reg'.
Proof.
  intros (Himgs & Hnd & Hndc) H. unfold register in H.
  apply bind_Ok in H as (reg1 & H1 & H).
  assert (Hreg1 : Registry_ok w rd0 reg1).
  { destruct (bool_decide ("mzbuild.yml" ∈ files));
      [|injection H1 as <-; by split].
    apply bind_Ok in H1 as (img & Hinit & H1).
    destruct (String.eqb_spec (name img) "") as [|Hne]; [discriminate|].
    destruct (dict_mem (reg_images reg) (name img)) eqn:Hmem; [discriminate|].
    injection H1 as <-. unfold Registry_ok. simpl.
    assert (Hfresh : name img ∉ (reg_images reg).*1).
    { intros Hin%dict_mem_keys. congruence. }
    rewrite dict_set_fresh by done. split; [|split; [|done]].
    - intros k i [Hin|Hin%list_elem_of_singleton]%elem_of_app;
        [by apply Himgs|].
      injection Hin as -> ->.
      destruct (Image_init_Ok _ _ _ _ Hinit) as (Hrd & Hpath & _).
      split_and!; try done. by rewrite Hpath.
    - rewrite fmap_app. apply NoDup_app. split; [done|]. split.
      + intros x Hx Hx'%list_elem_of_singleton. simpl in Hx'. by subst.
      + apply NoDup_singleton. }
  clear H1. destruct Hreg1 as (Himgs1 & Hnd1 & Hndc1).
  destruct (bool_decide ("mzcompose.py" ∈ files));
    [|injection H as <-; by split].
  destruct (dict_mem (reg_compositions reg1) (Path_name p)) eqn:Hmem;
    [discriminate|].
  injection H as <-. unfold Registry_ok. simpl. split; [done|]. split; [done|].
  assert (Hfresh : Path_name p ∉ (reg_compositions reg1).*1).
  { intros Hin%dict_mem_keys. congruence. }
  rewrite dict_set_fresh by done.
  rewrite fmap_app. apply NoDup_app. split; [done|]. split.
  - intros x Hx Hx'%list_elem_of_singleton. simpl in Hx'. by subst.
  - apply NoDup_singleton.
Qed.

Lemma walk_ok (w : World) (rd0 : RepositoryDetails) (t : Tree) :
  forall (p : string) (reg reg' : Registry),
    Registry_ok w rd0 reg ->
    walk w rd0 t p reg = Ok reg' ->
    Registry_ok w rd0 reg'.
Proof.
  induction t as [files dirs IH] using Tree_nested_ind.
  intros p reg reg' Hreg H. simpl in H.
  apply bind_Ok in H as (names & _ & H).
  apply bind_Ok in H as (reg1 & H1 & H).
  apply register_ok in H1; [|done].
  revert reg1 H1 H. induction names as [|d names IHn]; intros reg1 H1 H.
  - by injection H as <-.
  - simpl in H. apply bind_Ok in H as (reg2 & H2 & H).
    apply (IHn reg2); [|done].
    destruct (dict_get _ d) as [go|] eqn:Hgo; [|by injection H2 as <-].
    apply dict_get_Some_elem, list_elem_of_fmap in Hgo
      as ([k sub] & [= -> ->] & Hin).
    rewrite Forall_forall in IH. specialize (IH _ Hin). simpl in *.
    destruct sub as [sub|]; [by eapply IH|by injection H2 as <-].
Qed.

Lemma validate_dependencies_Ok (images : list (string * Image)) :
  validate_dependencies images = Ok tt ->
  forall k img d, (k, img) ∈ images -> d ∈ depends_on img ->
                  dict_mem images d = true.
Proof.
  unfold validate_dependencies.
  generalize images at 1 3 as todo. intros todo.
  induction todo as [|e todo IH]; intros H k img d Hin Hd;
    [by apply elem_of_nil in Hin|].
  simpl in H. apply bind_Ok in H as ([] & He & H).
  apply elem_of_cons in Hin as [Heq|Hin]; [|by eapply IH].
  subst e. simpl in He. clear H IH. revert He Hd.
  induction (depends_on img) as [|d' ds IHd]; intros He Hd;
    [by apply elem_of_nil in Hd|].
  simpl in He. destruct (dict_mem images d') eqn:Hmem; [|discriminate].
  simpl in He. apply elem_of_cons in Hd as [->|Hd]; [done|by apply IHd].
Qed.

(** X11.  A repository that could be constructed is well-formed: every image
    is registered under its own name, no name is registered twice, every
    name of a dependency is registered, and every image is what [Image]
    construction gives for its directory, with a name that is not empty and
    consists of letters, digits and hyphens only.  No composition name is
    registered twice. *)
Theorem Repository_init_well_formed (w : World) (rd0 : RepositoryDetails)
    (t : option Tree) (repo : Repository) :
  Repository_init w rd0 t = Ok repo ->
  keys_named (images repo) /\ closed (images repo)
  /\ NoDup (images repo).*1 /\ NoDup (compositions repo).*1
  /\ forall img, img ∈ Repository_iter repo ->
       dict_get (images repo) (name img) = Some img
       /\ Spec.name_ok (name img) = true
       /\ rd img = rd0
       /\ Image_init w rd0 (path img) = Ok img.
Proof.
  unfold Repository_init. intros H.
  apply bind_Ok in H as (reg & Hwalk & H).
  apply bind_Ok in H as ([] & Hval & H). injection H as <-. simpl.
  assert (Hreg : Registry_ok w rd0 reg).
  { assert (H0 : Registry_ok w rd0 (mkRegistry [] [])).
    { split; [by intros k img ?%elem_of_nil|]. split; apply NoDup_nil_2. }
    destruct t as [t|]; [by eapply walk_ok|by injection Hwalk as <-]. }
  destruct Hreg as (Himgs & Hnd & Hndc).
  split_and!; try done.
  - intros k img Hget%dict_get_Some_elem. by apply Himgs.
  - intros n d (img & Hget%dict_get_Some_elem & Hd).
    pose proof (validate_dependencies_Ok _ Hval n img d Hget Hd) as Hmem.
    unfold dict_mem in Hmem. by destruct (dict_get (reg_images reg) d).
  - intros img ([k i] & -> & Hin)%list_elem_of_fmap. simpl.
    destruct (Himgs k i Hin) as (Hk & Hne & Hrd & Hinit).
    split_and!; try done.
    + rewrite Hk. by apply dict_get_elem_NoDup.
    + rewrite name_ok_search_invalid.
      destruct (Image_init_Ok _ _ _ _ Hinit) as (_ & _ & -> & _).
      rewrite Hk. by destruct (String.eqb_spec k "").
Qed.

Lemma Repository_init_well_formed_witness :
  exists repo,
    Repository_init Sample.world Example.rd0 (Some Sample.tree) = Ok repo
    /\ map fst (images repo) = ["a"; "b"]
    /\ compositions repo = [("test", "/repo/test")]
    /\ keys_named (images repo) /\ closed (images repo).
Proof.
  destruct (Repository_init Sample.world Example.rd0 (Some Sample.tree))
    as [repo|e] eqn:Hrun; [|vm_compute in Hrun; discriminate].
  exists repo. split; [reflexivity|].
  destruct (Repository_init_well_formed Sample.world Example.rd0
              (Some Sample.tree) repo Hrun) as (H1 & H2 & _).
  vm_compute in Hrun. injection Hrun as <-.
  split; [reflexivity|]. split; [reflexivity|]. split; [exact H1 | exact H2].
Defined.

(** ** Which commands are run *)

Lemma only_runs_weaken {A} (P Q : list string -> Prop) (c : M A) :
  (forall cmd, P cmd -> Q cmd) -> only_runs P c -> only_runs Q c.
Proof.
  intros HPQ Hc s. destruct (Hc s) as (cmds & Hh & HP). exists cmds.
  split; [done|]. eapply Forall_impl; [exact HP|done].
Qed.

Lemma only_runs_ret {A} (P : list string -> Prop) (a : A) :
  only_runs P (ret a).
Proof. intros s. exists []. by rewrite app_nil_r. Qed.

Lemma only_runs_raise {A} (P : list string -> Prop) (e : exn) :
  only_runs P (raise e : M A).
Proof. intros s. exists []. by rewrite app_nil_r. Qed.

Lemma only_runs_lift {A} (P : list string -> Prop) (r : result A) :
  only_runs P (lift r).
Proof. intros s. exists []. by rewrite app_nil_r. Qed.

Lemma only_runs_say (P : list string -> Prop) (msg : string) :
  only_runs P (emit (Say msg)).
Proof.
  intros s. exists []. unfold emit. simpl.
  by rewrite history_app.
Qed.

Lemma only_runs_get_acquired (P : list string -> Prop) (n : string) :
  only_runs P (get_acquired n).
Proof. intros s. exists []. by rewrite app_nil_r. Qed.

Lemma only_runs_set_acquired (P : list string -> Prop) (n : string) (b : bool) :
  only_runs P (set_acquired n b).
Proof. intros s. exists []. by rewrite app_nil_r. Qed.

Lemma only_runs_runv (P : list string -> Prop) (w : World)
    (cmd : list string) (stdin : option string) :
  P cmd -> only_runs P (spawn.runv w cmd stdin).
Proof.
  intros HP s. exists [cmd]. unfold spawn.runv. simpl.
  rewrite history_app. split; [done|]. by constructor.
Qed.

Lemma only_runs_mbind {A B} (P : list string -> Prop) (c : M A)
    (k : A -> M B) :
  only_runs P c -> (forall a, only_runs P (k a)) -> only_runs P (mbind c k).
Proof.
  intros Hc Hk s. unfold mbind. destruct (Hc s) as (cmds & Hh & HP).
  destruct (c s) as [s1 [a|e]]; simpl in *; [|by exists cmds].
  destruct (Hk a s1) as (cmds' & Hh' & HP'). exists (cmds ++ cmds').
  rewrite Hh', Hh, app_assoc. split; [done|]. by apply Forall_app.
Qed.

Lemma only_runs_mfilter {A} (P : list string -> Prop) (xs : list A)
    (keep : A -> M bool) :
  (forall x, x ∈ xs -> only_runs P (keep x)) -> only_runs P (mfilter xs keep).
Proof.
  induction xs as [|x xs IH]; intros Hkeep; [apply only_runs_ret|].
  change (mfilter (x :: xs) keep)
    with (mbind (keep x) (fun b =>
            mbind (mfilter xs keep) (fun rest =>
              ret (if b then x :: rest else rest)))).
  apply only_runs_mbind; [apply Hkeep; left|]. intros b.
  apply only_runs_mbind; [|intros; apply only_runs_ret].
  apply IH. intros y Hy. apply Hkeep. by right.
Qed.

Lemma only_runs_attempt (P : list string -> Prop) (w : World)
    (cmd : list string) (n : nat) :
  P cmd -> only_runs P (spawn.attempt n (spawn.runv w cmd None)).
Proof.
  intros HP. induction n as [|n IH]; intros s; simpl;
    destruct (exit_ok w (history s) cmd); simpl.
  - exists [cmd]. rewrite history_app. split; [done|]. by constructor.
  - exists [cmd]. rewrite history_app. split; [done|]. by constructor.
  - exists [cmd]. rewrite history_app. split; [done|]. by constructor.
  - destruct (IH (mkStore (acquired s) (pre_acquired s)
                          (trace s ++ [Run cmd None]))) as (cmds & Hh & Hc).
    exists (cmd :: cmds). rewrite Hh, history_app. simpl.
    rewrite <- app_assoc. split; [done|]. by constructor.
Qed.

Lemma only_runs_lift_bind {A B} (P : list string -> Prop) (r : result A)
    (k : A -> M B) :
  (forall a, r = Ok a -> only_runs P (k a)) -> only_runs P (mbind (lift r) k).
Proof.
  intros Hk s. unfold mbind, lift. destruct r as [a|e]; [by apply Hk|].
  exists []. by rewrite app_nil_r.
Qed.

(** [try_pull] runs nothing but pulls of the spec of its image. *)
Lemma only_runs_try_pull (w : World) (ri : ResolvedImage) (d : Z) :
  only_runs (pull_of w ri) (try_pull w ri d).
Proof.
  unfold try_pull, ui.header.
  apply only_runs_lift_bind. intros sp0 _.
  apply only_runs_mbind; [apply only_runs_say|]. intros _.
  apply only_runs_mbind; [apply only_runs_get_acquired|]. intros b.
  apply only_runs_mbind; [|intros; apply only_runs_get_acquired].
  destruct (negb b); [|apply only_runs_ret].
  apply only_runs_lift_bind. intros sp1 Hsp.
  apply only_runs_mbind; [|intros; apply only_runs_set_acquired].
  apply only_runs_attempt. by exists sp1.
Qed.

(** [is_published_if_necessary] runs at most the inspection of the spec of
    its image. *)
Lemma only_runs_is_published_if_necessary (w : World) (ri : ResolvedImage) :
  only_runs (inspect_of w ri) (is_published_if_necessary w ri).
Proof.
  unfold is_published_if_necessary, ui.say.
  destruct (ResolvedImage_publish ri); [|apply only_runs_ret].
  apply only_runs_lift_bind. intros sp Hsp.
  apply only_runs_mbind.
  - intros s. exists [["docker"; "manifest"; "inspect"; sp]].
    unfold is_docker_image_pushed. simpl. rewrite history_app.
    split; [done|]. constructor; [by exists sp|done].
  - intros [|]; [|apply only_runs_ret].
    apply only_runs_lift_bind. intros sp1 _.
    apply only_runs_mbind; [apply only_runs_say|]. intros. apply only_runs_ret.
Qed.

(** ** [try_pull], [acquire] and [check] *)

Lemma try_pull_true (w : World) (ri : ResolvedImage) (d : Z) (s : Store) :
  (try_pull w ri d s).2 = Ok true ->
  is_ok (spec w ri) = true
  /\ acquired (try_pull w ri d s).1 !! ResolvedImage_name ri = Some true.
Proof.
  unfold try_pull, mbind, lift, ui.header, emit, get_acquired, set_acquired, ret.
  simpl. destruct (spec w ri) as [sp|e]; simpl; [|discriminate].
  destruct (default false (acquired s !! ResolvedImage_name ri)) eqn:Ha; simpl.
  - rewrite Ha. intros _. split; [done|].
    destruct (acquired s !! ResolvedImage_name ri) as [[|]|]; done.
  - destruct (spawn.run_with_retries w _ d _) as [s' [u|e]]; simpl;
      [|discriminate].
    intros _. split; [done|]. by rewrite lookup_insert_eq.
Qed.

Lemma try_pull_when_acquired (w : World) (ri : ResolvedImage) (d : Z)
    (s : Store) (sp : string) :
  acquired s !! ResolvedImage_name ri = Some true ->
  spec w ri = Ok sp ->
  try_pull w ri d s
  = (mkStore (acquired s) (pre_acquired s)
             (trace s ++ [Say ("Acquiring " +:+ sp)]), Ok true).
Proof.
  intros Ha Hsp.
  unfold try_pull, mbind, lift, ui.header, emit, get_acquired, set_acquired, ret.
  simpl. rewrite Hsp. simpl. rewrite Ha. simpl. by rewrite Ha.
Qed.

(** X12.  [try_pull] is idempotent: after a call that has returned true the
    image is marked acquired, and any further call returns true again without
    running a command and without changing a flag. *)
Theorem try_pull_is_idempotent (w : World) (ri : ResolvedImage) (d d' : Z)
    (s : Store) :
  (try_pull w ri d s).2 = Ok true ->
  let s1 := (try_pull w ri d s).1 in
  acquired s1 !! ResolvedImage_name ri = Some true
  /\ (try_pull w ri d' s1).2 = Ok true
  /\ acquired (try_pull w ri d' s1).1 = acquired s1
  /\ history (try_pull w ri d' s1).1 = history s1.
Proof.
  intros [Hspec Hflag]%try_pull_true. simpl. split; [done|].
  destruct (spec w ri) as [sp|e] eqn:Hsp; [|discriminate].
  rewrite (try_pull_when_acquired w ri d' _ sp Hflag Hsp). simpl.
  split; [done|]. split; [done|]. by rewrite history_app, app_nil_r.
Qed.

Lemma try_pull_is_idempotent_witness :
  let s1 := (try_pull Example.world0 Example.resolved_b 0 empty_store).1 in
  acquired s1 !! "b" = Some true
  /\ history s1
     = [["docker"; "pull";
         "materialize/b:mzbuild-ADBZJP5TQHOOMIYUYUKDUNSCTBAXODRU"]]
  /\ history (try_pull Example.world0 Example.resolved_b 60 s1).1 = history s1.
Proof.
  intros s1.
  destruct (try_pull_is_idempotent Example.world0 Example.resolved_b 0 60
              empty_store) as (H1 & _ & _ & H4); [vm_compute; reflexivity|].
  split; [exact H1|]. split; [vm_compute; reflexivity | exact H4].
Defined.

(** The comprehension of [acquire]: every image it has gone through is
    marked, and a mark that was set stays. *)
Lemma pull_all_marks (w : World) (d : Z) (deps : list ResolvedImage) :
  forall (s s' : Store) (l : list ResolvedImage),
    mfilter deps (fun dep => found <~ try_pull w dep d ;; ret (negb found)) s
    = (s', Ok l) ->
    (forall n, acquired s !! n = Some true -> acquired s' !! n = Some true)
    /\ forall ri, ri ∈ deps ->
         acquired s' !! ResolvedImage_name ri = Some true.
Proof.
  induction deps as [|dep deps IH]; intros s s' l.
  - intros [= <- <-]. split; [done|]. by intros ri ?%elem_of_nil.
  - change (mfilter (dep :: deps) ?keep)
      with (mbind (keep dep) (fun b =>
              mbind (mfilter deps keep) (fun rest =>
                ret (if b then dep :: rest else rest)))).
    unfold mbind at 1. unfold mbind at 1.
    pose proof (try_pull_never_false w dep d s) as Hnever.
    pose proof (try_pull_true w dep d s) as Htrue.
    pose proof (try_pull_acquired w dep d s) as Hacq.
    destruct (try_pull w dep d s) as [s1 [[|]|e]]; simpl in *;
      [|done|discriminate].
    destruct (Htrue eq_refl) as [_ Hflag].
    unfold mbind at 1.
    destruct (mfilter deps _ s1) as [s2 [rest|e]] eqn:Hrest; simpl;
      [|discriminate].
    intros [= <- <-]. destruct (IH _ _ _ Hrest) as [Hmono Hall].
    assert (Hmono1 : forall n, acquired s !! n = Some true ->
                               acquired s1 !! n = Some true).
    { intros n Hn. destruct Hacq as [->|(_ & -> & _)]; [done|].
      destruct (decide (n = ResolvedImage_name dep)) as [->|Hne].
      - by rewrite lookup_insert_eq.
      - by rewrite lookup_insert_ne. }
    split; [intros n Hn; by apply Hmono, Hmono1|].
    intros ri [->|Hri]%elem_of_cons; [by apply Hmono|by apply Hall].
Qed.

Lemma build_all_nothing (w : World) (s : Store) :
  build_all w [] s = (s, Ok tt).
Proof. reflexivity. Qed.

(** X13.  [acquire] runs no command other than [docker pull] of the specs of
    the members of the set, so it never builds; and when it returns, every
    member of the set is marked acquired. *)
Theorem acquire_only_pulls (w : World) (ds : DependencySet)
    (max_duration : option Z) (s : Store) :
  (exists cmds,
      history (acquire w ds max_duration s).1 = history s ++ cmds
      /\ Forall (fun cmd => exists ri, ri ∈ DependencySet_iter ds
                                       /\ pull_of w ri cmd) cmds)
  /\ ((acquire w ds max_duration s).2 = Ok tt ->
      forall ri, ri ∈ DependencySet_iter ds ->
        acquired (acquire w ds max_duration s).1 !! ResolvedImage_name ri
        = Some true).
Proof.
  unfold acquire, pull_all.
  set (d := acquire_duration w max_duration).
  set (keep := fun dep => found <~ try_pull w dep d ;; ret (negb found)).
  assert (Hruns : only_runs (fun cmd => exists ri, ri ∈ DependencySet_iter ds
                                                   /\ pull_of w ri cmd)
                            (mfilter (DependencySet_iter ds) keep)).
  { apply only_runs_mfilter. intros ri Hri.
    apply only_runs_mbind; [|intros; apply only_runs_ret].
    eapply only_runs_weaken; [|apply only_runs_try_pull].
    intros cmd Hcmd. by exists ri. }
  specialize (Hruns s). unfold mbind.
  pose proof (pull_all_selects_nothing w ds d s) as Hnil.
  unfold pull_all in Hnil. fold keep in Hnil.
  destruct (mfilter (DependencySet_iter ds) keep s) as [s1 [l|e]] eqn:Hrun;
    simpl in *.
  - rewrite (Hnil l eq_refl). rewrite build_all_nothing. simpl.
    split; [done|]. intros _. by apply (pull_all_marks w d _ _ _ _ Hrun).
  - split; [done|discriminate].
Qed.

Lemma acquire_only_pulls_witness :
  let r := acquire Example.world0
             [("b", Example.resolved_b); ("a", Example.resolved_a)] None
             empty_store in
  r.2 = Ok tt
  /\ acquired r.1 !! "a" = Some true
  /\ length (history r.1) = 2%nat.
Proof.
  intros r.
  destruct (acquire_only_pulls Example.world0
              [("b", Example.resolved_b); ("a", Example.resolved_a)] None
              empty_store) as [_ H].
  split; [vm_compute; reflexivity|].
  split; [|vm_compute; reflexivity].
  apply (H ltac:(vm_compute; reflexivity) Example.resolved_a).
  right. left.
Defined.

(** What one call of [is_published_if_necessary] that returns true has
    found. *)
Lemma is_published_true (w : World) (ri : ResolvedImage) (s : Store) :
  (is_published_if_necessary w ri s).2 = Ok true ->
  ResolvedImage_publish ri = true
  /\ exists sp, spec w ri = Ok sp
       /\ exit_ok w (history s) ["docker"; "manifest"; "inspect"; sp] = true
       /\ history (is_published_if_necessary w ri s).1
          = history s ++ [["docker"; "manifest"; "inspect"; sp]].
Proof.
  unfold is_published_if_necessary.
  destruct (ResolvedImage_publish ri); [|discriminate].
  unfold mbind, lift, is_docker_image_pushed, ui.say, emit, ret. simpl.
  destruct (spec w ri) as [sp|e]; simpl; [|discriminate].
  destruct (exit_ok w (history s) _) eqn:Hok; simpl; [|discriminate].
  intros _. split; [done|]. exists sp. split; [done|]. split; [done|].
  unfold history. simpl. rewrite !omap_app. simpl. by rewrite app_nil_r.
Qed.

Lemma check_cons (w : World) (k : string) (dep : ResolvedImage)
    (ds : DependencySet) :
  check w ((k, dep) :: ds)
  = mbind (is_published_if_necessary w dep)
          (fun ok => if ok then check w ds else ret false).
Proof. reflexivity. Qed.

(** X14.  [check] runs no command other than [docker manifest inspect] of
    the specs of members, so it neither pulls nor builds nor pushes.  When it
    returns true, every member of the set has [publish] set and its spec has
    been inspected; a set with a member that is not to be published never
    passes. *)
Theorem check_only_inspects (w : World) (ds : DependencySet) (s : Store) :
  (exists cmds,
      history (check w ds s).1 = history s ++ cmds
      /\ Forall (fun cmd => exists ri, ri ∈ DependencySet_iter ds
                                       /\ inspect_of w ri cmd) cmds)
  /\ ((check w ds s).2 = Ok true ->
      forall ri, ri ∈ DependencySet_iter ds ->
        ResolvedImage_publish ri = true
        /\ exists sp, spec w ri = Ok sp
             /\ ["docker"; "manifest"; "inspect"; sp]
                ∈ history (check w ds s).1).
Proof.
  revert s. induction ds as [|[k dep] ds IH]; intros s.
  - simpl. split; [exists []; by rewrite app_nil_r|].
    intros _ ri Hri. by apply elem_of_nil in Hri.
  - rewrite check_cons. unfold mbind.
    change (DependencySet_iter ((k, dep) :: ds))
      with (dep :: DependencySet_iter ds).
    destruct (only_runs_is_published_if_necessary w dep s) as (c1 & Hh1 & Hc1).
    pose proof (is_published_true w dep s) as Htrue.
    destruct (is_published_if_necessary w dep s) as [s1 [[|]|e]]; simpl in *.
    + destruct (IH s1) as [(c2 & Hh2 & Hc2) Hall].
      destruct (Htrue eq_refl) as (Hpub & sp & Hsp & _ & Hhist).
      split.
      * exists (c1 ++ c2). rewrite Hh2, Hh1, app_assoc. split; [done|].
        apply Forall_app. split.
        -- eapply Forall_impl; [exact Hc1|]. intros cmd Hcmd. exists dep.
           split; [left|done].
        -- eapply Forall_impl; [exact Hc2|]. intros cmd (ri & Hri & Hcmd).
           exists ri. split; [by right|done].
      * intros Hok ri [->|Hri]%elem_of_cons.
        -- split; [done|]. exists sp. split; [done|].
           rewrite Hh2, Hhist. apply elem_of_app. left.
           apply elem_of_app. right. left.
        -- destruct (Hall Hok ri Hri) as (Hp & sp' & Hsp' & Hin).
           split; [done|]. by exists sp'.
    + split; [|discriminate]. exists c1. split; [done|].
      eapply Forall_impl; [exact Hc1|]. intros cmd Hcmd. exists dep.
      split; [left|done].
    + split; [|discriminate]. exists c1. split; [done|].
      eapply Forall_impl; [exact Hc1|]. intros cmd Hcmd. exists dep.
      split; [left|done].
Qed.

Lemma check_only_inspects_witness :
  ResolvedImage_publish Example.resolved_a = true
  /\ exists sp, spec Example.world0 Example.resolved_a = Ok sp
       /\ ["docker"; "manifest"; "inspect"; sp]
          ∈ history (check Example.world0
                       [("b", Example.resolved_b); ("a", Example.resolved_a)]
                       empty_store).1.
Proof.
  destruct (check_only_inspects Example.world0
              [("b", Example.resolved_b); ("a", Example.resolved_a)]
              empty_store) as [_ H].
  apply (H ltac:(vm_compute; reflexivity) Example.resolved_a).
  right. left.
Defined.

(** ** [ensure] *)

Lemma mfilter_cons {A} (x : A) (xs : list A) (keep : A -> M bool) :
  mfilter (x :: xs) keep
  = mbind (keep x) (fun b =>
      mbind (mfilter xs keep) (fun rest => ret (if b then x :: rest else rest))).
Proof. reflexivity. Qed.

Lemma mbind_run {A B} (c : M A) (k : A -> M B) (s s1 : Store) (a : A) :
  c s = (s1, Ok a) -> mbind c k s = k a s1.
Proof. intros H. unfold mbind. by rewrite H. Qed.

(** When [check] passes, the comprehension of [ensure] has done the same and
    selects nothing. *)
Lemma ensure_selects_nothing (w : World) (ds : DependencySet) :
  forall s,
    (check w ds s).2 = Ok true ->
    mfilter (DependencySet_iter ds)
      (fun dep => ok <~ is_published_if_necessary w dep ;; ret (negb ok)) s
    = ((check w ds s).1, Ok []).
Proof.
  induction ds as [|[k dep] ds IH]; intros s; [done|].
  rewrite check_cons.
  change (DependencySet_iter ((k, dep) :: ds))
    with (dep :: DependencySet_iter ds).
  rewrite mfilter_cons. unfold mbind.
  destruct (is_published_if_necessary w dep s) as [s1 [[|]|e]]; simpl;
    [|discriminate..].
  intros Hok. unfold mbind in IH. by rewrite (IH s1 Hok).
Qed.

(** X15.  When every member of the set is to be published and is found in
    the registry, so that [check] returns true, [ensure] builds nothing and
    pushes nothing: it returns after the same inspections, with the same
    commands run and the same flags. *)
Theorem ensure_does_nothing_when_published (w : World) (ds : DependencySet)
    (post_build : option (ResolvedImage -> M unit)) (s : Store) :
  (check w ds s).2 = Ok true ->
  (ensure w ds post_build s).2 = Ok tt
  /\ history (ensure w ds post_build s).1 = history (check w ds s).1
  /\ acquired (ensure w ds post_build s).1 = acquired (check w ds s).1.
Proof.
  intros Hok. unfold ensure.
  rewrite (mbind_run _ _ s _ [] (ensure_selects_nothing w ds s Hok)).
  unfold ui.section, _prepare_batch, push_all, mbind, emit, ret. simpl.
  split; [done|]. split; [|done].
  unfold history. simpl. rewrite !omap_app. simpl. by rewrite !app_nil_r.
Qed.

Lemma ensure_does_nothing_when_published_witness :
  let ds : DependencySet :=
    [("b", Example.resolved_b); ("a", Example.resolved_a)] in
  (ensure Example.world0 ds None empty_store).2 = Ok tt
  /\ length (history (ensure Example.world0 ds None empty_store).1) = 2%nat.
Proof.
  intros ds.
  destruct (ensure_does_nothing_when_published Example.world0 ds None
              empty_store) as (H1 & H2 & _); [vm_compute; reflexivity|].
  split; [exact H1|]. rewrite H2. vm_compute. reflexivity.
Defined.

(** ** Paths between the builder and the host *)

Lemma pieces_no_slash (s : string) :
  Forall (fun c => Str.contains "/" c = false) (Path.pieces s).
Proof.
  induction s as [|a s IH]; simpl; [by repeat constructor|].
  destruct (Ascii.eqb a "/") eqn:Ha; [by constructor|].
  destruct (Path.pieces s) as [|l ls].
  - repeat constructor. simpl. by rewrite Ha.
  - inversion IH as [|? ? Hl Hls]; subst. constructor; [|done].
    simpl. by rewrite Ha, Hl.
Qed.

Lemma pieces_plain (x : string) :
  Str.contains "/" x = false -> Path.pieces x = [x].
Proof.
  induction x as [|a x IH]; simpl; [done|].
  intros [Ha Hx]%orb_false_elim. by rewrite Ha, (IH Hx).
Qed.

Lemma pieces_app (x y : string) :
  Str.contains "/" x = false ->
  Path.pieces (x +:+ "/" +:+ y) = x :: Path.pieces y.
Proof.
  induction x as [|a x IH]; intros H.
  - by rewrite append_nil_l, append_cons, append_nil_l.
  - simpl in H. apply orb_false_elim in H as [Ha Hx].
    rewrite append_cons. simpl. by rewrite Ha, (IH Hx).
Qed.

(** The components [pathlib] keeps: not empty, not a single dot, without
    a slash. *)
Lemma components_kept (s : string) :
  Forall (fun c => Path.is_component c = true /\ Str.contains "/" c = false)
         (Path.components s).
Proof.
  unfold Path.components.
  induction (pieces_no_slash s) as [|c cs Hc _ IH]; simpl; [done|].
  destruct (Path.is_component c) eqn:Hk; [|done]. by constructor.
Qed.

Lemma components_join (cs : list string) :
  Forall (fun c => Path.is_component c = true /\ Str.contains "/" c = false)
         cs ->
  Path.components (Py.join "/" cs) = cs.
Proof.
  unfold Path.components. induction 1 as [|c cs [Hc Hs] Hcs IH]; [done|].
  destruct cs as [|c' cs].
  - simpl. rewrite (pieces_plain _ Hs). simpl. by rewrite Hc.
  - change (Py.join "/" (c :: c' :: cs))
      with (c +:+ "/" +:+ Py.join "/" (c' :: cs)).
    rewrite pieces_app by done. cbn [List.filter]. rewrite Hc. by rewrite IH.
Qed.

Lemma join_head (cs : list string) :
  Forall (fun c => Path.is_component c = true /\ Str.contains "/" c = false)
         cs ->
  match Py.join "/" cs with
  | String a _ => Ascii.eqb a "/" = false
  | EmptyString => True
  end.
Proof.
  destruct 1 as [|c cs [Hc Hs] _]; [done|].
  destruct c as [|a c]; [done|].
  simpl in Hs. apply orb_false_elim in Hs as [Ha _].
  destruct cs; [done|].
  change (Py.join "/" (String a c :: s :: cs))
    with (String a c +:+ "/" +:+ Py.join "/" (s :: cs)).
  by rewrite append_cons.
Qed.

Lemma root_of_cases (s : string) :
  Path.root_of s = "" \/ Path.root_of s = "/" \/ Path.root_of s = "//".
Proof.
  destruct s as [|a [|b [|c s]]]; simpl;
    repeat match goal with
           | |- context [Ascii.eqb ?x ?y] => destruct (Ascii.eqb x y)
           end; auto.
Qed.

Lemma root_of_render (r : string) (cs : list string) :
  r = "" \/ r = "/" \/ r = "//" ->
  Forall (fun c => Path.is_component c = true /\ Str.contains "/" c = false)
         cs ->
  Path.root_of (Path.render r cs) = r.
Proof.
  intros Hr Hcs. pose proof (join_head cs Hcs) as Hhead.
  destruct Hr as [-> | [-> | ->]]; unfold Path.render.
  - destruct cs as [|c cs]; [done|]. rewrite append_nil_l.
    destruct (Py.join "/" (c :: cs)) as [|a [|b x]]; simpl; [done|..];
      by rewrite Hhead.
  - rewrite append_cons, append_nil_l.
    destruct (Py.join "/" cs) as [|a x]; [done|]. simpl. by rewrite Hhead.
  - rewrite !append_cons, append_nil_l.
    destruct (Py.join "/" cs) as [|a x]; [done|]. simpl. by rewrite Hhead.
Qed.

Lemma components_render (r : string) (cs : list string) :
  r = "" \/ r = "/" \/ r = "//" ->
  Forall (fun c => Path.is_component c = true /\ Str.contains "/" c = false)
         cs ->
  Path.components (Path.render r cs) = cs.
Proof.
  intros Hr Hcs. pose proof (components_join cs Hcs) as Hjoin.
  destruct Hr as [-> | [-> | ->]]; unfold Path.render.
  - destruct cs as [|c cs]; [done|]. by rewrite append_nil_l.
  - rewrite append_cons, append_nil_l. unfold Path.components in *.
    simpl. done.
  - rewrite !append_cons, append_nil_l. unfold Path.components in *.
    simpl. done.
Qed.

Lemma parts_render (r : string) (cs : list string) :
  r = "" \/ r = "/" \/ r = "//" ->
  Forall (fun c => Path.is_component c = true /\ Str.contains "/" c = false)
         cs ->
  Path.parts (Path.render r cs)
  = match r with EmptyString => cs | _ => r :: cs end.
Proof.
  intros Hr Hcs. unfold Path.parts.
  rewrite root_of_render, components_render by done. by destruct r.
Qed.

(** Bringing a text into the form of a path does not change its parts. *)
Lemma parts_of_string (s : string) :
  Path.parts (Path.of_string s) = Path.parts s.
Proof.
  unfold Path.of_string.
  rewrite parts_render by (apply root_of_cases || apply components_kept).
  unfold Path.parts. by destruct (Path.root_of s).
Qed.

Lemma parts_join (p q : string) :
  Path.root_of q = "" ->
  Path.parts (Path.join p q) = Path.parts p ++ Path.components q.
Proof.
  intros Hq. unfold Path.join. rewrite Hq.
  rewrite parts_render;
    [|apply root_of_cases
     |apply Forall_app; split; apply components_kept].
  unfold Path.parts. by destruct (Path.root_of p).
Qed.

Lemma root_of_join (p q : string) :
  Path.root_of p <> "" -> Path.root_of (Path.join p q) <> "".
Proof.
  intros Hp. unfold Path.join.
  destruct (Path.root_of q) eqn:Hq.
  - rewrite root_of_render;
      [done|apply root_of_cases
      |apply Forall_app; split; apply components_kept].
  - unfold Path.of_string.
    rewrite root_of_render by (apply root_of_cases || apply components_kept).
    by rewrite Hq.
Qed.

Lemma strip_parts_Some (base p rest : list string) :
  Path.strip_parts base p = Some rest <-> p = base ++ rest.
Proof.
  revert p. induction base as [|b base IH]; intros p; simpl.
  - split; congruence.
  - destruct p as [|c p]; [split; discriminate|].
    destruct (String.eqb_spec b c) as [->|Hne].
    + rewrite IH. split; congruence.
    + split; [discriminate|congruence].
Qed.

Lemma is_relative_to_parts (base p : string) :
  Path.is_relative_to base p = true
  <-> exists rest, Path.parts p = Path.parts base ++ rest.
Proof.
  unfold Path.is_relative_to, Path.relative_to.
  destruct (Path.strip_parts _ _) as [rest|] eqn:Hs.
  - apply strip_parts_Some in Hs. split; [eauto|done].
  - split; [done|]. intros [rest Hrest%strip_parts_Some]. congruence.
Qed.

(** X16.  The directory of a build script's output, as Cargo reports it, is
    compared with the target directory of the builder by the parts of the
    path, whatever doubled slashes or dots the text has.  A path below that
    directory is rewritten to the same parts below the target directory of
    the host; any other path is left as it is.  [CargoBuild.build] then uses
    the path exactly when it was below the target directory of the builder
    or is below that of the host. *)
Theorem rewrite_builder_path_for_host_maps_target (rd0 : RepositoryDetails)
    (raw : string) :
  let builder := Path.join "/mnt/build" (Arch_target (arch rd0)) in
  let host := cargo_target_dir rd0 in
  let p := Path.of_string raw in
  let q := rewrite_builder_path_for_host rd0 p in
  Path.parts p = Path.parts raw
  /\ (forall rest, Path.parts p = Path.parts builder ++ rest ->
        Path.parts q = Path.parts host ++ rest)
  /\ ((forall rest, Path.parts p <> Path.parts builder ++ rest) -> q = p)
  /\ (Path.is_relative_to host q = true
      <-> (exists rest, Path.parts p = Path.parts builder ++ rest)
          \/ (exists rest, Path.parts p = Path.parts host ++ rest)).
Proof.
  intros builder host p q.
  assert (Hbelow : forall rest,
            Path.parts p = Path.parts builder ++ rest ->
            q = Path.join host (Path.render "" rest)
            /\ Path.parts q = Path.parts host ++ rest).
  { intros rest Hrest.
    assert (Hq : q = Path.join host (Path.render "" rest)).
    { unfold q, rewrite_builder_path_for_host, Path.relative_to.
      fold builder host.
      by rewrite (proj2 (strip_parts_Some _ _ _) Hrest). }
    split; [done|].
    assert (Hkept : Forall (fun c => Path.is_component c = true
                                     /\ Str.contains "/" c = false) rest).
    { assert (Hroot : Path.root_of builder <> "") by (by apply root_of_join).
      unfold p in Hrest. rewrite parts_of_string in Hrest.
      unfold Path.parts in Hrest.
      destruct (Path.root_of builder) as [|a r] eqn:Hb; [done|].
      pose proof (components_kept raw) as Hraw.
      destruct (Path.root_of raw).
      - rewrite Hrest in Hraw. apply Forall_cons in Hraw as [_ Hraw].
        by apply Forall_app in Hraw as [_ ?].
      - apply (f_equal (drop 1)) in Hrest. cbn [drop] in Hrest.
        rewrite !drop_0 in Hrest. rewrite Hrest in Hraw. by apply Forall_app in Hraw as [_ ?]. }
    rewrite Hq, parts_join by (apply root_of_render; [by left|done]).
    rewrite components_render; [done|by left|done]. }
  split; [apply parts_of_string|]. split; [intros rest H; by apply Hbelow|].
  assert (Hother : (forall rest, Path.parts p <> Path.parts builder ++ rest) ->
                   q = p).
  { intros Hnot. unfold q, rewrite_builder_path_for_host, Path.relative_to.
    fold builder.
    destruct (Path.strip_parts _ _) as [rest|] eqn:Hs; [|done].
    apply strip_parts_Some in Hs. by destruct (Hnot rest). }
  split; [done|].
  rewrite is_relative_to_parts. split.
  - intros [rest Hrest].
    destruct (Path.strip_parts (Path.parts builder) (Path.parts p))
      as [rest'|] eqn:Hs.
    + left. exists rest'. by apply strip_parts_Some.
    + right. exists rest. rewrite <- Hrest. f_equal. symmetry.
      apply Hother. intros rest' H%strip_parts_Some. congruence.
  - intros [[rest Hrest]|[rest Hrest]].
    + exists rest. by apply Hbelow.
    + destruct (Path.strip_parts (Path.parts builder) (Path.parts p))
        as [rest'|] eqn:Hs.
      * apply strip_parts_Some in Hs. exists rest'. by apply Hbelow.
      * exists rest. rewrite <- Hrest. f_equal.
        apply Hother. intros rest' H%strip_parts_Some. congruence.
Qed.

(** A doubled slash in the text does not hide that the path is below the
    target directory of the builder; a path elsewhere stays. *)
Lemma rewrite_builder_path_for_host_maps_target_witness :
  rewrite_builder_path_for_host Example.rd0
    (Path.of_string
       "/mnt/build//x86_64-unknown-linux-gnu/release/build/krb5-src/out")
  = "/repo/target-xcompile/x86_64-unknown-linux-gnu/release/build/krb5-src/out"
  /\ rewrite_builder_path_for_host Example.rd0 (Path.of_string "/usr/lib/")
     = "/usr/lib".
Proof.
  split; [reflexivity|].
  destruct (rewrite_builder_path_for_host_maps_target Example.rd0 "/usr/lib/")
    as (_ & _ & H & _).
  apply H. intros rest Hrest. vm_compute in Hrest. discriminate.
Defined.

(** ** What a fingerprint depends on *)

Lemma fingerprint_unfold (w : World) (ri : ResolvedImage) :
  fingerprint w ri
  = (let i := image ri in
     own <- inputs w false ri ;;
     self_hash <- for_each (Py.sorted (Py_set (expand_globs w (root (rd i)) own)))
                    (hash_input w (root (rd i))) Sha1.new ;;
     let self_hash :=
       foldl (fun h pre_image =>
                Sha1.update (Sha1.update h (extra pre_image)) zero_byte)
             self_hash (pre_images i) in
     let self_hash := Sha1.update self_hash ("arch=" +:+ Arch_str (arch (rd i))) in
     let self_hash :=
       Sha1.update self_hash ("coverage=" +:+ Py.str_bool (coverage (rd i))) in
     let self_hash :=
       Sha1.update self_hash
         ("sanitizer=" +:+ Sanitizer_str w (sanitizer (rd i))) in
     let full_hash := Sha1.update Sha1.new (Sha1.digest self_hash) in
     let deps :=
       map (fun dep : string * ResolvedImage =>
              (ResolvedImage_name dep.2, fingerprint w dep.2))
           (dependencies ri) in
     full_hash <- for_each (Py.sorted_by fst deps)
                    (fun dep full_hash =>
                       fp <- dep.2 ;;
                       let full_hash := Sha1.update full_hash dep.1 in
                       let full_hash := Sha1.update full_hash fp in
                       Ok (Sha1.update full_hash zero_byte))
                    full_hash ;;
     Ok (Sha1.digest full_hash)).
Proof. by destruct ri. Qed.

Lemma PreImage_inputs_with_files (w : World) (modes : string -> option Z)
    (contents : string -> option string) (p : PreImage) :
  PreImage_inputs (with_files w modes contents) p = PreImage_inputs w p.
Proof. unfold PreImage_inputs. by destruct (pre_kind p). Qed.

Lemma inputs_with_files (w : World) (modes : string -> option Z)
    (contents : string -> option string) (ri : ResolvedImage) :
  inputs (with_files w modes contents) false ri = inputs w false ri.
Proof.
  destruct ri as [i deps]. simpl.
  destruct (Py_set _) as [|p0 paths0]; [done|]. by f_equal.
Qed.

Lemma hash_inputs_with_files (w : World) (modes : string -> option Z)
    (contents : string -> option string) (root0 : string)
    (paths : list string) :
  (forall p, p ∈ paths ->
     contents (Io.path_join root0 p) = read_file w (Io.path_join root0 p)
     /\ simplified_mode <$> modes (Io.path_join root0 p)
        = simplified_mode <$> lstat_mode w (Io.path_join root0 p)) ->
  forall h,
    for_each paths (hash_input (with_files w modes contents) root0) h
    = for_each paths (hash_input w root0) h.
Proof.
  induction paths as [|p paths IH]; intros Hsame h; [done|]. simpl.
  destruct (Hsame p ltac:(left)) as [Hc Hm].
  assert (Hstep : hash_input (with_files w modes contents) root0 p h
                  = hash_input w root0 p h).
  { unfold hash_input. simpl. rewrite Hc.
    destruct (modes (Io.path_join root0 p)) as [m|],
      (lstat_mode w (Io.path_join root0 p)) as [m'|]; simpl in *;
      try discriminate; [|done].
    injection Hm as Hm. by rewrite Hm. }
  rewrite Hstep. destruct (hash_input w root0 p h); simpl; [|done].
  apply IH. intros q Hq. apply Hsame. by right.
Qed.

(** X17.  The fingerprint of an image depends on the files only through its
    inputs and those of its dependencies: in a world where these have the
    same content, and modes that agree on being a symbolic link and on the
    owner-execute bit, the fingerprint is the same.  Other files and other
    permission bits do not matter. *)
Theorem fingerprint_depends_on_inputs_only (w : World)
    (modes : string -> option Z) (contents : string -> option string)
    (ri : ResolvedImage) :
  same_inputs w modes contents ri ->
  fingerprint (with_files w modes contents) ri = fingerprint w ri.
Proof.
  induction ri as [i deps IH] using ResolvedImage_nested_ind.
  intros [Hown Hdeps]. rewrite !fingerprint_unfold. cbv zeta.
  rewrite inputs_with_files. simpl image. simpl dependencies.
  unfold input_paths in Hown. simpl image in Hown.
  destruct (inputs w false (mkResolvedImage i deps)) as [own|e]; [|done].
  simpl bind at 1. simpl bind at 4.
  change (expand_globs (with_files w modes contents)) with (expand_globs w).
  rewrite hash_inputs_with_files
    by (intros p Hp%elem_of_sorted_1; by apply Hown).
  assert (Hmap : map (fun dep : string * ResolvedImage =>
                        (ResolvedImage_name dep.2,
                         fingerprint (with_files w modes contents) dep.2)) deps
                 = map (fun dep : string * ResolvedImage =>
                          (ResolvedImage_name dep.2, fingerprint w dep.2)) deps).
  { clear Hown. simpl in Hdeps.
    induction IH as [|[k d] deps Hd _ IHdeps]; simpl in *; [done|].
    destruct Hdeps as [Hr Hdeps]. rewrite (Hd Hr). by rewrite IHdeps. }
  rewrite Hmap. reflexivity.
Qed.

(** The modes of the files of [b] change from [0o100755] to [0o100700], and a
    file that is not an input changes its content. *)
Lemma fingerprint_depends_on_inputs_only_witness :
  let modes p := if String.eqb p "/repo/a/Dockerfile" then Some 33188
                 else Some 33216 in
  let contents p := if String.eqb p "/repo/README.md" then Some "changed"
                    else read_file Example.world0 p in
  fingerprint (with_files Example.world0 modes contents) Example.resolved_b
  = fingerprint Example.world0 Example.resolved_b.
Proof.
  intros modes contents.
  apply (fingerprint_depends_on_inputs_only Example.world0 modes contents
           Example.resolved_b).
  split; [|exact I]. intros p Hp. vm_compute in Hp.
  apply list_elem_of_singleton in Hp. subst p. split; reflexivity.
Defined.

(** ** Transitive inputs and dependencies *)

Lemma for_each_union {A} (f : A -> result (list string)) (xs : list A) :
  forall acc out,
    for_each xs (fun x paths => more <- f x ;; Ok (Py_set (paths ++ more))) acc
    = Ok out ->
    (forall x, x ∈ xs -> exists sub, f x = Ok sub)
    /\ forall p, p ∈ out
                 <-> p ∈ acc \/ exists x sub, x ∈ xs /\ f x = Ok sub /\ p ∈ sub.
Proof.
  induction xs as [|x xs IH]; intros acc out Hrun; simpl in Hrun.
  - injection Hrun as <-. split; [by intros x ?%elem_of_nil|].
    intros p. split; [by left|].
    by intros [?|(x & sub & Hx%elem_of_nil & _)].
  - destruct (f x) as [more|e] eqn:Hf; simpl in Hrun; [|done].
    destruct (IH _ _ Hrun) as [Hall Hiff]. split.
    + intros y [->|Hy]%elem_of_cons; eauto.
    + intros p. rewrite Hiff. unfold Py_set.
      rewrite elem_of_remove_dups, elem_of_app. split.
      * intros [[?|?]|(y & sub & Hy & Hfy & Hp)]; [by left| |].
        -- right. exists x, more. split; [by left|done].
        -- right. exists y, sub. split; [by right|done].
      * intros [?|(y & sub & [->|Hy]%elem_of_cons & Hfy & Hp)].
        -- by left; left.
        -- left; right. congruence.
        -- right. eauto.
Qed.

Lemma inputs_transitive (w : World) (ri : ResolvedImage) :
  inputs w true ri
  = (own <- inputs w false ri ;;
     for_each (dependencies ri)
       (fun dep paths =>
          more <- inputs w true dep.2 ;; Ok (Py_set (paths ++ more)))
       own).
Proof.
  destruct ri as [i deps]. simpl. destruct (Py_set _); [done|].
  by destruct (for_each (pre_images i) _ _).
Qed.

(** X18.  When [inputs(transitive=True)] returns, the own inputs of every
    image that can be reached along [dependencies] could be listed, and the
    result holds exactly the paths that are an own input of one of these
    images, the image itself included. *)
Theorem transitive_inputs_are_the_inputs_of_the_reachable (w : World)
    (ri : ResolvedImage) (all : list string) :
  inputs w true ri = Ok all ->
  (forall d, rtc depends_directly ri d -> is_ok (inputs w false d) = true)
  /\ forall p, p ∈ all
               <-> exists d own, rtc depends_directly ri d
                                 /\ inputs w false d = Ok own /\ p ∈ own.
Proof.
  revert all. induction ri as [i deps IH] using ResolvedImage_nested_ind.
  intros all Hrun. rewrite inputs_transitive in Hrun.
  destruct (inputs w false (mkResolvedImage i deps)) as [own|e] eqn:Hown;
    [|done].
  simpl in Hrun.
  destruct (for_each_union (fun dep : string * ResolvedImage =>
                              inputs w true dep.2) _ _ _ Hrun) as [Hall Hiff].
  rewrite Forall_forall in IH. split.
  - intros d [<-|(y & [k Hy] & Hrtc)]%rtc_inv; [by rewrite Hown|].
    simpl in Hy. destruct (Hall _ Hy) as [sub Hsub].
    by apply (IH _ Hy sub Hsub).
  - intros p. rewrite Hiff. split.
    + intros [Hp|([k dep] & sub & Hin & Hsub & Hp)].
      * exists (mkResolvedImage i deps), own. by split; [apply rtc_refl|].
      * destruct (IH _ Hin sub Hsub) as [_ Hdep].
        apply Hdep in Hp as (d & own' & Hrtc & Hd & Hp).
        exists d, own'. split; [|done].
        eapply rtc_l; [|exact Hrtc]. by exists k.
    + intros (d & own' & [<-|(y & [k Hy] & Hrtc)]%rtc_inv & Hd & Hp).
      * left. congruence.
      * simpl in Hy. destruct (Hall _ Hy) as [sub Hsub].
        right. exists (k, y), sub. split; [done|]. split; [done|].
        apply (IH _ Hy sub Hsub). eauto.
Qed.

Lemma transitive_inputs_are_the_inputs_of_the_reachable_witness :
  "b/Dockerfile" ∈ ["a/Dockerfile"; "a/mzbuild.yml"; "b/Dockerfile"]
  <-> exists d own, rtc depends_directly Example.resolved_a d
                    /\ inputs Example.world0 false d = Ok own
                    /\ "b/Dockerfile" ∈ own.
Proof.
  apply (transitive_inputs_are_the_inputs_of_the_reachable Example.world0
           Example.resolved_a
           ["a/Dockerfile"; "a/mzbuild.yml"; "b/Dockerfile"]).
  reflexivity.
Defined.

(** X19.  [list_dependencies()] holds the names of the images in
    [dependencies], and [list_dependencies(transitive=True)] the names of
    the images that can be reached from the image in one or more steps along
    [dependencies]; the image's own name is there only if it is reached. *)
Theorem list_dependencies_are_the_reachable_names (ri : ResolvedImage)
    (n : string) :
  (n ∈ list_dependencies false ri
   <-> exists d, depends_directly ri d /\ ResolvedImage_name d = n)
  /\ (n ∈ list_dependencies true ri
      <-> exists d, tc depends_directly ri d /\ ResolvedImage_name d = n).
Proof.
  split.
  - destruct ri as [i deps]. simpl. unfold Py_set.
    rewrite elem_of_remove_dups, list_elem_of_In, in_concat. split.
    + intros (l & ([k d] & <- & Hd)%in_map_iff & Hn).
      apply list_elem_of_In in Hd. apply list_elem_of_In in Hn.
      apply list_elem_of_singleton in Hn. exists d. split; [by exists k|done].
    + intros (d & [k Hd] & Hn). exists [n]. split; [|by left].
      apply in_map_iff. exists (k, d). simpl. rewrite Hn.
      split; [done|]. by apply list_elem_of_In.
  - revert n. induction ri as [i deps IH] using ResolvedImage_nested_ind.
    intros n. rewrite Forall_forall in IH.
    change (list_dependencies true (mkResolvedImage i deps))
      with (Py_set (concat (map (fun dep : string * ResolvedImage =>
                                   ResolvedImage_name dep.2
                                   :: list_dependencies true dep.2) deps))).
    unfold Py_set.
    rewrite elem_of_remove_dups, list_elem_of_In, in_concat. split.
    + intros (l & ([k d] & <- & Hd)%in_map_iff & Hn).
      apply list_elem_of_In in Hd. apply list_elem_of_In in Hn.
      apply elem_of_cons in Hn as [Hn|Hn].
      * exists d. split; [|done]. apply tc_once. by exists k.
      * apply (IH _ Hd) in Hn as (d' & Htc & Hd'). exists d'.
        split; [|done]. eapply tc_l; [|exact Htc]. by exists k.
    + intros (d & Htc & Hn).
      inversion Htc as [? ? [k Hd]|? y ? [k Hy] Htc']; subst.
      * exists (ResolvedImage_name d :: list_dependencies true d).
        split; [|by left]. apply in_map_iff. exists (k, d).
        split; [done|]. by apply list_elem_of_In.
      * exists (ResolvedImage_name y :: list_dependencies true y).
        split.
        -- apply in_map_iff. exists (k, y). split; [done|].
           by apply list_elem_of_In.
        -- apply list_elem_of_In. right. apply (IH _ Hy). eauto.
Qed.

(** ** Publishing for several architectures *)

Lemma zip_all_take {A} (n : nat) (xss : list (list A)) :
  zip_all (map (take n) xss) = take n (zip_all xss).
Proof.
  induction xss as [|xs rest IH]; [by destruct n|].
  destruct rest as [|ys rest].
  - simpl. by rewrite <- fmap_take.
  - change (zip_all (map (take n) (xs :: ys :: rest)))
      with (zip_with cons (take n xs) (zip_all (map (take n) (ys :: rest)))).
    rewrite IH.
    change (zip_all (xs :: ys :: rest))
      with (zip_with cons xs (zip_all (ys :: rest))).
    by rewrite zip_with_take.
Qed.

Lemma zip_all_lookup {A} (i : nat) (xss : list (list A)) (t : list A) :
  xss <> [] ->
  Forall2 (fun xs x => xs !! i = Some x) xss t ->
  zip_all xss !! i = Some t.
Proof.
  intros Hne Hall. induction Hall as [|xs x rest t Hx Hall IH]; [done|].
  destruct rest as [|ys rest].
  - inversion Hall; subst. simpl. by rewrite list_lookup_fmap, Hx.
  - change (zip_all (xs :: ys :: rest))
      with (zip_with cons xs (zip_all (ys :: rest))).
    rewrite lookup_zip_with, Hx, IH; done.
Qed.

Lemma mfor_Ok {A} (xs : list A) (body : A -> M unit) (s : Store) :
  (mfor xs body s).2 = Ok tt ->
  forall x, x ∈ xs -> exists s0, (body x s0).2 = Ok tt.
Proof.
  revert s. induction xs as [|x xs IH]; intros s Hrun y Hy;
    [by apply elem_of_nil in Hy|].
  change (mfor (x :: xs) body) with (_ <~ body x ;; mfor xs body) in Hrun.
  unfold mbind in Hrun. destruct (body x s) as [s1 [[]|e]] eqn:Hbody; [|done].
  apply elem_of_cons in Hy as [->|Hy].
  - exists s. by rewrite Hbody.
  - by apply (IH s1).
Qed.

Lemma mbind_Ok {A B} (c : M A) (k : A -> M B) (s : Store) (b : B) :
  (mbind c k s).2 = Ok b -> exists a, (c s).2 = Ok a.
Proof. unfold mbind. destruct (c s) as [s1 [a|e]]; [eauto|done]. Qed.

Lemma remove_dups_one (l : list string) (x y : string) :
  length (remove_dups l) = 1%nat -> x ∈ l -> y ∈ l -> x = y.
Proof.
  intros Hlen Hx%elem_of_remove_dups Hy%elem_of_remove_dups.
  destruct (remove_dups l) as [|z [|? ?]]; try done.
  apply list_elem_of_singleton in Hx, Hy. congruence.
Qed.

(** X20.  [publish_multiarch_images] goes through the dependency sets in
    step and stops with the shortest: what a longer set holds beyond that is
    not looked at.  When it returns, at every position where each set has an
    image, these images have one name. *)
Theorem publish_multiarch_images_goes_in_step (w : World) (tag : string)
    (dependency_sets : list (list ResolvedImage)) :
  publish_multiarch_images w tag
    (map (take (length (zip_all dependency_sets))) dependency_sets)
  = publish_multiarch_images w tag dependency_sets
  /\ forall s,
       (publish_multiarch_images w tag dependency_sets s).2 = Ok tt ->
       forall (i : nat) (images : list ResolvedImage),
         Forall2 (fun ds ri => ds !! i = Some ri) dependency_sets images ->
         forall r1 r2, r1 ∈ images -> r2 ∈ images ->
                       ResolvedImage_name r1 = ResolvedImage_name r2.
Proof.
  split.
  - unfold publish_multiarch_images.
    by rewrite zip_all_take, firstn_all.
  - intros s Hrun i images Hall r1 r2 H1 H2.
    destruct dependency_sets as [|ds sets].
    { inversion Hall; subst. by apply elem_of_nil in H1. }
    apply zip_all_lookup in Hall; [|done].
    apply list_elem_of_lookup_2 in Hall.
    unfold publish_multiarch_images in Hrun.
    apply mbind_Ok in Hrun as [[] Hok].
    destruct (mfor_Ok _ _ _ Hok images Hall) as [s0 Hbody].
    cbv zeta in Hbody. destruct images as [|first rest]; [done|].
    destruct (length (Py_set (map ResolvedImage_name (first :: rest))) =? 1)%nat
      eqn:Hlen; [|done].
    apply Nat.eqb_eq in Hlen.
    apply (remove_dups_one _ _ _ Hlen); by apply list_elem_of_fmap_2.
Qed.

Lemma publish_multiarch_images_goes_in_step_witness :
  ResolvedImage_name Example.resolved_b = ResolvedImage_name Example.resolved_b.
Proof.
  destruct (publish_multiarch_images_goes_in_step Example.world0 "latest"
              [[Example.resolved_b]; [Example.resolved_b; Example.resolved_a]])
    as [_ H].
  apply (H empty_store eq_refl 0%nat
           [Example.resolved_b; Example.resolved_b]).
  - repeat constructor.
  - left.
  - left.
Defined.

(** ** The order of the targets *)

Lemma StronglySorted_unique {A} (R : A -> A -> Prop) (l1 l2 : list A) :
  (forall x y, x ∈ l1 -> y ∈ l1 -> R x y -> R y x -> x = y) ->
  StronglySorted R l1 -> StronglySorted R l2 -> l1 ≡ₚ l2 -> l1 = l2.
Proof.
  revert l2. induction l1 as [|a l1 IH]; intros l2 Hanti H1 H2 Hperm.
  - by apply Permutation_nil in Hperm.
  - destruct l2 as [|b l2]; [by apply Permutation_sym, Permutation_nil in Hperm|].
    apply StronglySorted_inv in H1 as [H1 Ha].
    apply StronglySorted_inv in H2 as [H2 Hb].
    rewrite Forall_forall in Ha, Hb.
    assert (Hab : a = b).
    { assert (Hin_a : a ∈ b :: l2) by (rewrite <- Hperm; left).
      assert (Hin_b : b ∈ a :: l1) by (rewrite Hperm; left).
      apply elem_of_cons in Hin_a as [?|Hin_a]; [done|].
      apply elem_of_cons in Hin_b as [?|Hin_b]; [done|].
      apply Hanti; [left|by right|by apply Ha|by apply Hb]. }
    subst b. f_equal. apply IH; [|done|done|by apply Permutation_cons_inv in Hperm].
    intros x y Hx Hy. apply Hanti; by right.
Qed.

(** X21.  For targets taken from the repository, the result of
    [resolve_dependencies] does not depend on the order in which the targets
    are given. *)
Theorem resolve_dependencies_ignores_target_order (w : World)
    (repo : Repository) (targets targets' : list Image) :
  (forall t, t ∈ targets -> dict_get (images repo) (name t) = Some t) ->
  targets ≡ₚ targets' ->
  resolve_dependencies w repo targets = resolve_dependencies w repo targets'.
Proof.
  intros Hreg Hperm.
  assert (Hsorted : Py.sorted_by name targets = Py.sorted_by name targets').
  { apply (StronglySorted_unique (key_le name)).
    - intros x y Hx%elem_of_sorted_by Hy%elem_of_sorted_by Hxy Hyx.
      pose proof (String.leb_antisym _ _ Hxy Hyx) as Hname.
      pose proof (Hreg x Hx) as Hgx. rewrite Hname, (Hreg y Hy) in Hgx.
      by injection Hgx.
    - apply sorted_by_StronglySorted.
    - apply sorted_by_StronglySorted.
    - by rewrite !sorted_by_Permutation. }
  unfold resolve_dependencies, resolve_order. by rewrite Hsorted.
Qed.

Lemma resolve_dependencies_ignores_target_order_witness :
  resolve_dependencies Example.world0 (Build_Repository Example.rd0 Example.diamond [])
    [Example.mk_image "b" true ["c"]; Example.mk_image "c" true []]
  = resolve_dependencies Example.world0 (Build_Repository Example.rd0 Example.diamond [])
      [Example.mk_image "c" true []; Example.mk_image "b" true ["c"]].
Proof.
  apply resolve_dependencies_ignores_target_order.
  - intros t Ht. repeat (apply elem_of_cons in Ht as [->|Ht]; [reflexivity|]).
    by apply elem_of_nil in Ht.
  - apply perm_swap.
Defined.

(** ** Directories the walk of [Repository] treats by name *)








Lemma for_each_ext_in {A S} (xs : list A) (f g : A -> S -> result S) :
  (forall x s, x ∈ xs -> f x s = g x s) ->
  forall s, for_each xs f s = for_each xs g s.
Proof.
  intros Hfg. induction xs as [|x xs IH]; intros s; [done|]. simpl.
  rewrite Hfg by left. destruct (g x s); simpl; [|done].
  apply IH. intros y s' Hy. apply Hfg. by right.
Qed.

Lemma walk_forget_pruned (w : World) (rd0 : RepositoryDetails) (t : Tree) :
  (forall l, set_iteration w l ≡ₚ l) ->
  forall path reg,
    walk w rd0 (forget_pruned t) path reg = walk w rd0 t path reg.
Proof.
  intros Hperm. induction t as [files dirs IH] using Tree_nested_ind.
  intros path reg.
  change (forget_pruned (mkTree files dirs))
    with (mkTree files
            (map (fun d : string * option Tree =>
                    (d.1, if bool_decide (d.1 ∈ pruned_dirs) then None
                          else match d.2 with
                               | Some sub => Some (forget_pruned sub)
                               | None => None
                               end)) dirs)).
  simpl. rewrite map_map. simpl.
  destruct (prune w rd0 path (map fst dirs)) as [names|e] eqn:Hprune; [|done].
  simpl. destruct (register w rd0 path files reg) as [reg1|e]; [|done]. simpl.
  apply for_each_ext_in. intros d reg' Hd.
  assert (Hkeep : d ∉ pruned_dirs).
  { unfold prune in Hprune. apply bind_Ok in Hprune as (ds & _ & Hnames).
    injection Hnames as <-. rewrite Hperm in Hd.
    by apply list_elem_of_filter in Hd as [Hd _]. }
  rewrite map_map. simpl. clear Hprune Hd.
  induction IH as [|[k v] dirs Hv _ IHdirs]; [done|]. simpl.
  destruct (String.eqb k d) eqn:Hk; [|apply IHdirs].
  apply String.eqb_eq in Hk. subst k.
  rewrite bool_decide_eq_false_2 by done.
  destruct v as [sub|]; [|done]. simpl in Hv. by rewrite Hv.
Qed.

(** X23.  What lies below a directory named [.git], [.mypy_cache], [target],
    [target-ra], [target-xcompile], [mzdata], [node_modules] or [venv] has
    no effect on the repository constructed: images and compositions there
    are not found, and errors there are not raised. *)
Theorem Repository_init_skips_pruned_directories (w : World)
    (rd0 : RepositoryDetails) (t : Tree) :
  (forall l, set_iteration w l ≡ₚ l) ->
  Repository_init w rd0 (Some (forget_pruned t))
  = Repository_init w rd0 (Some t).
Proof.
  intros Hperm. unfold Repository_init. by rewrite walk_forget_pruned.
Qed.

Lemma Repository_init_skips_pruned_directories_witness :
  Repository_init Sample.world Example.rd0
    (Some (mkTree ["README.md"]
             [ ("a", Some Sample.image_dir);
               (".git", None);
               ("b", Some Sample.image_dir);
               ("test", Some (mkTree ["mzcompose.py"] []));
               ("misc", Some (mkTree [] [("python", Some Sample.image_dir)])) ]))
  = Repository_init Sample.world Example.rd0 (Some Sample.tree).
Proof.
  apply (Repository_init_skips_pruned_directories Sample.world Example.rd0
           Sample.tree).
  intros l. reflexivity.
Defined.

(** ** One Cargo build for a batch of images *)

Lemma CargoBuild_prepare_batch_run (w : World) (first : PreImage)
    (rest : list PreImage) (s s' : Store) (out : option string) :
  CargoBuild_prepare_batch w (first :: rest) s = (s', Ok out) ->
  exists cmd,
    common_cargo_build w first (first :: rest) = Ok cmd
    /\ history s' = history s ++ [cmd; cmd ++ ["--message-format=json"]].
Proof.
  unfold CargoBuild_prepare_batch, common_cargo_build. cbv zeta.
  destruct (generate_cargo_build_command w (pre_rd first) _ _) as [cmd|e].
  - unfold mbind, ui.section, emit, lift, spawn.runv, spawn.capture, ret.
    simpl. destruct (exit_ok w _ cmd); [|done].
    destruct (exit_ok w _ (cmd ++ _)); [|done].
    intros [= <- _]. exists cmd. split; [done|].
    unfold history. simpl. rewrite !omap_app. simpl.
    by rewrite app_nil_r, <- app_assoc.
  - unfold mbind, ui.section, emit, lift. simpl. done.
Qed.

Lemma dict_set_keys_mem {V} (d : list (string * V)) (k : string) (v : V) :
  k ∈ d.*1 -> (dict_set d k v).*1 = d.*1.
Proof.
  induction d as [|[k' v'] d IH]; [by intros ?%elem_of_nil|]. simpl.
  intros Hin. destruct (String.eqb_spec k' k) as [->|Hne]; [done|].
  simpl. f_equal. apply IH.
  apply elem_of_cons in Hin as [?|?]; [congruence|done].
Qed.

Lemma dict_set_NoDup {V} (d : list (string * V)) (k : string) (v : V) :
  NoDup d.*1 -> NoDup (dict_set d k v).*1.
Proof.
  intros Hnd. destruct (decide (k ∈ d.*1)) as [Hin|Hout].
  - by rewrite dict_set_keys_mem.
  - rewrite dict_set_fresh, fmap_app by done. apply NoDup_app.
    split; [done|]. split; [|apply NoDup_singleton].
    intros x Hx ->%list_elem_of_singleton. done.
Qed.

(** The groups of [_prepare_batch] after the actions [seen]: each class that
    occurs once, with the actions of that class in order. *)
Lemma groups_by_class (ps : list PreImage) :
  forall (acc : list (string * list PreImage)) (seen : list PreImage),
    NoDup acc.*1 ->
    (forall cls,
       dict_get acc cls
       = match List.filter (fun p => String.eqb (class_of p) cls) seen with
         | [] => None
         | l => Some l
         end) ->
    let groups :=
      foldl (fun groups pre_image =>
               let cls := class_of pre_image in
               dict_set groups cls
                 (default [] (dict_get groups cls) ++ [pre_image]))
            acc ps in
    NoDup groups.*1
    /\ forall cls,
         dict_get groups cls
         = match List.filter (fun p => String.eqb (class_of p) cls)
                   (seen ++ ps) with
           | [] => None
           | l => Some l
           end.
Proof.
  induction ps as [|p ps IH]; intros acc seen Hnd Hget.
  - simpl. by rewrite app_nil_r.
  - simpl.
    replace (seen ++ p :: ps) with ((seen ++ [p]) ++ ps)
      by (by rewrite <- app_assoc).
    apply IH; [by apply dict_set_NoDup|].
    intros cls. rewrite dict_get_set, List.filter_app. simpl.
    destruct (String.eqb_spec (class_of p) cls) as [<-|Hne].
    + rewrite Hget.
      by destruct (List.filter _ seen).
    + by rewrite Hget, app_nil_r.
Qed.

Lemma class_of_cases (p : PreImage) :
  class_of p = "Copy" \/ class_of p = "CargoBuild".
Proof. unfold class_of. destruct (pre_kind p); eauto. Qed.

Lemma prepare_groups (w : World) (builds : list PreImage)
    (gs : list (string * list PreImage)) :
  NoDup gs.*1 ->
  (forall k l, (k, l) ∈ gs ->
     k = "Copy" \/ (k = "CargoBuild" /\ l = builds /\ builds <> [])) ->
  forall (acc prep : list (string * option string)) (s s' : Store),
    mfold gs
      (fun group pre_image_prep =>
         v <~ prepare_batch w group.1 group.2 ;;
         ret (dict_set pre_image_prep group.1 v))
      acc s = (s', Ok prep) ->
    (forall k, k ∈ acc.*1 \/ k ∈ gs.*1 -> is_Some (dict_get prep k))
    /\ if bool_decide ("CargoBuild" ∈ gs.*1) then
         exists first rest cmd,
           builds = first :: rest
           /\ common_cargo_build w first builds = Ok cmd
           /\ history s' = history s ++ [cmd; cmd ++ ["--message-format=json"]]
       else history s' = history s.
Proof.
  induction gs as [|[k l] gs IH]; intros Hnd Hgs acc prep s s' Hrun.
  - injection Hrun as <- <-. split; [|done].
    intros k [Hk|Hk%elem_of_nil]; [|done].
    apply dict_mem_keys in Hk. unfold dict_mem in Hk.
    by destruct (dict_get acc k).
  - apply NoDup_cons in Hnd as [Hk Hnd].
    change (mfold ((k, l) :: gs) ?body acc)
      with (acc' <~ body (k, l) acc ;; mfold gs body acc') in Hrun.
    cbv beta in Hrun. unfold mbind at 1 in Hrun. simpl fst in Hrun.
    simpl snd in Hrun.
    assert (Htail : forall k0 l0, (k0, l0) ∈ gs ->
              k0 = "Copy" \/ (k0 = "CargoBuild" /\ l0 = builds /\ builds <> []))
      by (intros k0 l0 H0; apply Hgs; by right).
    assert (Hkeys : forall (v : option string) k0,
              k0 ∈ acc.*1 \/ k0 ∈ ((k, l) :: gs).*1 ->
              k0 ∈ (dict_set acc k v).*1 \/ k0 ∈ gs.*1).
    { intros v k0 [H0|[->|H0]%elem_of_cons]; [| |by right]; left;
        apply dict_mem_keys; unfold dict_mem; rewrite dict_get_set.
      - destruct (String.eqb k k0); [done|].
        apply dict_mem_keys in H0. unfold dict_mem in H0.
        by destruct (dict_get acc k0).
      - by rewrite String.eqb_refl. }
    destruct (Hgs k l ltac:(left)) as [->|(-> & -> & Hne)].
    + unfold prepare_batch, mbind, ret in Hrun. simpl in Hrun.
      destruct (IH Hnd Htail _ _ _ _ Hrun) as [Hprep Hhist].
      split; [intros k0 H0; apply Hprep; by apply Hkeys|].
      assert (Hiff : "CargoBuild" ∈ (("Copy", l) :: gs).*1
                     <-> "CargoBuild" ∈ gs.*1).
      { simpl. rewrite elem_of_cons. split; [by intros [?|?]|by right]. }
      by rewrite (bool_decide_ext _ _ Hiff).
    + destruct builds as [|first rest]; [done|].
      unfold prepare_batch in Hrun. simpl String.eqb in Hrun. cbv iota in Hrun.
      unfold mbind at 1 in Hrun.
      destruct (CargoBuild_prepare_batch w (first :: rest) s)
        as [s1 [out|e]] eqn:Hcb; [|done].
      apply CargoBuild_prepare_batch_run in Hcb as (cmd & Hcmd & Hh1).
      unfold ret in Hrun.
      destruct (IH Hnd Htail _ _ _ _ Hrun) as [Hprep Hhist].
      split; [intros k0 H0; apply Hprep; by apply Hkeys|].
      rewrite bool_decide_eq_false_2 in Hhist by done.
      rewrite bool_decide_eq_true_2 by left.
      exists first, rest, cmd. split; [done|]. split; [done|].
      by rewrite Hhist.
Qed.

(** X24.  [_prepare_batch] runs Cargo once for all the images of the batch:
    when it returns, the only commands run are one build, whose targets are
    the binaries and examples of all [CargoBuild] actions together, and the
    same command again with [--message-format=json]; without a [CargoBuild]
    action no command is run.  The result has an entry for the class of every
    action, so that [build] finds its preparation. *)
Theorem prepare_batch_builds_once (w : World) (images : list ResolvedImage)
    (s s' : Store) (prep : list (string * option string)) :
  _prepare_batch w images s = (s', Ok prep) ->
  (forall ri p, ri ∈ images -> p ∈ pre_images (image ri) ->
                is_Some (dict_get prep (class_of p)))
  /\ match cargo_builds_of images with
     | [] => history s' = history s
     | first :: rest =>
         exists cmd,
           common_cargo_build w first (first :: rest) = Ok cmd
           /\ history s' = history s ++ [cmd; cmd ++ ["--message-format=json"]]
     end.
Proof.
  unfold _prepare_batch. cbv zeta.
  set (all := concat (map (fun ri => pre_images (image ri)) images)).
  destruct (groups_by_class all [] [] NoDup_nil_2 (fun _ => eq_refl))
    as [Hnd Hget].
  cbv zeta in Hnd, Hget. simpl app in Hget.
  set (groups := foldl _ [] all) in *. intros Hrun.
  assert (Hgs : forall k l, (k, l) ∈ groups ->
            k = "Copy"
            \/ (k = "CargoBuild" /\ l = cargo_builds_of images
                /\ cargo_builds_of images <> [])).
  { intros k l Hin. apply dict_get_elem_NoDup in Hin; [|done].
    rewrite Hget in Hin.
    destruct (List.filter _ all) as [|p ps] eqn:Hf; [done|].
    assert (Hp : In p (List.filter (fun p => String.eqb (class_of p) k) all))
      by (rewrite Hf; left; done).
    apply List.filter_In in Hp as [_ Hp%String.eqb_eq].
    destruct (class_of_cases p) as [Hc|Hc]; rewrite Hc in Hp; subst k;
      [by left|right].
    unfold cargo_builds_of. fold all. rewrite Hf. split; [done|].
    split; [congruence|done]. }
  destruct (prepare_groups w _ groups Hnd Hgs _ _ _ _ Hrun) as [Hprep Hhist].
  split.
  - intros ri p Hri Hp. apply Hprep. right.
    apply dict_get_is_Some_keys. rewrite Hget.
    assert (Hin : In p (List.filter
                          (fun q => String.eqb (class_of q) (class_of p)) all)).
    { apply List.filter_In. split; [|apply String.eqb_refl].
      apply in_concat. exists (pre_images (image ri)).
      split; [|by apply list_elem_of_In].
      apply in_map_iff. exists ri. split; [done|by apply list_elem_of_In]. }
    by destruct (List.filter _ all).
  - destruct (bool_decide ("CargoBuild" ∈ groups.*1)) eqn:Hmem.
    + destruct Hhist as (first & rest & cmd & Hb & Hcmd & Hh).
      rewrite Hb in *. eauto.
    + apply bool_decide_eq_false in Hmem.
      apply dict_get_None_keys in Hmem. rewrite Hget in Hmem.
      unfold cargo_builds_of. fold all.
      by destruct (List.filter _ all).
Qed.

Lemma prepare_batch_builds_once_witness :
  let images := [Batch.cargo_image "a" "environmentd";
                 Batch.cargo_image "b" "clusterd"] in
  exists cmd,
    cmd = ["cargo"; "build"; "--bin"; "environmentd"; "--bin"; "clusterd";
           "--package=environmentd"; "--package=clusterd"; "--release"]
    /\ history (_prepare_batch Batch.world images empty_store).1
       = [cmd; cmd ++ ["--message-format=json"]].
Proof.
  intros images.
  destruct (_prepare_batch Batch.world images empty_store) as [s' r] eqn:Hrun.
  assert (Hr : r = Ok [("Copy", None); ("CargoBuild", Some "")]).
  { vm_compute in Hrun. by injection Hrun as _ <-. }
  subst r.
  destruct (prepare_batch_builds_once Batch.world images empty_store s' _ Hrun)
    as [_ (cmd & Hcmd & Hhist)].
  exists cmd. split; [|exact Hhist].
  vm_compute in Hcmd. by injection Hcmd as <-.
Defined.

(** ** The events of [build] *)

Lemma mbind_inv {A B} (c : M A) (k : A -> M B) (s s' : Store) (b : B) :
  mbind c k s = (s', Ok b) ->
  exists s1 a, c s = (s1, Ok a) /\ k a s1 = (s', Ok b).
Proof.
  unfold mbind. destruct (c s) as [s1 [a|e]]; [eauto|discriminate].
Qed.

Lemma lift_inv {A} (r : result A) (s s' : Store) (a : A) :
  lift r s = (s', Ok a) -> r = Ok a /\ s' = s.
Proof. unfold lift. by intros [= -> ->]. Qed.

Lemma emits_run {A} (P : Event -> Prop) (c : M A) (s s1 : Store)
    (r : result A) :
  emits P c -> c s = (s1, r) ->
  exists events, trace s1 = trace s ++ events /\ Forall P events.
Proof. intros Hc Hrun. specialize (Hc s). by rewrite Hrun in Hc. Qed.

Lemma emits_ret {A} (P : Event -> Prop) (a : A) : emits P (ret a).
Proof. intros s. exists []. simpl. by rewrite app_nil_r. Qed.

Lemma emits_lift {A} (P : Event -> Prop) (r : result A) : emits P (lift r).
Proof. intros s. exists []. simpl. by rewrite app_nil_r. Qed.

Lemma emits_set_pre_acquired (P : Event -> Prop) (key : string * nat) :
  emits P (set_pre_acquired key).
Proof. intros s. exists []. simpl. by rewrite app_nil_r. Qed.

Lemma emits_emit (P : Event -> Prop) (e : Event) : P e -> emits P (emit e).
Proof. intros He s. exists [e]. split; [done|by constructor]. Qed.

Lemma emits_runv (P : Event -> Prop) (w : World) (cmd : list string)
    (stdin : option string) :
  P (Run cmd stdin) -> emits P (spawn.runv w cmd stdin).
Proof. intros He s. exists [Run cmd stdin]. split; [done|by constructor]. Qed.

Lemma emits_capture (P : Event -> Prop) (w : World) (cmd : list string) :
  P (Run cmd None) -> emits P (spawn.capture w cmd).
Proof. intros He s. exists [Run cmd None]. split; [done|by constructor]. Qed.

Lemma emits_mbind {A B} (P : Event -> Prop) (c : M A) (k : A -> M B) :
  emits P c -> (forall a, emits P (k a)) -> emits P (mbind c k).
Proof.
  intros Hc Hk s. unfold mbind. destruct (Hc s) as (ev1 & H1 & HP1).
  destruct (c s) as [s1 [a|e]]; simpl in *; [|by exists ev1].
  destruct (Hk a s1) as (ev2 & H2 & HP2). exists (ev1 ++ ev2).
  split; [by rewrite H2, H1, app_assoc|by apply Forall_app].
Qed.

Lemma emits_mfor {A} (P : Event -> Prop) (xs : list A) (body : A -> M unit) :
  (forall x, emits P (body x)) -> emits P (mfor xs body).
Proof.
  intros Hbody. induction xs as [|x xs IH]; [apply emits_ret|].
  change (mfor (x :: xs) body) with (mbind (body x) (fun _ => mfor xs body)).
  apply emits_mbind; [apply Hbody|by intros _].
Qed.

Lemma emits_mfold {A S} (P : Event -> Prop) (xs : list A)
    (body : A -> S -> M S) (acc : S) :
  (forall x acc, emits P (body x acc)) -> emits P (mfold xs body acc).
Proof.
  intros Hbody. revert acc. induction xs as [|x xs IH]; intros acc;
    [apply emits_ret|].
  rewrite mfold_cons. apply emits_mbind; [apply Hbody|intros a; apply IH].
Qed.

(** Splits a computation along its binds and loops; what is left to show is
    that each event it adds is as it should be. *)
Ltac emits :=
  repeat first
    [ apply emits_mbind; [|intros ?]
    | apply emits_mfor; intros ?
    | apply emits_mfold; intros ? ?
    | apply emits_ret
    | apply emits_lift
    | apply emits_set_pre_acquired
    | apply emits_emit
    | apply emits_runv
    | apply emits_capture
    | match goal with
      | |- emits _ (if ?b then _ else _) => destruct b
      | |- emits _ (match ?x with _ => _ end) => destruct x
      end ].

Lemma emits_CargoBuild_extract_line (w : World) (p : PreImage)
    (extract : list (string * list (string * string))) (line : string) :
  emits (action_event w) (CargoBuild_extract_line w p extract line).
Proof.
  unfold CargoBuild_extract_line. emits.
  split; [done|]. left. eauto.
Qed.

(** A loop that has returned: what each round has added, one after the
    other. *)
Lemma mfor_trace {A} (P : Event -> Prop) (Q : A -> list Event -> Prop)
    (xs : list A) (body : A -> M unit) :
  (forall x s s1, x ∈ xs -> body x s = (s1, Ok tt) ->
     exists sub, trace s1 = trace s ++ sub /\ Forall P sub /\ Q x sub) ->
  forall s s',
    mfor xs body s = (s', Ok tt) ->
    exists events,
      trace s' = trace s ++ events /\ Forall P events
      /\ forall x, x ∈ xs ->
           exists sub, Q x sub /\ forall e, e ∈ sub -> e ∈ events.
Proof.
  induction xs as [|x xs IH]; intros Hbody s s' Hrun.
  - injection Hrun as <-. exists []. rewrite app_nil_r.
    split; [done|]. split; [done|]. by intros x ?%elem_of_nil.
  - change (mfor (x :: xs) body) with (mbind (body x) (fun _ => mfor xs body))
      in Hrun.
    apply mbind_inv in Hrun as (s1 & [] & Hx & Hrun).
    destruct (Hbody x s s1 ltac:(left) Hx) as (sub & Hsub & HP & HQ).
    destruct (IH (fun y s0 s2 Hy => Hbody y s0 s2 (list_elem_of_further _ _ _ Hy))
                 s1 s' Hrun) as (events & Hevents & HPs & Hall).
    exists (sub ++ events). split; [by rewrite Hevents, Hsub, app_assoc|].
    split; [by apply Forall_app|].
    intros y [->|Hy]%elem_of_cons.
    + exists sub. split; [done|]. intros e He. apply elem_of_app. by left.
    + destruct (Hall y Hy) as (sub' & HQ' & Hin). exists sub'.
      split; [done|]. intros e He. apply elem_of_app. right. by apply Hin.
Qed.

Lemma CargoBuild_copy_trace (w : World) (p : PreImage) (strip : bool)
    (exe : string) (s s1 : Store) :
  CargoBuild_copy w p strip exe s = (s1, Ok tt) ->
  exists sub,
    trace s1 = trace s ++ sub /\ Forall (action_event w) sub
    /\ CopyFile
         (Path.join
            (Path.join (cargo_target_dir (pre_rd p))
               (if release_mode (pre_rd p) then "release" else "debug")) exe)
         (Path.join (pre_path p) exe) ∈ sub.
Proof.
  unfold CargoBuild_copy. cbv zeta. intros Hrun.
  apply mbind_inv in Hrun as (sa & [] & Ha & Hrun).
  apply mbind_inv in Hrun as (sb & [] & Hb & Hrun).
  unfold emit in Ha, Hb. injection Ha as <-. injection Hb as <-.
  destruct strip; unfold spawn.runv in Hrun; simpl in Hrun;
    (destruct (exit_ok w _ _); [|discriminate]); injection Hrun as <-;
    simpl; eexists [_; _; _]; (split; [by rewrite <- !app_assoc|]);
    (split; [|right; left]);
    (apply Forall_cons; split; [exact I|]);
    (apply Forall_cons; split; [exact I|]);
    (apply Forall_cons; split; [|done]); (split; [done|]); right.
  - left. eauto.
  - right. eauto.
Qed.

(** A pre-image action that has returned has added events of an action and
    nothing else, among them every copy it is there to make. *)
Lemma PreImage_run_trace (w : World) (p : PreImage) (index : nat)
    (prep : option string) (s s1 : Store) :
  (forall l, set_iteration w l ≡ₚ l) ->
  PreImage_run w p index prep s = (s1, Ok tt) ->
  exists sub,
    trace s1 = trace s ++ sub /\ Forall (action_event w) sub
    /\ forall e, e ∈ copies_of w p -> e ∈ sub.
Proof.
  intros Hperm. unfold PreImage_run, copies_of.
  destruct (pre_kind p) as [source destination matching
                           |bins examples strip extract].
  - unfold Copy_run. intros Hrun.
    apply mbind_inv in Hrun as (s0 & srcs & [Hsrcs ->]%lift_inv & Hrun).
    rewrite Hsrcs.
    apply (mfor_trace (action_event w)
             (fun src sub =>
                CopyFile (Path.join (Path.join (root (pre_rd p)) source) src)
                  (Path.join (Path.join (pre_path p) destination) src) ∈ sub))
      in Hrun as (events & Htrace & HP & Hall).
    + exists events. split; [done|]. split; [done|].
      intros e (src & -> & Hsrc)%list_elem_of_fmap.
      destruct (Hall src) as (sub & Hin & Hsub); [by rewrite Hperm|].
      by apply Hsub.
    + intros src sa sb _. unfold mbind, emit. simpl. intros [= <-]. simpl.
      eexists [_; _]. split; [by rewrite <- !app_assoc|].
      split; [by repeat constructor|]. right. left.
  - unfold CargoBuild_build. intros Hrun.
    apply mbind_inv in Hrun as (sa & [] & Hbins & Hrun).
    apply mbind_inv in Hrun as (sb & [] & Hexamples & Hrun).
    apply mbind_inv in Hrun as (sc & [] & Hextract & Hrun).
    unfold set_pre_acquired in Hrun. injection Hrun as <-. cbn [trace].
    apply (mfor_trace (action_event w)
             (fun exe sub =>
                CopyFile
                  (Path.join
                     (Path.join (cargo_target_dir (pre_rd p))
                        (if release_mode (pre_rd p) then "release"
                         else "debug")) exe)
                  (Path.join (pre_path p) exe) ∈ sub))
      in Hbins as (ev1 & H1 & HP1 & Hall1);
      [|intros exe s0 s2 _; apply CargoBuild_copy_trace].
    apply (mfor_trace (action_event w)
             (fun example sub =>
                CopyFile
                  (Path.join
                     (Path.join (cargo_target_dir (pre_rd p))
                        (if release_mode (pre_rd p) then "release"
                         else "debug")) (Path.join "examples" example))
                  (Path.join (pre_path p) (Path.join "examples" example))
                ∈ sub))
      in Hexamples as (ev2 & H2 & HP2 & Hall2);
      [|intros example s0 s2 _; apply CargoBuild_copy_trace].
    assert (Hext : exists ev3, trace sc = trace sb ++ ev3
                               /\ Forall (action_event w) ev3).
    { eapply emits_run; [|exact Hextract].
      destruct extract; [apply emits_ret|].
      apply emits_mfor. intros line. apply emits_CargoBuild_extract_line. }
    destruct Hext as (ev3 & H3 & HP3).
    exists (ev1 ++ ev2 ++ ev3).
    split; [by rewrite H3, H2, H1, <- !app_assoc|].
    split; [apply Forall_app; split; [done|]; by apply Forall_app|].
    intros e (exe & -> & [Hexe|Hexe]%elem_of_app)%list_elem_of_fmap.
    + destruct (Hall1 exe Hexe) as (sub & Hin & Hsub).
      apply elem_of_app. left. by apply Hsub.
    + apply list_elem_of_fmap in Hexe as (example & -> & Hexample).
      destruct (Hall2 example Hexample) as (sub & Hin & Hsub).
      apply elem_of_app. right. apply elem_of_app. left. by apply Hsub.
Qed.

(** The events of a [build] that has returned. *)
Lemma build_returns (w : World) (ri : ResolvedImage)
    (prep : list (string * option string)) (s s' : Store) :
  (forall l, set_iteration w l ≡ₚ l) ->
  build w ri prep s = (s', Ok tt) ->
  exists events, trace s' = trace s ++ events /\ build_trace w ri events.
Proof.
  intros Hperm. unfold build. cbv zeta. intros Hrun.
  apply mbind_inv in Hrun as (s1 & sp & [Hsp ->]%lift_inv & Hrun).
  rewrite Hsp in *.
  apply mbind_inv in Hrun as (s2 & [] & Hsay & Hrun).
  apply mbind_inv in Hrun as (s3 & [] & Hclean & Hrun).
  apply mbind_inv in Hrun as (s4 & [] & Hpre & Hrun).
  apply mbind_inv in Hrun as (s5 & f & [Hf ->]%lift_inv & Hrun).
  apply mbind_inv in Hrun as (s6 & sp' & [[= <-] ->]%lift_inv & Hrun).
  apply (mfor_trace (action_event w)
           (fun ip sub => forall e, e ∈ copies_of w ip.2 -> e ∈ sub))
    in Hpre as (actions & Hactions & HP & Hall).
  2:{ intros ip sa sb _ Hip.
      apply mbind_inv in Hip as (sa' & v & [_ ->]%lift_inv & Hip).
      by apply PreImage_run_trace in Hip. }
  unfold ui.section, emit in Hsay. injection Hsay as <-.
  unfold spawn.runv in Hclean. simpl in Hclean.
  assert (Ht3 : trace s3
                = trace s
                  ++ [Say ("Building " +:+ sp);
                      Run ["git"; "clean"; "-ffdX"; path (image ri)] None]).
  { destruct (exit_ok w _ _); [|done]. injection Hclean as <-. simpl.
    by rewrite <- app_assoc. }
  unfold spawn.runv in Hrun.
  destruct (exit_ok w _ _); [|done]. injection Hrun as <-. simpl.
  eexists. split.
  - rewrite Hactions, Ht3. rewrite <- !app_assoc. reflexivity.
  - exists sp, f, actions. split; [done|]. split; [done|].
    split; [done|]. split; [done|].
    intros p e Hp He. apply list_elem_of_lookup in Hp as [index Hp].
    destruct (Hall (index, p)) as (sub & Hsub & Hin).
    { apply elem_of_lookup_imap. by exists index, p. }
    apply Hin. by apply Hsub.
Qed.

(** X25.  A [build] that returns has added to the trace, in this order: the
    announcement of the spec, [git clean -ffdX] on the directory of the
    image, the events of the actions of the image, and one [docker build],
    which reads the Dockerfile that [write_dockerfile] renders from standard
    input, is tagged with the spec and gets [ARCH_GCC] and [ARCH_GO] of the
    architecture as build arguments.  The events in between are directories
    made, files copied and runs of [strip], [objcopy] and [cp -R], and nothing
    else; every input of a [Copy] action and every binary and example of a
    [CargoBuild] action has been copied to the image. *)
Theorem build_cleans_first_and_builds_last (w : World) (ri : ResolvedImage)
    (prep : list (string * option string)) (s s' : Store) :
  (forall l, set_iteration w l ≡ₚ l) ->
  build w ri prep s = (s', Ok tt) ->
  exists sp f actions,
    spec w ri = Ok sp /\ write_dockerfile w ri = Ok f
    /\ trace s'
       = trace s
         ++ [Say ("Building " +:+ sp);
             Run ["git"; "clean"; "-ffdX"; path (image ri)] None]
         ++ actions
         ++ [Run (["docker"; "build"; "-f"; "-"]
                  ++ map (fun kv => "--build-arg=" +:+ kv.1 +:+ "=" +:+ kv.2)
                       (dict_set
                          (dict_set (build_args (image ri)) "ARCH_GCC"
                                    (Arch_str (arch (rd (image ri)))))
                          "ARCH_GO" (Arch_go_str (arch (rd (image ri)))))
                  ++ ["-t"; sp;
                      "--platform=linux/"
                      +:+ Arch_go_str (arch (rd (image ri)));
                      path (image ri)])
                (Some f)]
    /\ Forall (action_event w) actions
    /\ forall p e, p ∈ pre_images (image ri) -> e ∈ copies_of w p ->
                   e ∈ actions.
Proof.
  intros Hperm Hrun.
  apply build_returns in Hrun
    as (events & Htrace & sp & f & actions & Hsp & Hf & -> & HP & Hall);
    [|done].
  by exists sp, f, actions.
Qed.

(** An image whose actions copy a directory and build one binary. *)
Lemma build_cleans_first_and_builds_last_witness :
  let ri := Batch.cargo_image "x" "bin" in
  let prep := [("Copy", None); ("CargoBuild", Some "")] in
  exists actions,
    trace (build Batch.world ri prep empty_store).1
    = [Say "Building materialize/x:mzbuild-JHDGWHIVHFGCOSXL5QHPHOTPULYQX7W4";
       Run ["git"; "clean"; "-ffdX"; "/repo/x"] None]
      ++ actions
      ++ [Run ["docker"; "build"; "-f"; "-";
               "--build-arg=ARCH_GCC=x86_64"; "--build-arg=ARCH_GO=amd64";
               "-t"; "materialize/x:mzbuild-JHDGWHIVHFGCOSXL5QHPHOTPULYQX7W4";
               "--platform=linux/amd64"; "/repo/x"]
              (Some "FROM scratch")]
    /\ Forall (action_event Batch.world) actions
    /\ CopyFile "/repo/misc/*" "/repo/x/*" ∈ actions
    /\ CopyFile "/repo/target-xcompile/x86_64-unknown-linux-gnu/release/bin"
                "/repo/x/bin" ∈ actions.
Proof.
  intros ri prep.
  destruct (build Batch.world ri prep empty_store) as [s' r] eqn:Hrun.
  assert (Hr : r = Ok tt) by (vm_compute in Hrun; by injection Hrun as _ <-).
  subst r.
  destruct (build_cleans_first_and_builds_last Batch.world ri prep
              empty_store s' (fun l => reflexivity l) Hrun)
    as (sp & f & actions & Hsp & Hf & Htrace & Hactions & Hcopies).
  vm_compute in Hsp. injection Hsp as <-.
  vm_compute in Hf. injection Hf as <-.
  exists actions. split; [exact Htrace|]. split; [exact Hactions|].
  split.
  - apply (Hcopies {| pre_rd := Example.rd0; pre_path := "/repo/x";
                      pre_kind := Copy "misc" "." "*" |}).
    + vm_compute. left.
    + vm_compute. left.
  - apply (Hcopies {| pre_rd := Example.rd0; pre_path := "/repo/x";
                      pre_kind := CargoBuild ["bin"] [] true [] |}).
    + vm_compute. right. left.
    + vm_compute. left.
Defined.
